(** * Streaming tracing SDK: event reconstruction, span start-up and
    configuration merge

    A shallow embedding of three Go files of the OpenTelemetry streaming
    prototype:

    - [experimental/streaming/exporter/reader/reader.go]: the reader observer
      that replays the event stream into scope, span and measure tables;
    - [experimental/streaming/sdk/trace.go]: the tracer ([WithResources],
      [WithSpan], [Start]);
    - [sdk/trace/config.go]: [ApplyConfig], and what the file carries besides:
      the stdout exporter and the generated strings of the observer's event
      types.

    Go pointers are addresses into explicit object stores, [sync.Map] tables
    are finite maps, a panic is an outcome that keeps the state reached so
    far, and unsigned 64-bit integers are values of [N] with the wrap-around
    written out. *)

From stdpp Require Import gmap strings list fin_maps pretty.

Open Scope N_scope.

(** ** Outcomes of Go calls *)

(** A call either returns, panics with a message (the operands that Go
    formats into the message are dropped), or the model ran out of fuel
    (only the clean-up loop is fuelled, and it is shown never to run out). *)
Inductive outcome (A : Type) : Type :=
  | Done (a : A)
  | Panic (msg : string)
  | OutOfFuel.
Arguments Done {A} a.
Arguments Panic {A} msg.
Arguments OutOfFuel {A}.

(** State passing in which a panic keeps the state at the point of panic:
    effects performed before a panic stay visible. *)
Definition M (S A : Type) : Type := S → S * outcome A.

Global Instance M_ret {S} : MRet (M S) := λ A a s, (s, Done a).
Global Instance M_bind {S} : MBind (M S) := λ A B f m s,
  match m s with
  | (s', Done a) => f a s'
  | (s', Panic msg) => (s', Panic msg)
  | (s', OutOfFuel) => (s', OutOfFuel)
  end.

Definition panic {S A} (msg : string) : M S A := λ s, (s, Panic msg).
Definition modify {S} (f : S → S) : M S unit := λ s, (f s, Done tt).

Definition is_panic {A} (o : outcome A) : bool :=
  match o with Panic _ => true | _ => false end.

(** The value a call returned, or [d] when it did not return. *)
Definition returned {A} (d : A) (o : outcome A) : A :=
  match o with Done a => a | _ => d end.

Abbreviation uint64 := N (only parsing).
Definition wrap64 (n : N) : uint64 := n mod 2 ^ 64.

(** The run-time error of a method call or field access through nil. *)
Definition nil_dereference : string :=
  "runtime error: invalid memory address or nil pointer dereference".

(** ** api/core: span identity *)
Module core.

(** Modelled from the spec: [core.TraceID] and [core.SpanContext], whose
    declarations are not part of the sources. A span context is a 128-bit
    trace id, in the two halves that trace.go assigns, and a 64-bit span
    id. *)
Record TraceID := { High : uint64; Low : uint64 }.

Record SpanContext := { TraceID_ : TraceID; SpanID : uint64 }.

(** The zero value of [core.SpanContext]. *)
Definition EmptySpanContext : SpanContext :=
  {| TraceID_ := {| High := 0; Low := 0 |}; SpanID := 0 |}.

(** Modelled from the spec: [HasTraceID] of api/core, which is not part of
    the sources. A span context "carries a trace id" when its 128-bit
    trace id is not the zero value. *)
Definition HasTraceID (sc : SpanContext) : bool :=
  negb (High (TraceID_ sc) =? 0) || negb (Low (TraceID_ sc) =? 0).

End core.

(** ** api/tag: attribute deltas *)
Module tag.

(** Modelled from the spec: [tag.MapUpdate], whose declaration is not part of
    the sources, with the four fields that reader.go fills: the four kinds
    of update folded into one delta. *)
Record MapUpdate (KV Mut : Type) := {
  SingleKV : KV;
  MultiKV : list KV;
  SingleMutator : Mut;
  MultiMutator : list Mut }.
Arguments SingleKV {KV Mut} _.
Arguments MultiKV {KV Mut} _.
Arguments SingleMutator {KV Mut} _.
Arguments MultiMutator {KV Mut} _.

End tag.

(** ** The packages the three files import

    The types and operations of api/core, api/key, api/tag, api/stats,
    [time] and [codes] that the sources use but do not define. They are
    parameters of the whole development: no theorem depends on how an
    attribute map applies a delta or on how two instants are subtracted.
    [tag_map] is the type of the non-nil values of the interface [tag.Map],
    which are immutable snapshots; the [_zero] members are the zero values
    of the Go types. *)
Class Api := {
  core_Key : Type;
  core_KeyValue : Type;
  core_KeyValue_zero : core_KeyValue;
  key_New : string → core_Key;
  key_New_WithDescription : string → string → core_Key;
  Key_Bool : core_Key → bool → core_KeyValue;
  Key_String : core_Key → string → core_KeyValue;
  tag_Mutator : Type;
  tag_Mutator_zero : tag_Mutator;
  tag_map : Type;
  tag_NewEmptyMap : tag_map;
  tag_Apply : tag_map → tag.MapUpdate core_KeyValue tag_Mutator → tag_map;
  time_Time : Type;
  time_Time_zero : time_Time;
  time_IsZero : time_Time → bool;
  time_Duration : Type;
  time_Duration_zero : time_Duration;
  time_Sub : time_Time → time_Time → time_Duration;
  codes_Code : Type;
  codes_OK : codes_Code;
  stats_Measure : Type;
  float64 : Type;
  float64_zero : float64;
  error : Type;
  error_Error : error → string }.

(** A value of interface type [tag.Map]: nil or a snapshot. *)
Definition Map `{Api} : Type := option tag_map.

(** ** api/stats *)
Module stats.
Section stats.
Context `{Api}.

(** Modelled from the spec: [stats.Measurement], whose declaration is not
    part of the sources, with the two fields that reader.go reads; [Measure]
    is an interface value, nil when unset. *)
Record Measurement := {
  Measure : option stats_Measure;
  Value : float64 }.

(** The zero value of the struct. *)
Definition Measurement_zero : Measurement :=
  {| Measure := None; Value := float64_zero |}.

End stats.
End stats.

(** ** exporter/observer: the event stream's wire unit

    The declarations of package observer are not part of the sources, apart
    from the generated strings of its event types; its types are given here
    as reader.go and trace.go use them. *)
Module observer.

(** [observer.EventID], an unsigned 64-bit sequence number. *)
Abbreviation EventID := N (only parsing).

(** Modelled from the spec: [observer.ScopeID], an event identifier with an
    embedded span context. *)
Record ScopeID := { EventID_ : EventID; SpanContext : core.SpanContext }.

(** The zero value of the struct. *)
Definition ScopeID_zero : ScopeID :=
  {| EventID_ := 0; SpanContext := core.EmptySpanContext |}.

(** [ScopeID.HasTraceID], promoted from the embedded span context. *)
Definition HasTraceID (s : ScopeID) : bool := core.HasTraceID (SpanContext s).

(** Modelled from the spec: [observer.EventType]. The constants are those of
    the generated strings, in their order, followed by [SET_STATUS], which
    reader.go dispatches on. *)
Inductive EventType :=
  | INVALID | START_SPAN | FINISH_SPAN | ADD_EVENT | ADD_EVENTF
  | NEW_SCOPE | NEW_MEASURE | NEW_METRIC | MODIFY_ATTR | RECORD_STATS
  | SET_STATUS.

Global Instance EventType_eq_dec : EqDecision EventType.
Proof. solve_decision. Defined.

Section event.
Context `{Api} {Ctx : Type}.

(** Modelled from the spec: [observer.Event], with the fields that reader.go
    and trace.go read or write. [Context_] is an interface value, nil when
    unset. *)
Record Event := {
  Type_ : EventType; Time : time_Time;
  Sequence : EventID;
  Scope : ScopeID;
  Parent : ScopeID;
  Context_ : option Ctx;
  String_ : string;
  Attribute : core_KeyValue;
  Attributes : list core_KeyValue;
  Mutator : tag_Mutator;
  Mutators : list tag_Mutator;
  Stat : stats.Measurement;
  Stats : list stats.Measurement;
  Status : codes_Code }.

End event.
Arguments Event {_} Ctx.

End observer.

(** ** exporter/observer: the generated strings of the event types

    The output of [stringer -type=EventType]. An [EventType] is a Go [int];
    its values are integers, and the one sum the function computes, [i+1],
    is taken for [0 <= i < 10] only, so nothing wraps. *)
Module eventtype_string.

(** Sequencing of calls that return or panic and touch no state. *)
Definition outcome_bind {A B} (m : outcome A) (f : A → outcome B) : outcome B :=
  match m with
  | Done a => f a
  | Panic msg => Panic msg
  | OutOfFuel => OutOfFuel
  end.

Definition _EventType_name : string :=
  "INVALIDSTART_SPANFINISH_SPANLOG_EVENTLOGF_EVENTNEW_SCOPENEW_MEASURENEW_METRICMODIFY_ATTRRECORD_STATS".

(** [_EventType_index], an array of [uint8]. *)
Definition _EventType_index : list N := [0; 7; 17; 28; 37; 47; 56; 67; 77; 88; 100].

(** [strconv.FormatInt(i, 10)]: the decimal digits, after a minus sign for a
    negative number. *)
Definition strconv_FormatInt (i : Z) : string := pretty i.

(** [a[i]] on an array: an index outside the array panics. *)
Definition index (a : list N) (i : Z) : outcome N :=
  if (i <? 0)%Z then Panic "index out of range"
  else match a !! Z.to_nat i with
       | Some x => Done x
       | None => Panic "index out of range"
       end.

(** [s[lo:hi]] on a string: the bytes from [lo] up to [hi], a panic when the
    bounds are not in order or exceed the length. *)
Definition slice (s : string) (lo hi : N) : outcome string :=
  if (hi <? lo) || (N.of_nat (String.length s) <? hi)
  then Panic "slice bounds out of range"
  else Done (String.substring (N.to_nat lo) (N.to_nat (hi - lo)) s).

(** [EventType.String] *)
Definition EventType_String (i : Z) : outcome string :=
  if (i <? 0)%Z || (i >=? Z.of_nat (length _EventType_index) - 1)%Z
  then Done ("EventType(" +:+ strconv_FormatInt i +:+ ")")
  else
    outcome_bind (index _EventType_index i) (λ lo,
    outcome_bind (index _EventType_index (i + 1)) (λ hi,
    slice _EventType_name lo hi)).

(** The names that the generated table holds, by value of the event type.
    The values 3 and 4 are the constants [ADD_EVENT] and [ADD_EVENTF]. *)
Definition names : list string :=
  ["INVALID"; "START_SPAN"; "FINISH_SPAN"; "LOG_EVENT"; "LOGF_EVENT";
   "NEW_SCOPE"; "NEW_MEASURE"; "NEW_METRIC"; "MODIFY_ATTR"; "RECORD_STATS"].

End eventtype_string.


(** ** exporter/reader: the reader observer (reader.go) *)
Module reader.

(** A registered sink, [Reader], named by a number. [Read] has no result;
    the calls made on the sinks are kept in the state, in order. *)
Definition Reader := nat.

(** [reader.EventType] *)
Inductive EventType :=
  | INVALID | START_SPAN | FINISH_SPAN | ADD_EVENT | MODIFY_ATTR
  | RECORD_STATS | SET_STATUS.

(** An address in an object store: the model of a non-nil Go pointer. *)
Abbreviation ptr := nat (only parsing).

Section reader.
Context `{Api} {Ctx : Type}.
(** [tag.FromContext], applied to a non-nil context. *)
Variable tag_FromContext : Ctx → Map.

Record Measurement := {
  Measure : option stats_Measure;
  Value : float64;
  m_Tags : Map }.

(** [reader.Event]: the enriched output record. *)
Record Event := {
  Type_ : EventType; Time : time_Time;
  Sequence : observer.EventID;
  SpanContext : core.SpanContext;
  Tags : Map;
  Attributes : Map;
  Stats : list Measurement;
  Parent : core.SpanContext;
  ParentAttributes : Map;
  Duration : time_Duration;
  Name : string;
  Message : string;
  Status : codes_Code }.

Definition set_Type (v : EventType) (e : Event) : Event :=
  {| Type_ := v; Time := Time e; Sequence := Sequence e;
     SpanContext := SpanContext e; Tags := Tags e; Attributes := Attributes e;
     Stats := Stats e; Parent := Parent e;
     ParentAttributes := ParentAttributes e; Duration := Duration e;
     Name := Name e; Message := Message e; Status := Status e |}.
Definition set_SpanContext (v : core.SpanContext) (e : Event) : Event :=
  {| Type_ := Type_ e; Time := Time e; Sequence := Sequence e;
     SpanContext := v; Tags := Tags e; Attributes := Attributes e;
     Stats := Stats e; Parent := Parent e;
     ParentAttributes := ParentAttributes e; Duration := Duration e;
     Name := Name e; Message := Message e; Status := Status e |}.
Definition set_Tags (v : Map) (e : Event) : Event :=
  {| Type_ := Type_ e; Time := Time e; Sequence := Sequence e;
     SpanContext := SpanContext e; Tags := v; Attributes := Attributes e;
     Stats := Stats e; Parent := Parent e;
     ParentAttributes := ParentAttributes e; Duration := Duration e;
     Name := Name e; Message := Message e; Status := Status e |}.
Definition set_Attributes (v : Map) (e : Event) : Event :=
  {| Type_ := Type_ e; Time := Time e; Sequence := Sequence e;
     SpanContext := SpanContext e; Tags := Tags e; Attributes := v;
     Stats := Stats e; Parent := Parent e;
     ParentAttributes := ParentAttributes e; Duration := Duration e;
     Name := Name e; Message := Message e; Status := Status e |}.
Definition set_Stats (v : list Measurement) (e : Event) : Event :=
  {| Type_ := Type_ e; Time := Time e; Sequence := Sequence e;
     SpanContext := SpanContext e; Tags := Tags e; Attributes := Attributes e;
     Stats := v; Parent := Parent e;
     ParentAttributes := ParentAttributes e; Duration := Duration e;
     Name := Name e; Message := Message e; Status := Status e |}.
Definition set_Parent (v : core.SpanContext) (e : Event) : Event :=
  {| Type_ := Type_ e; Time := Time e; Sequence := Sequence e;
     SpanContext := SpanContext e; Tags := Tags e; Attributes := Attributes e;
     Stats := Stats e; Parent := v;
     ParentAttributes := ParentAttributes e; Duration := Duration e;
     Name := Name e; Message := Message e; Status := Status e |}.
Definition set_ParentAttributes (v : Map) (e : Event) : Event :=
  {| Type_ := Type_ e; Time := Time e; Sequence := Sequence e;
     SpanContext := SpanContext e; Tags := Tags e; Attributes := Attributes e;
     Stats := Stats e; Parent := Parent e;
     ParentAttributes := v; Duration := Duration e;
     Name := Name e; Message := Message e; Status := Status e |}.
Definition set_Duration (v : time_Duration) (e : Event) : Event :=
  {| Type_ := Type_ e; Time := Time e; Sequence := Sequence e;
     SpanContext := SpanContext e; Tags := Tags e; Attributes := Attributes e;
     Stats := Stats e; Parent := Parent e;
     ParentAttributes := ParentAttributes e; Duration := v;
     Name := Name e; Message := Message e; Status := Status e |}.
Definition set_Name (v : string) (e : Event) : Event :=
  {| Type_ := Type_ e; Time := Time e; Sequence := Sequence e;
     SpanContext := SpanContext e; Tags := Tags e; Attributes := Attributes e;
     Stats := Stats e; Parent := Parent e;
     ParentAttributes := ParentAttributes e; Duration := Duration e;
     Name := v; Message := Message e; Status := Status e |}.
Definition set_Message (v : string) (e : Event) : Event :=
  {| Type_ := Type_ e; Time := Time e; Sequence := Sequence e;
     SpanContext := SpanContext e; Tags := Tags e; Attributes := Attributes e;
     Stats := Stats e; Parent := Parent e;
     ParentAttributes := ParentAttributes e; Duration := Duration e;
     Name := Name e; Message := v; Status := Status e |}.
Definition set_Status (v : codes_Code) (e : Event) : Event :=
  {| Type_ := Type_ e; Time := Time e; Sequence := Sequence e;
     SpanContext := SpanContext e; Tags := Tags e; Attributes := Attributes e;
     Stats := Stats e; Parent := Parent e;
     ParentAttributes := ParentAttributes e; Duration := Duration e;
     Name := Name e; Message := Message e; Status := v |}.

(** [readerScope]: [span] is a pointer that may be nil. *)
Record readerScope := {
  span : option ptr;
  parent : observer.EventID;
  attributes : Map }.

(** The zero value [readerScope{}]. *)
Definition readerScope_zero : readerScope :=
  {| span := None; parent := 0; attributes := None |}.

(** [readerSpan]; [scope_ptr] is the embedded [*readerScope]. *)
Record readerSpan := {
  name : string;
  start : time_Time;
  startTags : Map;
  spanContext : core.SpanContext;
  status : codes_Code;
  scope_ptr : ptr }.

Record readerMeasure := { measure_name : string }.

(** [readerMetric] embeds a pointer to a measure; measures are never written
    after their creation, so the pointee stands for the pointer. *)
Record readerMetric := { metric_measure : readerMeasure }.

(** A value held by the [scopes] table: [*readerScope] or [*readerSpan]. No
    other dynamic type is ever stored there. *)
Inductive entry :=
  | IScope (p : ptr)
  | ISpan (l : ptr).

Record readerObserver := {
  readers : list Reader;
  scopes : gmap N entry;
  measures : gmap N readerMeasure;
  metrics : gmap N readerMetric }.

(** The observer, the objects its pointers point to, and the calls
    [reader.Read(read)] made so far (oldest first). *)
Record state := {
  ro : readerObserver;
  span_objs : list readerSpan;
  scope_objs : list readerScope;
  delivered : list (Reader * Event) }.

Definition NewReaderObserver (rs : list Reader) : state :=
  {| ro := {| readers := rs; scopes := ∅; measures := ∅; metrics := ∅ |};
     span_objs := []; scope_objs := []; delivered := [] |}.

Definition with_scopes (f : gmap N entry → gmap N entry) (st : state) : state :=
  {| ro := {| readers := readers (ro st); scopes := f (scopes (ro st));
              measures := measures (ro st); metrics := metrics (ro st) |};
     span_objs := span_objs st; scope_objs := scope_objs st;
     delivered := delivered st |}.
Definition with_measures (f : gmap N readerMeasure → gmap N readerMeasure)
    (st : state) : state :=
  {| ro := {| readers := readers (ro st); scopes := scopes (ro st);
              measures := f (measures (ro st)); metrics := metrics (ro st) |};
     span_objs := span_objs st; scope_objs := scope_objs st;
     delivered := delivered st |}.
Definition with_metrics (f : gmap N readerMetric → gmap N readerMetric)
    (st : state) : state :=
  {| ro := {| readers := readers (ro st); scopes := scopes (ro st);
              measures := measures (ro st); metrics := f (metrics (ro st)) |};
     span_objs := span_objs st; scope_objs := scope_objs st;
     delivered := delivered st |}.
Definition with_span_objs (f : list readerSpan → list readerSpan)
    (st : state) : state :=
  {| ro := ro st; span_objs := f (span_objs st); scope_objs := scope_objs st;
     delivered := delivered st |}.
Definition with_scope_objs (f : list readerScope → list readerScope)
    (st : state) : state :=
  {| ro := ro st; span_objs := span_objs st; scope_objs := f (scope_objs st);
     delivered := delivered st |}.
Definition with_delivered (f : list (Reader * Event) → list (Reader * Event))
    (st : state) : state :=
  {| ro := ro st; span_objs := span_objs st; scope_objs := scope_objs st;
     delivered := f (delivered st) |}.

(** *** Object stores *)

(** [&readerScope{...}] and [&readerSpan{...}]: a new object at the next
    free address. *)
Definition new_scope (sc : readerScope) : M state ptr := λ st,
  (with_scope_objs (λ h, h ++ [sc]) st, Done (length (scope_objs st))).
Definition new_span (sp : readerSpan) : M state ptr := λ st,
  (with_span_objs (λ h, h ++ [sp]) st, Done (length (span_objs st))).

(** Reading through a pointer. *)
Definition deref_scope (p : ptr) : M state readerScope := λ st,
  match scope_objs st !! p with
  | Some sc => (st, Done sc)
  | None => (st, Panic nil_dereference)
  end.
Definition deref_span (l : ptr) : M state readerSpan := λ st,
  match span_objs st !! l with
  | Some sp => (st, Done sp)
  | None => (st, Panic nil_dereference)
  end.

(** Writing a field through a pointer. *)
Definition write_scope (p : ptr) (f : readerScope → readerScope) : M state unit :=
  sc ← deref_scope p;
  modify (with_scope_objs (λ h, <[p := f sc]> h)).
Definition write_span (l : ptr) (f : readerSpan → readerSpan) : M state unit :=
  sp ← deref_span l;
  modify (with_span_objs (λ h, <[l := f sp]> h)).

Definition set_span (v : option ptr) (sc : readerScope) : readerScope :=
  {| span := v; parent := parent sc; attributes := attributes sc |}.
Definition set_attributes (v : Map) (sc : readerScope) : readerScope :=
  {| span := span sc; parent := parent sc; attributes := v |}.
Definition set_status (v : codes_Code) (sp : readerSpan) : readerSpan :=
  {| name := name sp; start := start sp; startTags := startTags sp;
     spanContext := spanContext sp; status := v; scope_ptr := scope_ptr sp |}.

(** [m.Apply(update)] on an interface value: a call through nil panics. *)
Definition Map_Apply (m : Map)
    (u : tag.MapUpdate core_KeyValue tag_Mutator) : M state Map :=
  match m with
  | Some t => mret (Some (tag_Apply t u))
  | None => panic nil_dereference
  end.

(** [tag.FromContext(ctx)] on an interface value that may be nil: the function
    has to call a method of [ctx], which panics on nil. *)
Definition FromContext (ctx : option Ctx) : M state Map :=
  match ctx with
  | Some c => mret (tag_FromContext c)
  | None => panic nil_dereference
  end.

(** *** The functions of reader.go *)

(** [ro.scopes.Load(id)] *)
Definition load_scope (id : observer.EventID) : M state (option entry) := λ st,
  (st, Done (scopes (ro st) !! id)).

(** [readScope]. The closing [return tag.NewEmptyMap(), nil] of the source is
    for a table value that is neither a scope nor a span pointer, which
    [entry] excludes. *)
Definition readScope (id : observer.ScopeID) : M state (Map * option ptr) :=
  if observer.EventID_ id =? 0 then mret (Some tag_NewEmptyMap, None)
  else
    ev ← load_scope (observer.EventID_ id);
    match ev with
    | None => panic "scope not found"
    | Some (IScope p) =>
        sp ← deref_scope p;
        mret (attributes sp, span sp)
    | Some (ISpan l) =>
        sp ← deref_span l;
        sc ← deref_scope (scope_ptr sp);
        mret (attributes sc, Some l)
    end.

(** [readMeasureScope]: a stub in the source, it returns two nils. *)
Definition readMeasureScope (m : option stats_Measure) : M state (Map * option ptr) :=
  mret (None, None).

(** [addMeasurement] appends to the [Stats] of the record being built. *)
Definition addMeasurement (e : Event) (m : stats.Measurement) : M state Event :=
  '(attrs, _) ← readMeasureScope (stats.Measure m);
  mret (set_Stats (Stats e ++ [ {| Measure := stats.Measure m;
                                   Value := stats.Value m;
                                   m_Tags := attrs |} ]) e).

(** [for _, es := range event.Stats { ro.addMeasurement(&read, es) }] *)
Fixpoint addMeasurements (e : Event) (ms : list stats.Measurement) : M state Event :=
  match ms with
  | [] => mret e
  | m :: ms' => e' ← addMeasurement e m; addMeasurements e' ms'
  end.

(** The loop of [cleanupSpan]; one unit of fuel per iteration. *)
Fixpoint cleanup_loop (fuel : nat) (id : observer.EventID) : M state unit :=
  if id =? 0 then mret tt
  else
    match fuel with
    | O => λ st, (st, OutOfFuel)
    | S fuel' =>
        ev ← load_scope id;
        match ev with
        | None => panic "scope not found"
        | Some e =>
            modify (with_scopes (delete id));;
            next ← match e with
                   | IScope p => sp ← deref_scope p; mret (parent sp)
                   | ISpan l =>
                       sp ← deref_span l;
                       sc ← deref_scope (scope_ptr sp);
                       mret (parent sc)
                   end;
            cleanup_loop fuel' next
        end
    end.

(** [cleanupSpan]: every iteration that does not panic removes a key of the
    table, so one more unit of fuel than the table has keys is enough. *)
Definition cleanupSpan (id : observer.EventID) : M state unit := λ st,
  cleanup_loop (S (size (scopes (ro st)))) id st.

(** [for _, reader := range ro.readers { reader.Read(read) }] *)
Definition deliver (read : Event) : M state unit := λ st,
  (with_delivered (λ d, d ++ map (λ r, (r, read)) (readers (ro st))) st, Done tt).

(** The parent part of the START_SPAN case: the [if]/[else] on
    [event.Parent], which fills [read.Parent] and [read.ParentAttributes]. *)
Definition start_span_parent (event : observer.Event Ctx) (read : Event)
    : M state Event :=
  if (observer.EventID_ (observer.Parent event) =? 0)
     && observer.HasTraceID (observer.Parent event)
  then mret (set_Parent (observer.SpanContext (observer.Parent event)) read)
  else
    '(pattrs, pspan) ← readScope (observer.Parent event);
    match pspan with
    | Some pl =>
        psp ← deref_span pl;
        mret (set_ParentAttributes pattrs (set_Parent (spanContext psp) read))
    | None => mret read
    end.

(** The look-up that opens the NEW_SCOPE / MODIFY_ATTR case: the snapshot
    [m] and the owning [span] of the scope that [sid] names. *)
Definition scope_parent (sid : observer.ScopeID) : M state (Map * option ptr) :=
  if observer.EventID_ sid =? 0 then mret (Some tag_NewEmptyMap, None)
  else
    parentI ← load_scope (observer.EventID_ sid);
    match parentI with
    | None => panic "parent scope not found"
    | Some (IScope p) =>
        parent ← deref_scope p;
        mret (attributes parent, span parent)
    | Some (ISpan l) =>
        parent ← deref_span l;
        sc ← deref_scope (scope_ptr parent);
        mret (attributes sc, Some l)
    end.

(** The [switch] of [orderedObserve]. The result is [None] where the source
    leaves the function by [return] inside the switch, and the record built
    by the case otherwise. *)
Definition dispatch (event : observer.Event Ctx) (read : Event)
    : M state (option Event) :=
  match observer.Type_ event with
  | observer.START_SPAN =>
      tags ← FromContext (observer.Context_ event);
      p ← new_scope readerScope_zero;
      span ← new_span {| name := observer.String_ event;
                         start := observer.Time event;
                         startTags := tags;
                         spanContext := observer.SpanContext (observer.Scope event);
                         status := codes_OK;
                         scope_ptr := p |};
      '(rattrs, _) ← readScope (observer.Scope event);
      sp ← deref_span span;
      write_scope (scope_ptr sp) (set_span (Some span));;
      write_scope (scope_ptr sp) (set_attributes rattrs);;
      let read := set_Name (name sp) read in
      let read := set_Type START_SPAN read in
      let read := set_SpanContext (spanContext sp) read in
      let read := set_Attributes rattrs read in
      read ← start_span_parent event read;
      modify (with_scopes (<[observer.Sequence event := ISpan span]>));;
      mret (Some read)
  | observer.FINISH_SPAN =>
      '(attrs, span) ← readScope (observer.Scope event);
      match span with
      | None => panic "span not found"
      | Some l =>
          sp ← deref_span l;
          let read := set_Name (name sp) read in
          let read := set_Type FINISH_SPAN read in
          let read := set_Attributes attrs read in
          let read := set_Duration (time_Sub (observer.Time event) (start sp)) read in
          let read := set_Tags (startTags sp) read in
          let read := set_SpanContext (spanContext sp) read in
          mret (Some read)
      end
  | observer.NEW_SCOPE | observer.MODIFY_ATTR =>
      let sid := observer.Scope event in
      '(m, span) ← scope_parent sid;
      attrs ← Map_Apply m {| tag.SingleKV := observer.Attribute event;
                             tag.MultiKV := observer.Attributes event;
                             tag.SingleMutator := observer.Mutator event;
                             tag.MultiMutator := observer.Mutators event |};
      sc ← new_scope {| span := span;
                        parent := observer.EventID_ sid;
                        attributes := attrs |};
      modify (with_scopes (<[observer.Sequence event := IScope sc]>));;
      if decide (observer.Type_ event = observer.NEW_SCOPE) then mret None
      else
        sco ← deref_scope sc;
        let read := set_Type MODIFY_ATTR read in
        let read := set_Attributes (attributes sco) read in
        match span with
        | Some l =>
            sp ← deref_span l;
            mret (Some (set_Tags (startTags sp) (set_SpanContext (spanContext sp) read)))
        | None => mret (Some read)
        end
  | observer.NEW_MEASURE =>
      modify (with_measures
                (<[observer.Sequence event :=
                     {| measure_name := observer.String_ event |}]>));;
      mret None
  | observer.NEW_METRIC =>
      λ st,
        match measures (ro st) !! observer.EventID_ (observer.Scope event) with
        | None => (st, Panic "metric measure not found")
        | Some measure =>
            (with_metrics (<[observer.Sequence event :=
                               {| metric_measure := measure |}]>) st,
             Done None)
        end
  | observer.ADD_EVENT =>
      let read := set_Type ADD_EVENT read in
      let read := set_Message (observer.String_ event) read in
      '(attrs, span) ← readScope (observer.Scope event);
      attrs' ← Map_Apply attrs {| tag.SingleKV := core_KeyValue_zero;
                                  tag.MultiKV := observer.Attributes event;
                                  tag.SingleMutator := tag_Mutator_zero;
                                  tag.MultiMutator := [] |};
      let read := set_Attributes attrs' read in
      match span with
      | Some l => sp ← deref_span l; mret (Some (set_SpanContext (spanContext sp) read))
      | None => mret (Some read)
      end
  | observer.RECORD_STATS =>
      let read := set_Type RECORD_STATS read in
      '(_, span) ← readScope (observer.Scope event);
      read ← match span with
             | Some l => sp ← deref_span l; mret (set_SpanContext (spanContext sp) read)
             | None => mret read
             end;
      read ← addMeasurements read (observer.Stats event);
      read ← match stats.Measure (observer.Stat event) with
             | Some _ => addMeasurement read (observer.Stat event)
             | None => mret read
             end;
      mret (Some read)
  | observer.SET_STATUS =>
      let read := set_Type SET_STATUS read in
      let read := set_Status (observer.Status event) read in
      '(_, span) ← readScope (observer.Scope event);
      match span with
      | Some l =>
          write_span l (set_status (observer.Status event));;
          sp ← deref_span l;
          mret (Some (set_SpanContext (spanContext sp) read))
      | None => mret (Some read)
      end
  | observer.INVALID | observer.ADD_EVENTF => panic "Unhandled case: "
  end.

(** The record [orderedObserve] starts from. *)
Definition initial_read (event : observer.Event Ctx) : Event :=
  let read := {| Type_ := INVALID; Time := observer.Time event;
                 Sequence := observer.Sequence event;
                 SpanContext := core.EmptySpanContext;
                 Tags := Some tag_NewEmptyMap;
                 Attributes := Some tag_NewEmptyMap;
                 Stats := [];
                 Parent := core.EmptySpanContext;
                 ParentAttributes := None;
                 Duration := time_Duration_zero;
                 Name := "";
                 Message := "";
                 Status := codes_OK |} in
  match observer.Context_ event with
  | Some c => set_Tags (tag_FromContext c) read
  | None => read
  end.

Definition orderedObserve (event : observer.Event Ctx) : M state unit :=
  r ← dispatch event (initial_read event);
  match r with
  | None => mret tt
  | Some read =>
      deliver read;;
      if decide (observer.Type_ event = observer.FINISH_SPAN)
      then cleanupSpan (observer.EventID_ (observer.Scope event))
      else mret tt
  end.

Definition Observe (event : observer.Event Ctx) : M state unit :=
  orderedObserve event.

(** Observing a stream of events in order, up to the first panic. *)
Fixpoint observe_all (events : list (observer.Event Ctx)) : M state unit :=
  match events with
  | [] => mret tt
  | e :: es => Observe e;; observe_all es
  end.

(** *** Vocabulary of the statements about the reader *)

(** The scope record behind a table value: the object itself for a scope
    pointer, the embedded scope record for a span pointer. *)
Definition node (st : state) (ent : entry) : option readerScope :=
  match ent with
  | IScope p => scope_objs st !! p
  | ISpan l => sp ← span_objs st !! l; scope_objs st !! scope_ptr sp
  end.

(** The snapshot and the owning span that a table value resolves to. *)
Definition resolve (st : state) (ent : entry) : option (Map * option ptr) :=
  match ent with
  | IScope p => sc ← scope_objs st !! p; Some (attributes sc, span sc)
  | ISpan l => sc ← node st (ISpan l); Some (attributes sc, Some l)
  end.

(** The parent pointer of a table value. *)
Definition parent_of (st : state) (ent : entry) : option observer.EventID :=
  parent <$> node st ent.

(** The delta that a NEW_SCOPE or MODIFY_ATTR event carries. *)
Definition update_of (event : observer.Event Ctx)
    : tag.MapUpdate core_KeyValue tag_Mutator :=
  {| tag.SingleKV := observer.Attribute event;
     tag.MultiKV := observer.Attributes event;
     tag.SingleMutator := observer.Mutator event;
     tag.MultiMutator := observer.Mutators event |}.

(** [walk st id ids]: following parent pointers in the table of [st] from
    [id] visits the identifiers [ids], in that order, and then reaches 0. *)
Inductive walk (st : state) : observer.EventID → list observer.EventID → Prop :=
  | walk_root : walk st 0 []
  | walk_step id ent next ids :
      id ≠ 0 →
      scopes (ro st) !! id = Some ent →
      parent_of st ent = Some next →
      walk st next ids →
      walk st id (id :: ids).

(** The table without the keys [ids], deleted one after the other. *)
Definition delete_keys (ids : list observer.EventID) (t : gmap N entry) : gmap N entry :=
  foldl (λ t k, delete k t) t ids.

(** A table value that is a scope node owned by the span at address [l]
    (a node made by a NEW_SCOPE or MODIFY_ATTR event whose chain of
    references leads to that span). *)
Definition owned_by (st : state) (l : ptr) (ent : entry) : bool :=
  match ent with
  | IScope p =>
      match scope_objs st !! p with
      | Some sc => bool_decide (span sc = Some l)
      | None => false
      end
  | ISpan _ => false
  end.

(** The number of such nodes in the table. *)
Definition owned_scopes (st : state) (l : ptr) : nat :=
  length (omap (λ kv : N * entry, if owned_by st l kv.2 then Some kv.1 else None)
               (map_to_list (scopes (ro st)))).

(** A span object whose embedded scope record is a root that points back to
    the span. *)
Definition root_span (st : state) (l : ptr) : Prop :=
  ∃ sp sc, span_objs st !! l = Some sp ∧
           scope_objs st !! scope_ptr sp = Some sc ∧
           parent sc = 0 ∧ span sc = Some l.

(** Two states of one span object that differ at most in [status]. *)
Definition same_span (a b : readerSpan) : Prop :=
  name a = name b ∧ start a = start b ∧ startTags a = startTags b ∧
  spanContext a = spanContext b ∧ scope_ptr a = scope_ptr b.

(** What processing events can change: objects are added, a span object
    changes at most its status, a scope object in use never changes, records
    are appended to the deliveries, the sinks stay registered, and a span
    pointer enters the table only for a new span whose scope is a root. *)
Record evolves (st st' : state) : Prop := {
  ev_readers : readers (ro st') = readers (ro st);
  ev_spans : ∀ l sp, span_objs st !! l = Some sp →
     ∃ sp', span_objs st' !! l = Some sp' ∧ same_span sp sp';
  ev_scopes : ∀ p sc, scope_objs st !! p = Some sc → scope_objs st' !! p = Some sc;
  ev_delivered : delivered st `prefix_of` delivered st';
  ev_table : ∀ id l, scopes (ro st') !! id = Some (ISpan l) →
     scopes (ro st) !! id = Some (ISpan l) ∨
     (span_objs st !! l = None ∧ root_span st' l) }.

(** Every value of the scope table resolves to a snapshot that is not nil and
    to an owner that is nil or a span object of the store: the pointers of
    the table are not dangling. It holds in every state that the observer
    reaches from its creation. *)
Definition well_formed (st : state) : Prop :=
  ∀ id ent, scopes (ro st) !! id = Some ent →
    ∃ m osp, resolve st ent = Some (Some m, osp) ∧
             ∀ l, osp = Some l → is_Some (span_objs st !! l).

(** The event types whose case of the switch looks its scope reference up,
    with the table it is looked up in: the scope table ([true]) or the
    measure table ([false]). NEW_MEASURE looks nothing up, and the two
    remaining types have no case. *)
Definition lookup_table (ty : observer.EventType) : option bool :=
  match ty with
  | observer.START_SPAN | observer.FINISH_SPAN | observer.NEW_SCOPE
  | observer.MODIFY_ATTR | observer.ADD_EVENT | observer.RECORD_STATS
  | observer.SET_STATUS => Some true
  | observer.NEW_METRIC => Some false
  | observer.NEW_MEASURE | observer.INVALID | observer.ADD_EVENTF => None
  end.

(** The message of the panic raised where an event's reference is looked up.
    In the START_SPAN case a nil context panics before the look-up. *)
Definition lookup_panic (event : observer.Event Ctx) : string :=
  match observer.Type_ event with
  | observer.NEW_SCOPE | observer.MODIFY_ATTR => "parent scope not found"
  | observer.NEW_METRIC => "metric measure not found"
  | observer.START_SPAN =>
      match observer.Context_ event with
      | Some _ => "scope not found"
      | None => nil_dereference
      end
  | _ => "scope not found"
  end.

(** The reference of an event names an identifier that its table lacks. *)
Definition absent_reference (st : state) (event : observer.Event Ctx) : Prop :=
  let id := observer.EventID_ (observer.Scope event) in
  match lookup_table (observer.Type_ event) with
  | Some true => id ≠ 0 ∧ scopes (ro st) !! id = None
  | Some false => measures (ro st) !! id = None
  | None => False
  end.

(** The event types that have a case in the switch. *)
Definition handled (ty : observer.EventType) : bool :=
  match ty with
  | observer.INVALID | observer.ADD_EVENTF => false
  | _ => true
  end.

(** The registration events, whose case leaves by [return]. *)
Definition silent (ty : observer.EventType) : bool :=
  match ty with
  | observer.NEW_SCOPE | observer.NEW_MEASURE | observer.NEW_METRIC => true
  | _ => false
  end.

(** *** Vocabulary of the proofs *)

(** The span object that the START_SPAN case allocates. *)
Definition started_span (e : observer.Event Ctx) (tags : Map) (p : ptr)
    : readerSpan :=
  {| name := observer.String_ e; start := observer.Time e; startTags := tags;
     spanContext := observer.SpanContext (observer.Scope e);
     status := codes_OK; scope_ptr := p |}.

(** The state once the START_SPAN case has allocated the span and its scope
    record, the latter holding [sc]. *)
Definition started (e : observer.Event Ctx) (tags : Map) (sc : readerScope)
    (st : state) : state :=
  with_span_objs (λ h, h ++ [started_span e tags (length (scope_objs st))])
    (with_scope_objs (λ h, h ++ [sc]) st).

(** The record of the START_SPAN case before its parent part. *)
Definition start_read (e : observer.Event Ctx) (tags rattrs : Map)
    (read : Event) : Event :=
  set_Attributes rattrs
    (set_SpanContext (observer.SpanContext (observer.Scope e))
       (set_Type START_SPAN (set_Name (observer.String_ e) read))).

(** The state once the NEW_SCOPE / MODIFY_ATTR case has stored the node
    [sc]. *)
Definition scoped (e : observer.Event Ctx) (sc : readerScope) (st : state)
    : state :=
  with_scopes (<[observer.Sequence e := IScope (length (scope_objs st))]>)
    (with_scope_objs (λ h, h ++ [sc]) st).

(** The record of the MODIFY_ATTR case before the span's fields. *)
Definition scope_read (attrs : Map) (read : Event) : Event :=
  set_Attributes attrs (set_Type MODIFY_ATTR read).

(** The record of the FINISH_SPAN case. *)
Definition finish_read (e : observer.Event Ctx) (attrs : Map) (sp : readerSpan)
    (read : Event) : Event :=
  set_SpanContext (spanContext sp)
    (set_Tags (startTags sp)
       (set_Duration (time_Sub (observer.Time e) (start sp))
          (set_Attributes attrs (set_Type FINISH_SPAN (set_Name (name sp) read))))).

(** A computation that leaves the state as it is. *)
Definition readonly {A} (m : M state A) : Prop := ∀ st, (m st).1 = st.

(** A computation that never returns without a record. *)
Definition never_none {A} (m : M state (option A)) : Prop :=
  ∀ st, (m st).2 ≠ Done None.

(** A computation that never runs out of fuel. *)
Definition fuelled {A} (m : M state A) : Prop := ∀ st, (m st).2 ≠ OutOfFuel.

(** A computation whose result, when it returns, satisfies [P]. *)
Definition post {A} (m : M state A) (P : A → Prop) : Prop :=
  ∀ st, match (m st).2 with Done a => P a | _ => True end.

(** The record [r], if any, has the sequence number of [read]. *)
Definition same_seq (read : Event) (r : option Event) : Prop :=
  ∀ read', r = Some read' → Sequence read' = Sequence read.

End reader.
End reader.

(** ** Further vocabulary of the statements about the reader *)
Module reader_terms.
Import reader.
Section reader_terms.
Context `{Api} {Ctx : Type}.

(** The calls [reader.Read(read)] of one delivery: one per registered sink,
    in registration order. *)
Definition to_readers (st : state) (read : Event) : list (Reader * Event) :=
  map (λ r, (r, read)) (readers (ro st)).

(** The measurement that [addMeasurement] appends for a stat: its tags are
    the nil map that [readMeasureScope] returns. *)
Definition measurement_of (m : stats.Measurement) : Measurement :=
  {| Measure := stats.Measure m; Value := stats.Value m; m_Tags := None |}.

(** The stats of a RECORD_STATS event in the order the case reads them: the
    list, then the single stat when its measure is set. *)
Definition event_stats (e : observer.Event Ctx) : list stats.Measurement :=
  observer.Stats e ++
  match stats.Measure (observer.Stat e) with
  | Some _ => [observer.Stat e]
  | None => []
  end.

(** The delta of an ADD_EVENT event: its list of key-values only. *)
Definition event_update (e : observer.Event Ctx)
    : tag.MapUpdate core_KeyValue tag_Mutator :=
  {| tag.SingleKV := core_KeyValue_zero;
     tag.MultiKV := observer.Attributes e;
     tag.SingleMutator := tag_Mutator_zero;
     tag.MultiMutator := [] |}.

(** The span context that a record takes from the owner of a scope. *)
Definition owner_context (st : state) (osp : option nat) : core.SpanContext :=
  match osp with
  | Some l => default core.EmptySpanContext (spanContext <$> span_objs st !! l)
  | None => core.EmptySpanContext
  end.

(** The messages of the panics that reader.go raises itself. *)
Definition explicit_panics : list string :=
  ["scope not found"; "parent scope not found"; "span not found";
   "metric measure not found"; "Unhandled case: "].

(** A span registered with the observer under [id]: [id] is not 0 and names
    a span node whose scope record is a root with a snapshot that is not
    nil. This is what [Start] leaves for the span it makes. *)
Definition registered (st : state) (id : observer.EventID) : Prop :=
  id ≠ 0 ∧
  ∃ l spn sc m,
    scopes (ro st) !! id = Some (ISpan l) ∧
    span_objs st !! l = Some spn ∧
    scope_objs st !! scope_ptr spn = Some sc ∧
    parent sc = 0 ∧ attributes sc = Some m.

(** The records that sink [r] was handed in the calls [calls], in order. *)
Definition received (r : Reader) (calls : list (Reader * Event)) : list Event :=
  (filter (λ c, c.1 = r) calls).*2.

End reader_terms.
End reader_terms.

(** ** exporter/stdout: the exporter that prints every record *)
Module stdout.
Section stdout.
Context `{Api}.

(** [format.EventToString], of a package that is not part of the sources. *)
Variable format_EventToString : reader.Event → string.

(** The exporter's one sink, [&stdoutLog{}]. *)
Definition stdoutLog : reader.Reader := 0%nat.

(** [New] *)
Definition New : reader.state := reader.NewReaderObserver [stdoutLog].

(** [stdoutLog.Read]: [os.Stdout.WriteString] of the formatted record, on the
    strings written so far; the result of the write is dropped. *)
Definition Read (data : reader.Event) (out : list string) : list string :=
  out ++ [format_EventToString data].

(** Standard output once the calls of [Read] that the observer made have
    run, in the order they were made. *)
Definition written (st : reader.state) : list string :=
  foldl (λ out call, Read call.2 out) [] (reader.delivered st).

End stdout.
End stdout.

(** ** experimental/streaming/sdk: the tracer (trace.go) *)
Module sdk.

(** [tracer]: the event identifier of its current resource scope. *)
Record tracer := { resources : observer.EventID }.

(** Modelled from the spec: [span], whose declaration is not part of the
    sources, with the two fields that [Start] fills. In the source [tracer_]
    is a pointer to the tracer that started the span; tracers are never
    written after their creation. *)
Record span := { tracer_ : tracer; initial : observer.ScopeID }.

(** [New] *)
Definition New : tracer := {| resources := 0 |}.

Section sdk.
Context `{Api}.

(** Modelled from the spec: the ambient execution context ([context.Context]
    with the values api/trace and api/tag keep in it), which is not part of
    the sources: it carries the active span, if any, and a tag set. *)
Record Context := { ctx_span : option span; ctx_tags : Map }.

(** Modelled from the spec: [tag.FromContext], the tag set of a context. *)
Definition tag_FromContext (ctx : Context) : Map := ctx_tags ctx.

(** Modelled from the spec: [apitrace.CurrentSpan(ctx).SpanContext()], the
    span context of the active span; without an active span the context
    carries no trace id. *)
Definition CurrentSpanContext (ctx : Context) : core.SpanContext :=
  match ctx_span ctx with
  | Some s => observer.SpanContext (initial s)
  | None => core.EmptySpanContext
  end.

(** Modelled from the spec: [trace.SetCurrentSpan], which makes a span the
    active span of the returned context. *)
Definition SetCurrentSpan (ctx : Context) (s : span) : Context :=
  {| ctx_span := Some s; ctx_tags := ctx_tags ctx |}.

(** Modelled from the spec: [apitrace.Reference], whose declaration is not
    part of the sources: a span context with a relationship type. *)
Record Reference := {
  ref_SpanContext : core.SpanContext;
  RelationshipType : N }.

(** Modelled from the spec: [apitrace.SpanOptions], whose declaration is not
    part of the sources, with the fields that [Start] reads. *)
Record SpanOptions := {
  StartTime : time_Time;
  opt_Attributes : list core_KeyValue;
  opt_Reference : Reference }.

(** The zero value [&apitrace.SpanOptions{}]. *)
Definition SpanOptions_zero : SpanOptions :=
  {| StartTime := time_Time_zero; opt_Attributes := [];
     opt_Reference := {| ref_SpanContext := core.EmptySpanContext;
                         RelationshipType := 0 |} |}.

(** [apitrace.SpanOption]: a function that edits the options in place. *)
Definition SpanOption := SpanOptions → SpanOptions.

(** The process: the event sequencer's counter, the stream of events emitted
    so far (oldest first), the pseudo-random source of [math/rand] as the
    sequence of its future results with a cursor, the clock, and the reader
    observer registered with the observer package. *)
Record world := {
  sequenceNum : uint64;
  emitted : list (observer.Event Context);
  rand_src : nat → N;
  rand_pos : nat;
  now : time_Time;
  obs : reader.state }.

Definition with_obs (f : reader.state → reader.state) (w : world) : world :=
  {| sequenceNum := sequenceNum w; emitted := emitted w;
     rand_src := rand_src w; rand_pos := rand_pos w; now := now w;
     obs := f (obs w) |}.

(** Running the observer's code inside the process. *)
Definition lift {A} (m : M reader.state A) : M world A := λ w,
  let '(s, o) := m (obs w) in (with_obs (λ _, s) w, o).

(** [rand.Uint64()] *)
Definition rand_Uint64 : M world uint64 := λ w,
  ({| sequenceNum := sequenceNum w; emitted := emitted w;
      rand_src := rand_src w; rand_pos := S (rand_pos w); now := now w;
      obs := obs w |},
   Done (wrap64 (rand_src w (rand_pos w)))).

Definition set_Sequence (v : observer.EventID) (e : observer.Event Context)
    : observer.Event Context :=
  {| observer.Type_ := observer.Type_ e; observer.Time := observer.Time e;
     observer.Sequence := v; observer.Scope := observer.Scope e;
     observer.Parent := observer.Parent e;
     observer.Context_ := observer.Context_ e;
     observer.String_ := observer.String_ e;
     observer.Attribute := observer.Attribute e;
     observer.Attributes := observer.Attributes e;
     observer.Mutator := observer.Mutator e;
     observer.Mutators := observer.Mutators e;
     observer.Stat := observer.Stat e; observer.Stats := observer.Stats e;
     observer.Status := observer.Status e |}.
Definition set_Time (v : time_Time) (e : observer.Event Context)
    : observer.Event Context :=
  {| observer.Type_ := observer.Type_ e; observer.Time := v;
     observer.Sequence := observer.Sequence e; observer.Scope := observer.Scope e;
     observer.Parent := observer.Parent e;
     observer.Context_ := observer.Context_ e;
     observer.String_ := observer.String_ e;
     observer.Attribute := observer.Attribute e;
     observer.Attributes := observer.Attributes e;
     observer.Mutator := observer.Mutator e;
     observer.Mutators := observer.Mutators e;
     observer.Stat := observer.Stat e; observer.Stats := observer.Stats e;
     observer.Status := observer.Status e |}.

(** Modelled from the spec: the sequence number that the event sequencer
    gives the next recorded event, an increment of its 64-bit counter. *)
Definition next_seq (w : world) : observer.EventID := wrap64 (sequenceNum w + 1).

(** Modelled from the spec: an event as the sequencer puts it on the stream,
    with its sequence number, and with the current time when it has none. *)
Definition stamp (w : world) (event : observer.Event Context)
    : observer.Event Context :=
  let event := set_Sequence (next_seq w) event in
  if time_IsZero (observer.Time event) then set_Time (now w) event else event.

(** The process once an event has entered the stream, before the observer
    sees it. *)
Definition recorded (w : world) (event : observer.Event Context) : world :=
  {| sequenceNum := next_seq w; emitted := emitted w ++ [stamp w event];
     rand_src := rand_src w; rand_pos := rand_pos w; now := now w;
     obs := obs w |}.

(** Modelled from the spec: [observer.Record] of the event sequencer, which
    is not part of the sources. It gives the event the next sequence number
    (an increment of a 64-bit counter) and the current time when the event
    has none, appends it to the stream, hands it to the registered observer,
    and returns the sequence number. *)
Definition Record_ (event : observer.Event Context) : M world observer.EventID :=
  λ w,
    let seq := next_seq w in
    let w1 := recorded w event in
    (lift (reader.Observe tag_FromContext (stamp w event));; mret seq) w1.

(** Modelled from the spec: the NEW_SCOPE event of [observer.NewScope],
    chained off [parent] and carrying the attributes. *)
Definition NewScope_event (parent : observer.ScopeID)
    (attributes : list core_KeyValue) : observer.Event Context :=
  {| observer.Type_ := observer.NEW_SCOPE;
     observer.Time := time_Time_zero;
     observer.Sequence := 0;
     observer.Scope := parent;
     observer.Parent := observer.ScopeID_zero;
     observer.Context_ := None;
     observer.String_ := "";
     observer.Attribute := core_KeyValue_zero;
     observer.Attributes := attributes;
     observer.Mutator := tag_Mutator_zero;
     observer.Mutators := [];
     observer.Stat := stats.Measurement_zero;
     observer.Stats := [];
     observer.Status := codes_OK |}.

(** Modelled from the spec: [observer.NewScope], which is not part of the
    sources. It emits a NEW_SCOPE event chained off [parent] that carries the
    attributes, and returns the new scope's event identifier together with
    the span context of [parent]. *)
Definition NewScope (parent : observer.ScopeID) (attributes : list core_KeyValue)
    : M world observer.ScopeID :=
  eventID ← Record_ (NewScope_event parent attributes);
  mret {| observer.EventID_ := eventID;
          observer.SpanContext := observer.SpanContext parent |}.

(** The keys of trace.go. *)
Definition ServiceKey : core_Key := key_New "service".
Definition ComponentKey : core_Key := key_New "component".
Definition ErrorKey : core_Key := key_New "error".
Definition SpanIDKey : core_Key := key_New "span_id".
Definition TraceIDKey : core_Key := key_New "trace_id".
Definition MessageKey : core_Key :=
  key_New_WithDescription "message" "message text: info, error, etc".

(** [WithResources] *)
Definition WithResources (t : tracer) (attributes : list core_KeyValue)
    : M world tracer :=
  s ← NewScope {| observer.EventID_ := resources t;
                  observer.SpanContext := core.EmptySpanContext |} attributes;
  mret {| resources := observer.EventID_ s |}.

(** [WithComponent] and [WithService] *)
Definition WithComponent (t : tracer) (name : string) : M world tracer :=
  WithResources t [Key_String ComponentKey name].
Definition WithService (t : tracer) (name : string) : M world tracer :=
  WithResources t [Key_String ServiceKey name].

(** The START_SPAN event that [Start] records. *)
Definition Start_event (o : SpanOptions) (scope : observer.ScopeID)
    (ctx : Context) (parentScope : observer.ScopeID) (name : string)
    : observer.Event Context :=
  {| observer.Type_ := observer.START_SPAN;
     observer.Time := StartTime o;
     observer.Sequence := 0;
     observer.Scope := scope;
     observer.Parent := parentScope;
     observer.Context_ := Some ctx;
     observer.String_ := name;
     observer.Attribute := core_KeyValue_zero;
     observer.Attributes := [];
     observer.Mutator := tag_Mutator_zero;
     observer.Mutators := [];
     observer.Stat := stats.Measurement_zero;
     observer.Stats := [];
     observer.Status := codes_OK |}.

(** The span context that [Start] takes for the parent: the explicit
    reference when it carries a trace id, the active span's otherwise. *)
Definition resolved_parent (o : SpanOptions) (ctx : Context) : core.SpanContext :=
  if core.HasTraceID (ref_SpanContext (opt_Reference o))
  then ref_SpanContext (opt_Reference o)
  else CurrentSpanContext ctx.

(** [Start] *)
Definition Start (t : tracer) (ctx : Context) (name : string)
    (opts : list SpanOption) : M world (Context * span) :=
  spanID ← rand_Uint64;
  let o := fold_left (λ o opt, opt o) opts SpanOptions_zero in
  let parentScope :=
    if core.HasTraceID (ref_SpanContext (opt_Reference o))
    then {| observer.EventID_ := 0;
            observer.SpanContext := ref_SpanContext (opt_Reference o) |}
    else {| observer.EventID_ := 0;
            observer.SpanContext := CurrentSpanContext ctx |} in
  traceID ←
    (if observer.HasTraceID parentScope
     then
       let parent := observer.SpanContext parentScope in
       mret {| core.High := core.High (core.TraceID_ parent);
               core.Low := core.Low (core.TraceID_ parent) |}
     else
       high ← rand_Uint64;
       low ← rand_Uint64;
       mret {| core.High := high; core.Low := low |});
  let child := {| core.TraceID_ := traceID; core.SpanID := spanID |} in
  let childScope := {| observer.EventID_ := resources t;
                       observer.SpanContext := child |} in
  scope ← NewScope childScope (opt_Attributes o);
  eventID ← Record_ (Start_event o scope ctx parentScope name);
  let span := {| tracer_ := t;
                 initial := {| observer.EventID_ := eventID;
                               observer.SpanContext := child |} |} in
  mret (SetCurrentSpan ctx span, span).

(** Modelled from the spec: the event of an operation of a started span. The
    operations of a span are not part of the sources; each emits one event
    of its type that carries the span's own scope reference. *)
Definition span_event (ty : observer.EventType) (sp : span)
    : observer.Event Context :=
  {| observer.Type_ := ty;
     observer.Time := time_Time_zero;
     observer.Sequence := 0;
     observer.Scope := initial sp;
     observer.Parent := observer.ScopeID_zero;
     observer.Context_ := None;
     observer.String_ := "";
     observer.Attribute := core_KeyValue_zero;
     observer.Attributes := [];
     observer.Mutator := tag_Mutator_zero;
     observer.Mutators := [];
     observer.Stat := stats.Measurement_zero;
     observer.Stats := [];
     observer.Status := codes_OK |}.

(** Modelled from the spec: the MODIFY_ATTR event of [span.SetAttribute],
    which carries the attribute as its single key-value. *)
Definition SetAttribute_event (sp : span) (attr : core_KeyValue)
    : observer.Event Context :=
  let e := span_event observer.MODIFY_ATTR sp in
  {| observer.Type_ := observer.Type_ e; observer.Time := observer.Time e;
     observer.Sequence := observer.Sequence e; observer.Scope := observer.Scope e;
     observer.Parent := observer.Parent e;
     observer.Context_ := observer.Context_ e;
     observer.String_ := observer.String_ e;
     observer.Attribute := attr;
     observer.Attributes := observer.Attributes e;
     observer.Mutator := observer.Mutator e;
     observer.Mutators := observer.Mutators e;
     observer.Stat := observer.Stat e; observer.Stats := observer.Stats e;
     observer.Status := observer.Status e |}.

(** Modelled from the spec: the ADD_EVENT event of [span.Event], which
    carries the message, its attributes and the context. *)
Definition Event_event (sp : span) (ctx : Context) (msg : string)
    (attrs : list core_KeyValue) : observer.Event Context :=
  let e := span_event observer.ADD_EVENT sp in
  {| observer.Type_ := observer.Type_ e; observer.Time := observer.Time e;
     observer.Sequence := observer.Sequence e; observer.Scope := observer.Scope e;
     observer.Parent := observer.Parent e;
     observer.Context_ := Some ctx;
     observer.String_ := msg;
     observer.Attribute := observer.Attribute e;
     observer.Attributes := attrs;
     observer.Mutator := observer.Mutator e;
     observer.Mutators := observer.Mutators e;
     observer.Stat := observer.Stat e; observer.Stats := observer.Stats e;
     observer.Status := observer.Status e |}.

(** Recording an event without using its identifier. *)
Definition emit (event : observer.Event Context) : M world unit :=
  Record_ event;; mret tt.

(** Modelled from the spec: [span.SetAttribute], which is not part of the
    sources. *)
Definition SetAttribute (sp : span) (attr : core_KeyValue) : M world unit :=
  emit (SetAttribute_event sp attr).

(** Modelled from the spec: [span.Event], which is not part of the sources. *)
Definition Event_ (sp : span) (ctx : Context) (msg : string)
    (attrs : list core_KeyValue) : M world unit :=
  emit (Event_event sp ctx msg attrs).

(** Modelled from the spec: [span.Finish], which is not part of the sources:
    it emits FINISH_SPAN referencing the span's own scope. *)
Definition Finish (sp : span) : M world unit :=
  emit (span_event observer.FINISH_SPAN sp).

(** [defer d] around a function body: [d] runs when the body returns and
    when it panics; the body's result stands unless [d] itself panics. *)
Definition defer {A} (d : M world unit) (body : M world A) : M world A := λ w,
  let '(w1, r) := body w in
  let '(w2, rd) := d w1 in
  (w2, match rd with
       | Done _ => r
       | Panic msg => Panic msg
       | OutOfFuel => OutOfFuel
       end).

(** [WithSpan]; the body may return an error (nil: [None]). *)
Definition WithSpan (t : tracer) (ctx : Context) (name : string)
    (body : Context → M world (option error)) : M world (option error) :=
  '(ctx, span) ← Start t ctx name [];
  defer (Finish span)
    (err ← body ctx;
     match err with
     | Some err =>
         SetAttribute span (Key_Bool ErrorKey true);;
         Event_ span ctx "span error" [Key_String MessageKey (error_Error err)];;
         mret (Some err)
     | None => mret None
     end).

End sdk.
End sdk.

(** ** sdk/trace: the global configuration (config.go) *)
Module trace.
Section config.
(** The interfaces [Sampler] and [internal.IDGenerator]. *)
Variables (Sampler IDGenerator : Type).

(** [Config]; the two interface fields are nil when unset, the caps are Go
    [int]s. *)
Record Config := {
  DefaultSampler : option Sampler;
  IDGenerator_ : option IDGenerator;
  MaxEventsPerSpan : Z;
  MaxAttributesPerSpan : Z;
  MaxLinksPerSpan : Z }.

Definition DefaultMaxEventsPerSpan : Z := 128.
Definition DefaultMaxAttributesPerSpan : Z := 32.
Definition DefaultMaxLinksPerSpan : Z := 32.

(** The package variable [config], an [atomic.Value]: the values stored so
    far, newest first. [Load] gives the newest, nil before the first
    [Store]. *)
Definition atomic_Value := list Config.
Definition Load (v : atomic_Value) : option Config := head v.
Definition Store (c : Config) (v : atomic_Value) : atomic_Value := c :: v.

Definition set_DefaultSampler (x : option Sampler) (c : Config) : Config :=
  {| DefaultSampler := x; IDGenerator_ := IDGenerator_ c;
     MaxEventsPerSpan := MaxEventsPerSpan c;
     MaxAttributesPerSpan := MaxAttributesPerSpan c;
     MaxLinksPerSpan := MaxLinksPerSpan c |}.
Definition set_IDGenerator (x : option IDGenerator) (c : Config) : Config :=
  {| DefaultSampler := DefaultSampler c; IDGenerator_ := x;
     MaxEventsPerSpan := MaxEventsPerSpan c;
     MaxAttributesPerSpan := MaxAttributesPerSpan c;
     MaxLinksPerSpan := MaxLinksPerSpan c |}.
Definition set_MaxEventsPerSpan (x : Z) (c : Config) : Config :=
  {| DefaultSampler := DefaultSampler c; IDGenerator_ := IDGenerator_ c;
     MaxEventsPerSpan := x;
     MaxAttributesPerSpan := MaxAttributesPerSpan c;
     MaxLinksPerSpan := MaxLinksPerSpan c |}.
Definition set_MaxAttributesPerSpan (x : Z) (c : Config) : Config :=
  {| DefaultSampler := DefaultSampler c; IDGenerator_ := IDGenerator_ c;
     MaxEventsPerSpan := MaxEventsPerSpan c;
     MaxAttributesPerSpan := x;
     MaxLinksPerSpan := MaxLinksPerSpan c |}.
Definition set_MaxLinksPerSpan (x : Z) (c : Config) : Config :=
  {| DefaultSampler := DefaultSampler c; IDGenerator_ := IDGenerator_ c;
     MaxEventsPerSpan := MaxEventsPerSpan c;
     MaxAttributesPerSpan := MaxAttributesPerSpan c;
     MaxLinksPerSpan := x |}.

(** [ApplyConfig]. The mutex serialises writers and has no effect on one
    call; the type assertion on a nil [Load] panics. *)
Definition ApplyConfig (cfg : Config) : M atomic_Value unit := λ config,
  match Load config with
  | None => (config, Panic "interface conversion: interface is nil")
  | Some c =>
      let c := match DefaultSampler cfg with
               | Some _ => set_DefaultSampler (DefaultSampler cfg) c
               | None => c
               end in
      let c := match IDGenerator_ cfg with
               | Some _ => set_IDGenerator (IDGenerator_ cfg) c
               | None => c
               end in
      let c := if (MaxEventsPerSpan cfg >? 0)%Z
               then set_MaxEventsPerSpan (MaxEventsPerSpan cfg) c else c in
      let c := if (MaxAttributesPerSpan cfg >? 0)%Z
               then set_MaxAttributesPerSpan (MaxAttributesPerSpan cfg) c else c in
      let c := if (MaxLinksPerSpan cfg >? 0)%Z
               then set_MaxLinksPerSpan (MaxLinksPerSpan cfg) c else c in
      (Store c config, Done tt)
  end.

End config.
End trace.

(** ** Vocabulary of the statements about the configuration *)
Module trace_terms.
Section trace_terms.
Context {Sampler IDGenerator : Type}.

(** A configuration with a sampler, an id generator and three positive
    caps. *)
Definition usable (c : trace.Config Sampler IDGenerator) : Prop :=
  is_Some (trace.DefaultSampler _ _ c) ∧ is_Some (trace.IDGenerator_ _ _ c) ∧
  (0 < trace.MaxEventsPerSpan _ _ c)%Z ∧
  (0 < trace.MaxAttributesPerSpan _ _ c)%Z ∧
  (0 < trace.MaxLinksPerSpan _ _ c)%Z.

(** [a] with the fields that [b] provides: a sampler or generator that is
    not nil, a cap that is positive. *)
Definition overlay (a b : trace.Config Sampler IDGenerator)
    : trace.Config Sampler IDGenerator :=
  {| trace.DefaultSampler :=
       match trace.DefaultSampler _ _ b with
       | Some s => Some s
       | None => trace.DefaultSampler _ _ a
       end;
     trace.IDGenerator_ :=
       match trace.IDGenerator_ _ _ b with
       | Some g => Some g
       | None => trace.IDGenerator_ _ _ a
       end;
     trace.MaxEventsPerSpan :=
       if (trace.MaxEventsPerSpan _ _ b >? 0)%Z
       then trace.MaxEventsPerSpan _ _ b else trace.MaxEventsPerSpan _ _ a;
     trace.MaxAttributesPerSpan :=
       if (trace.MaxAttributesPerSpan _ _ b >? 0)%Z
       then trace.MaxAttributesPerSpan _ _ b else trace.MaxAttributesPerSpan _ _ a;
     trace.MaxLinksPerSpan :=
       if (trace.MaxLinksPerSpan _ _ b >? 0)%Z
       then trace.MaxLinksPerSpan _ _ b else trace.MaxLinksPerSpan _ _ a |}.

(** Calls of [ApplyConfig] one after the other, up to the first panic. *)
Fixpoint ApplyConfigs (cfgs : list (trace.Config Sampler IDGenerator))
    : M (trace.atomic_Value Sampler IDGenerator) unit :=
  match cfgs with
  | [] => mret tt
  | cfg :: cfgs => trace.ApplyConfig _ _ cfg;; ApplyConfigs cfgs
  end.

End trace_terms.
End trace_terms.

(** ** A concrete scenario

    An instance of the imported packages and a few concrete event streams,
    on which the model is run. *)
Module scenario.

(** Modelled from the spec: an attribute map (api/tag is not part of the
    sources) in which a key-value of a delta adds or replaces the value of
    its key, an undefined (empty) key is skipped, and a mutator removes a
    key. Key-values are applied before mutators, each list left to right. *)
Fixpoint upsert (k v : string) (m : list (string * string)) : list (string * string) :=
  match m with
  | [] => [(k, v)]
  | (k', v') :: m' =>
      if decide (k = k') then (k, v) :: m' else (k', v') :: upsert k v m'
  end.

Definition put (m : list (string * string)) (kv : string * string) :=
  if decide (kv.1 = "") then m else upsert kv.1 kv.2 m.

Definition drop (m : list (string * string)) (k : string) :=
  filter (λ kv, kv.1 ≠ k) m.

Definition apply (m : list (string * string))
    (u : tag.MapUpdate (string * string) string) : list (string * string) :=
  foldl drop
    (drop (foldl put (put m (tag.SingleKV u)) (tag.MultiKV u)) (tag.SingleMutator u))
    (tag.MultiMutator u).

#[export] Instance api : Api := {|
  core_Key := string;
  core_KeyValue := string * string;
  core_KeyValue_zero := ("", "");
  key_New := λ s, s;
  key_New_WithDescription := λ s _, s;
  Key_Bool := λ k b, (k, if b then "true" else "false");
  Key_String := λ k s, (k, s);
  tag_Mutator := string;
  tag_Mutator_zero := "";
  tag_map := list (string * string);
  tag_NewEmptyMap := [];
  tag_Apply := apply;
  time_Time := N;
  time_Time_zero := 0;
  time_IsZero := λ t, t =? 0;
  time_Duration := Z;
  time_Duration_zero := 0%Z;
  time_Sub := λ a b, (Z.of_N a - Z.of_N b)%Z;
  codes_Code := N;
  codes_OK := 0;
  stats_Measure := string;
  float64 := Z;
  float64_zero := 0%Z;
  error := string;
  error_Error := λ e, e |}.

(** The ambient context of the scenario: no active span, one tag. *)
Definition ctx0 : sdk.Context :=
  {| sdk.ctx_span := None; sdk.ctx_tags := Some [("t", "1")] |}.

(** An event of the stream with the fields the scenario varies. *)
Definition event (ty : observer.EventType) (seq time scope : N)
    (ctx : option sdk.Context) (name : string) (attr : string * string)
    : observer.Event sdk.Context :=
  {| observer.Type_ := ty; observer.Time := time; observer.Sequence := seq;
     observer.Scope := {| observer.EventID_ := scope;
                          observer.SpanContext :=
                            {| core.TraceID_ := {| core.High := 7; core.Low := 8 |};
                               core.SpanID := 9 |} |};
     observer.Parent := observer.ScopeID_zero;
     observer.Context_ := ctx; observer.String_ := name;
     observer.Attribute := attr; observer.Attributes := [];
     observer.Mutator := ""; observer.Mutators := [];
     observer.Stat := stats.Measurement_zero; observer.Stats := [];
     observer.Status := 0 |}.

Definition e_start := event observer.START_SPAN 1 10 0 (Some ctx0) "op" ("", "").
Definition e_modify := event observer.MODIFY_ATTR 2 11 1 None "" ("y", "2").
Definition e_finish := event observer.FINISH_SPAN 3 15 1 None "" ("", "").
Definition e_measure := event observer.NEW_MEASURE 4 16 9 None "latency" ("", "").

(** The observer with two sinks, before and after the first two events. *)
Definition st0 : reader.state := reader.NewReaderObserver [0%nat; 1%nat].
Definition st1 : reader.state := (reader.orderedObserve sdk.tag_FromContext e_start st0).1.
Definition st2 : reader.state := (reader.orderedObserve sdk.tag_FromContext e_modify st1).1.

(** The process at start-up. *)
Definition w0 : sdk.world :=
  {| sdk.sequenceNum := 0; sdk.emitted := [];
     sdk.rand_src := λ n, N.of_nat n + 100; sdk.rand_pos := 0; sdk.now := 5;
     sdk.obs := st0 |}.

(** A placeholder span. *)
Definition no_span : sdk.span :=
  {| sdk.tracer_ := sdk.New; sdk.initial := observer.ScopeID_zero |}.

(** A tracer with a service resource starts span B with an attribute; span
    C is then started while B is the active span. *)
Definition with_service := sdk.WithService sdk.New "svc" w0.
Definition t1 : sdk.tracer := returned sdk.New with_service.2.
Definition with_a : sdk.SpanOption := λ o,
  {| sdk.StartTime := sdk.StartTime o; sdk.opt_Attributes := [("a", "1")];
     sdk.opt_Reference := sdk.opt_Reference o |}.
Definition start_B := sdk.Start t1 ctx0 "B" [with_a] with_service.1.
Definition ctx_B : sdk.Context := (returned (ctx0, no_span) start_B.2).1.
Definition span_B : sdk.span := (returned (ctx0, no_span) start_B.2).2.
Definition start_C := sdk.Start t1 ctx_B "C" [] start_B.1.
Definition ctx_C : sdk.Context := (returned (ctx0, no_span) start_C.2).1.
Definition span_C : sdk.span := (returned (ctx0, no_span) start_C.2).2.

(** A body that fails. *)
Definition failing_body (ctx : sdk.Context) : M sdk.world (option string) :=
  mret (Some "boom").

(** The span that [WithSpan] starts for the operation "op" of the tracer. *)
Definition start_op := sdk.Start t1 ctx0 "op" [] with_service.1.
Definition ctx_op : sdk.Context := (returned (ctx0, no_span) start_op.2).1.
Definition span_op : sdk.span := (returned (ctx0, no_span) start_op.2).2.

(** The default configuration and a partial update. *)
Definition config0 : trace.Config unit unit :=
  {| trace.DefaultSampler := Some tt; trace.IDGenerator_ := Some tt;
     trace.MaxEventsPerSpan := trace.DefaultMaxEventsPerSpan;
     trace.MaxAttributesPerSpan := trace.DefaultMaxAttributesPerSpan;
     trace.MaxLinksPerSpan := trace.DefaultMaxLinksPerSpan |}.
Definition config_update : trace.Config unit unit :=
  {| trace.DefaultSampler := None; trace.IDGenerator_ := None;
     trace.MaxEventsPerSpan := 0; trace.MaxAttributesPerSpan := 64;
     trace.MaxLinksPerSpan := (-1) |}.

(** [tag.FromContext] on the contexts of the tracer. *)
Abbreviation fc := sdk.tag_FromContext.

(** An event with a parent reference, a list of attributes, stats and a
    status. *)
Definition event_of (ty : observer.EventType) (seq scope parent : N)
    (ctx : option sdk.Context) (name : string) (attrs : list (string * string))
    (stat : stats.Measurement) (stats : list stats.Measurement) (status : N)
    : observer.Event sdk.Context :=
  {| observer.Type_ := ty; observer.Time := 12; observer.Sequence := seq;
     observer.Scope := {| observer.EventID_ := scope;
                          observer.SpanContext := core.EmptySpanContext |};
     observer.Parent := {| observer.EventID_ := parent;
                           observer.SpanContext := core.EmptySpanContext |};
     observer.Context_ := ctx; observer.String_ := name;
     observer.Attribute := ("", ""); observer.Attributes := attrs;
     observer.Mutator := ""; observer.Mutators := [];
     observer.Stat := stat; observer.Stats := stats;
     observer.Status := status |}.

Definition no_stat : stats.Measurement := stats.Measurement_zero.
Definition latency : stats.Measurement :=
  {| stats.Measure := Some "latency"; stats.Value := 4%Z |}.
Definition size_stat : stats.Measurement :=
  {| stats.Measure := Some "size"; stats.Value := 9%Z |}.

(** Events on the span of the scenario (sequence 1) and on its scope
    (sequence 2). *)
Definition e_add :=
  event_of observer.ADD_EVENT 3 2 0 None "hit" [("k", "v")] no_stat [] 0.
Definition e_stats :=
  event_of observer.RECORD_STATS 3 1 0 None "" [] size_stat [latency] 0.
Definition e_status :=
  event_of observer.SET_STATUS 3 1 0 None "" [] no_stat [] 2.
Definition e_metric :=
  event_of observer.NEW_METRIC 5 4 0 None "" [] no_stat [] 0.
Definition e_finish_root :=
  event_of observer.FINISH_SPAN 3 0 0 None "" [] no_stat [] 0.
Definition e_child :=
  event_of observer.START_SPAN 3 0 2 (Some ctx0) "child" [] no_stat [] 0.

(** The observer once the span has been finished by its own identifier, and
    a second FINISH_SPAN event that names the scope left behind. *)
Definition st3 : reader.state := (reader.orderedObserve sdk.tag_FromContext e_finish st2).1.
Definition e_finish_scope :=
  event_of observer.FINISH_SPAN 4 2 0 None "" [] no_stat [] 0.

(** The last record delivered for the FINISH_SPAN event of the scenario. *)
Definition finish_record : reader.Event :=
  default (reader.initial_read sdk.tag_FromContext e_finish)
          (snd <$> last (reader.delivered st3)).

End scenario.

(** * Facts about the reader observer *)
Module ReaderFacts.
Import reader.

Section reader_facts.
Context `{Api} {Ctx : Type} (fc : Ctx → Map).

(** *** Running the monad *)

Lemma bind_run {S A B} (m : M S A) (f : A → M S B) (s : S) :
  (m ≫= f) s =
  match m s with
  | (s', Done a) => f a s'
  | (s', Panic msg) => (s', Panic msg)
  | (s', OutOfFuel) => (s', OutOfFuel)
  end.
Proof. reflexivity. Qed.

Lemma ret_run {S A} (a : A) (s : S) : mret (M := M S) a s = (s, Done a).
Proof. reflexivity. Qed.

(** *** Computations that only read *)

Lemma readonly_ret {A} (a : A) : readonly (mret a).
Proof. by intros st. Qed.

Lemma readonly_panic {A} msg : readonly (panic (A := A) msg).
Proof. by intros st. Qed.

Lemma readonly_bind {A B} (m : M state A) (f : A → M state B) :
  readonly m → (∀ a, readonly (f a)) → readonly (m ≫= f).
Proof.
  intros Hm Hf st. rewrite bind_run. specialize (Hm st).
  destruct (m st) as [s' [a| |]]; simpl in *; subst; auto. apply Hf.
Qed.

Lemma readonly_load id : readonly (load_scope id).
Proof. by intros st. Qed.

Lemma readonly_deref_scope p : readonly (deref_scope p).
Proof. intros st. unfold deref_scope. by destruct (_ !! _). Qed.

Lemma readonly_deref_span p : readonly (deref_span p).
Proof. intros st. unfold deref_span. by destruct (_ !! _). Qed.


Ltac ro_solve :=
  repeat first
    [ apply readonly_ret | apply readonly_panic | apply readonly_load
    | apply readonly_deref_scope | apply readonly_deref_span
    | apply readonly_bind; [| intros ?]
    | match goal with
      | |- readonly (match ?x with _ => _ end) => destruct x
      | |- readonly (if ?x then _ else _) => destruct x
      | |- readonly (let '(_, _) := ?x in _) => destruct x
      end ].

Lemma readonly_readScope id : readonly (readScope id).
Proof. unfold readScope. ro_solve. Qed.

Lemma readonly_scope_parent id : readonly (scope_parent id).
Proof. unfold scope_parent. ro_solve. Qed.

Lemma readonly_start_span_parent (e : observer.Event Ctx) r : readonly (start_span_parent e r).
Proof. unfold start_span_parent. ro_solve. apply readonly_readScope. Qed.

Lemma readonly_Map_Apply m u : readonly (Map_Apply m u).
Proof. unfold Map_Apply. ro_solve. Qed.

Lemma readonly_FromContext (c : option Ctx) : readonly (FromContext fc c).
Proof. unfold FromContext. ro_solve. Qed.

Lemma readonly_addMeasurement e m : readonly (addMeasurement e m).
Proof. unfold addMeasurement, readMeasureScope. ro_solve. Qed.

Lemma readonly_addMeasurements ms : ∀ e, readonly (addMeasurements e ms).
Proof. induction ms; intros e; simpl; ro_solve; auto using readonly_addMeasurement. Qed.

(** *** Closed forms of the look-ups and of the cases of the switch *)

Lemma readScope_run id st :
  readScope id st =
  (st, if observer.EventID_ id =? 0 then Done (Some tag_NewEmptyMap, None)
       else match scopes (ro st) !! observer.EventID_ id with
            | None => Panic "scope not found"
            | Some ent => match resolve st ent with
                          | Some r => Done r
                          | None => Panic nil_dereference
                          end
            end).
Proof.
  unfold readScope. destruct (_ =? 0); [done|].
  rewrite bind_run. unfold load_scope. simpl.
  destruct (scopes (ro st) !! _) as [[p|l]|]; simpl; [| |done].
  - rewrite bind_run. unfold deref_scope. destruct (scope_objs st !! p); done.
  - rewrite bind_run. unfold deref_span. destruct (span_objs st !! l) as [sp|]; [|done].
    simpl. rewrite bind_run. unfold deref_scope. destruct (scope_objs st !! _); done.
Qed.


Lemma readScope_fuel id st : (readScope id st).2 ≠ OutOfFuel.
Proof.
  rewrite readScope_run. cbn [snd]. destruct (_ =? 0); [done|].
  destruct (_ !! _) as [ent|]; [|done]. by destruct (resolve st ent).
Qed.

Lemma scope_parent_run id st :
  scope_parent id st =
  (st, if observer.EventID_ id =? 0 then Done (Some tag_NewEmptyMap, None)
       else match scopes (ro st) !! observer.EventID_ id with
            | None => Panic "parent scope not found"
            | Some ent => match resolve st ent with
                          | Some r => Done r
                          | None => Panic nil_dereference
                          end
            end).
Proof.
  unfold scope_parent. destruct (_ =? 0); [done|].
  rewrite bind_run. unfold load_scope. simpl.
  destruct (scopes (ro st) !! _) as [[p|l]|]; simpl; [| |done].
  - rewrite bind_run. unfold deref_scope. destruct (scope_objs st !! p); done.
  - rewrite bind_run. unfold deref_span. destruct (span_objs st !! l) as [sp|]; [|done].
    simpl. rewrite bind_run. unfold deref_scope. destruct (scope_objs st !! _); done.
Qed.

Lemma start_span_parent_run (e : observer.Event Ctx) read st :
  ∃ o, start_span_parent e read st = (st, o).
Proof.
  pose proof (readonly_start_span_parent e read st) as Hr.
  destruct (start_span_parent e read st) as [s o]. simpl in Hr. subst. eauto.
Qed.

Lemma insert_last {A} (h : list A) (x y : A) : <[length h := x]> (h ++ [y]) = h ++ [x].
Proof.
  rewrite <- (Nat.add_0_r (length h)). by rewrite insert_app_r.
Qed.

Lemma scope_objs_started (e : observer.Event Ctx) tags sc st :
  scope_objs (started e tags sc st) = scope_objs st ++ [sc].
Proof. done. Qed.

Lemma span_objs_started (e : observer.Event Ctx) tags sc st :
  span_objs (started e tags sc st) =
  span_objs st ++ [started_span e tags (length (scope_objs st))].
Proof. done. Qed.

Lemma ro_started (e : observer.Event Ctx) tags sc st : ro (started e tags sc st) = ro st.
Proof. done. Qed.

Lemma delivered_started (e : observer.Event Ctx) tags sc st : delivered (started e tags sc st) = delivered st.
Proof. done. Qed.

Lemma write_scope_started (e : observer.Event Ctx) tags sc f st :
  write_scope (length (scope_objs st)) f (started e tags sc st) =
  (started e tags (f sc) st, Done tt).
Proof.
  unfold write_scope. rewrite bind_run. unfold deref_scope.
  rewrite scope_objs_started, list_lookup_middle by done.
  unfold modify, started, with_scope_objs, with_span_objs. simpl.
  by rewrite insert_last.
Qed.

Lemma deref_span_started (e : observer.Event Ctx) tags sc st :
  deref_span (length (span_objs st)) (started e tags sc st) =
  (started e tags sc st, Done (started_span e tags (length (scope_objs st)))).
Proof.
  unfold deref_span. by rewrite span_objs_started, list_lookup_middle.
Qed.

Lemma dispatch_START_SPAN (e : observer.Event Ctx) read st :
  observer.Type_ e = observer.START_SPAN →
  dispatch fc e read st =
  match observer.Context_ e with
  | None => (st, Panic nil_dereference)
  | Some c =>
      let l := length (span_objs st) in
      let st1 := started e (fc c) readerScope_zero st in
      match (readScope (observer.Scope e) st1).2 with
      | Done (rattrs, _) =>
          let st2 := started e (fc c) {| span := Some l; parent := 0; attributes := rattrs |} st in
          match (start_span_parent e (start_read e (fc c) rattrs read) st2).2 with
          | Done read' =>
              (with_scopes (<[observer.Sequence e := ISpan l]>) st2, Done (Some read'))
          | Panic msg => (st2, Panic msg)
          | OutOfFuel => (st2, OutOfFuel)
          end
      | Panic msg => (st1, Panic msg)
      | OutOfFuel => (st1, OutOfFuel)
      end
  end.
Proof.
  intros Hty. unfold dispatch. rewrite Hty.
  destruct (observer.Context_ e) as [c|]; [|done].
  cbv zeta.
  change (FromContext fc (Some c)) with (mret (M := M state) (fc c)).
  rewrite bind_run, ret_run.
  rewrite bind_run. unfold new_scope at 1.
  rewrite bind_run. unfold new_span at 1.
  change (with_span_objs _ (with_scope_objs _ st)) with (started e (fc c) readerScope_zero st).
  change (length (span_objs (with_scope_objs _ st))) with (length (span_objs st)).
  rewrite bind_run.
  pose proof (readonly_readScope (observer.Scope e) (started e (fc c) readerScope_zero st)) as Hro.
  destruct (readScope _ _) as [s1 [[rattrs x]| |]]; cbn [fst snd] in Hro |- *; subst s1; [|done..].
  rewrite bind_run, deref_span_started.
  change (scope_ptr (started_span _ _ ?p)) with p.
  rewrite bind_run, write_scope_started.
  rewrite bind_run, write_scope_started.
  rewrite bind_run.
  change (set_attributes rattrs (set_span (Some (length (span_objs st))) readerScope_zero))
    with {| span := Some (length (span_objs st)); parent := 0; attributes := rattrs |}.
  change (name (started_span e ?t ?p)) with (observer.String_ e).
  change (spanContext (started_span e ?t ?p)) with (observer.SpanContext (observer.Scope e)).
  fold (start_read e (fc c) rattrs read).
  destruct (start_span_parent_run e (start_read e (fc c) rattrs read)
    (started e (fc c) {| span := Some (length (span_objs st)); parent := 0; attributes := rattrs |} st)) as [o Ho].
  rewrite Ho. cbn [snd]. destruct o; done.
Qed.

Lemma dispatch_scope (e : observer.Event Ctx) read st :
  observer.Type_ e = observer.NEW_SCOPE ∨ observer.Type_ e = observer.MODIFY_ATTR →
  dispatch fc e read st =
  match (scope_parent (observer.Scope e) st).2 with
  | Done (Some m, osp) =>
      let attrs := Some (tag_Apply m (update_of e)) in
      let st' := scoped e {| span := osp;
                             parent := observer.EventID_ (observer.Scope e);
                             attributes := attrs |} st in
      if decide (observer.Type_ e = observer.NEW_SCOPE) then (st', Done None)
      else match osp with
           | Some l =>
               match span_objs st !! l with
               | Some sp =>
                   (st', Done (Some (set_Tags (startTags sp)
                                      (set_SpanContext (spanContext sp)
                                         (scope_read attrs read)))))
               | None => (st', Panic nil_dereference)
               end
           | None => (st', Done (Some (scope_read attrs read)))
           end
  | Done (None, _) => (st, Panic nil_dereference)
  | Panic msg => (st, Panic msg)
  | OutOfFuel => (st, OutOfFuel)
  end.
Proof.
  intros Hty.
  assert (dispatch fc e read st =
    ('(m, span) ← scope_parent (observer.Scope e);
      attrs ← Map_Apply m (update_of e);
      sc ← new_scope {| span := span;
                        parent := observer.EventID_ (observer.Scope e);
                        attributes := attrs |};
      modify (with_scopes (<[observer.Sequence e := IScope sc]>));;
      if decide (observer.Type_ e = observer.NEW_SCOPE) then mret None
      else
        sco ← deref_scope sc;
        let read := set_Type MODIFY_ATTR read in
        let read := set_Attributes (attributes sco) read in
        match span with
        | Some l =>
            sp ← deref_span l;
            mret (Some (set_Tags (startTags sp) (set_SpanContext (spanContext sp) read)))
        | None => mret (Some read)
        end) st) as ->.
  { unfold dispatch. by destruct Hty as [-> | ->]. }
  rewrite bind_run.
  pose proof (readonly_scope_parent (observer.Scope e) st) as Hro.
  destruct (scope_parent _ _) as [s1 [[m osp]| |]]; cbn [fst snd] in Hro |- *; subst s1; [|done..].
  destruct m as [m|]; [|done].
  change (Map_Apply (Some m) (update_of e)) with
    (mret (M := M state) (Some (tag_Apply m (update_of e)))).
  rewrite bind_run, ret_run, bind_run. unfold new_scope at 1.
  rewrite bind_run. unfold modify at 1.
  match goal with |- context [with_scopes ?f (with_scope_objs ?g st)] =>
    change (with_scopes f (with_scope_objs g st)) with
      (scoped e {| span := osp; parent := observer.EventID_ (observer.Scope e);
                   attributes := Some (tag_Apply m (update_of e)) |} st)
  end.
  cbv zeta. destruct (decide _); [done|].
  rewrite bind_run. unfold deref_scope at 1.
  change (scope_objs (scoped e ?sc st)) with (scope_objs st ++ [sc]).
  rewrite list_lookup_middle by done.
  cbn [attributes]. fold (scope_read (Some (tag_Apply m (update_of e))) read).
  destruct osp as [l|]; [|done].
  rewrite bind_run. unfold deref_span.
  change (span_objs (scoped e ?sc st)) with (span_objs st).
  destruct (span_objs st !! l); done.
Qed.

Lemma dispatch_FINISH_SPAN (e : observer.Event Ctx) read st :
  observer.Type_ e = observer.FINISH_SPAN →
  dispatch fc e read st =
  (st, match (readScope (observer.Scope e) st).2 with
       | Done (attrs, Some l) =>
           match span_objs st !! l with
           | Some sp => Done (Some (finish_read e attrs sp read))
           | None => Panic nil_dereference
           end
       | Done (_, None) => Panic "span not found"
       | Panic msg => Panic msg
       | OutOfFuel => OutOfFuel
       end).
Proof.
  intros Hty. unfold dispatch. rewrite Hty. rewrite bind_run.
  pose proof (readonly_readScope (observer.Scope e) st) as Hro.
  destruct (readScope _ _) as [s1 [[attrs [l|]]| |]]; cbn [fst snd] in Hro |- *; subst s1; try done.
  rewrite bind_run. unfold deref_span. destruct (span_objs st !! l); done.
Qed.

Lemma dispatch_readonly (e : observer.Event Ctx) read :
  observer.Type_ e = observer.ADD_EVENT ∨ observer.Type_ e = observer.RECORD_STATS →
  readonly (dispatch fc e read).
Proof.
  intros [Hty|Hty]; unfold dispatch; rewrite Hty; cbv zeta.
  - apply readonly_bind; [apply readonly_readScope|]. intros [attrs sp].
    apply readonly_bind; [apply readonly_Map_Apply|]. intros a. ro_solve.
  - apply readonly_bind; [apply readonly_readScope|]. intros [attrs sp].
    apply readonly_bind; [ro_solve|]. intros r.
    apply readonly_bind; [apply readonly_addMeasurements|]. intros r'.
    apply readonly_bind; [|intros; apply readonly_ret].
    destruct (stats.Measure _); [apply readonly_addMeasurement|apply readonly_ret].
Qed.

Lemma dispatch_SET_STATUS (e : observer.Event Ctx) read st :
  observer.Type_ e = observer.SET_STATUS →
  dispatch fc e read st =
  let read := set_Status (observer.Status e) (set_Type SET_STATUS read) in
  match (readScope (observer.Scope e) st).2 with
  | Done (_, Some l) =>
      match span_objs st !! l with
      | Some sp =>
          (with_span_objs (λ h, <[l := set_status (observer.Status e) sp]> h) st,
           Done (Some (set_SpanContext (spanContext sp) read)))
      | None => (st, Panic nil_dereference)
      end
  | Done (_, None) => (st, Done (Some read))
  | Panic msg => (st, Panic msg)
  | OutOfFuel => (st, OutOfFuel)
  end.
Proof.
  intros Hty. unfold dispatch. rewrite Hty. cbv zeta. rewrite bind_run.
  pose proof (readonly_readScope (observer.Scope e) st) as Hro.
  destruct (readScope _ _) as [s1 [[attrs [l|]]| |]]; cbn [fst snd] in Hro |- *; subst s1; try done.
  rewrite bind_run. unfold write_span at 1. rewrite bind_run.
  unfold deref_span at 1. destruct (span_objs st !! l) as [sp|] eqn:Hl; [|done].
  unfold modify at 1. rewrite bind_run. unfold deref_span.
  cbn [span_objs with_span_objs].
  rewrite list_lookup_insert_eq by (by eapply lookup_lt_Some). done.
Qed.

Lemma dispatch_NEW_MEASURE (e : observer.Event Ctx) read st :
  observer.Type_ e = observer.NEW_MEASURE →
  dispatch fc e read st =
  (with_measures (<[observer.Sequence e := {| measure_name := observer.String_ e |}]>) st,
   Done None).
Proof. intros Hty. unfold dispatch. by rewrite Hty. Qed.

Lemma dispatch_NEW_METRIC (e : observer.Event Ctx) read st :
  observer.Type_ e = observer.NEW_METRIC →
  dispatch fc e read st =
  match measures (ro st) !! observer.EventID_ (observer.Scope e) with
  | None => (st, Panic "metric measure not found")
  | Some measure =>
      (with_metrics (<[observer.Sequence e := {| metric_measure := measure |}]>) st,
       Done None)
  end.
Proof. intros Hty. unfold dispatch. by rewrite Hty. Qed.

Lemma dispatch_unhandled (e : observer.Event Ctx) read st :
  handled (observer.Type_ e) = false →
  dispatch fc e read st = (st, Panic "Unhandled case: ").
Proof. unfold dispatch. by destruct (observer.Type_ e). Qed.

(** *** The shape of the switch's result *)

Lemma dispatch_silent (e : observer.Event Ctx) read st :
  silent (observer.Type_ e) = true →
  ∀ r, (dispatch fc e read st).2 ≠ Done (Some r).
Proof.
  intros Hs r. destruct (observer.Type_ e) eqn:Hty; try discriminate Hs.
  - rewrite dispatch_scope by auto.
    destruct (scope_parent _ _).2 as [[[m|] osp]| |]; try done.
    cbv zeta. rewrite decide_True by done. done.
  - by rewrite dispatch_NEW_MEASURE.
  - rewrite dispatch_NEW_METRIC by done. by destruct (_ !! _).
Qed.

Lemma never_none_bind {A B} (m : M state A) (f : A → M state (option B)) :
  (∀ a, never_none (f a)) → never_none (m ≫= f).
Proof.
  intros Hf st. rewrite bind_run. destruct (m st) as [s' [a| |]]; try done. apply Hf.
Qed.

Lemma never_none_ret {A} (a : A) : never_none (mret (Some a)).
Proof. by intros st. Qed.

Lemma dispatch_loud (e : observer.Event Ctx) read st :
  handled (observer.Type_ e) = true → silent (observer.Type_ e) = false →
  (dispatch fc e read st).2 ≠ Done None.
Proof.
  intros Hh Hs. destruct (observer.Type_ e) eqn:Hty; try discriminate.
  - rewrite dispatch_START_SPAN by done. destruct (observer.Context_ e); [|done].
    cbv zeta. destruct (readScope _ _).2 as [[rattrs x]| |]; try done.
    by destruct (start_span_parent _ _ _).2.
  - rewrite dispatch_FINISH_SPAN by done. cbn [snd].
    destruct (readScope _ _).2 as [[attrs [l|]]| |]; try done.
    by destruct (_ !! _).
  - revert st. change (never_none (dispatch fc e read)).
    unfold dispatch. rewrite Hty. cbv zeta.
    apply never_none_bind. intros [attrs sp].
    apply never_none_bind. intros a.
    destruct sp; [apply never_none_bind; intros|]; apply never_none_ret.
  - rewrite dispatch_scope by auto.
    destruct (scope_parent _ _).2 as [[[m|] osp]| |]; try done.
    cbv zeta. rewrite decide_False by (by rewrite Hty).
    destruct osp as [l|]; [|done]. by destruct (_ !! _).
  - revert st. change (never_none (dispatch fc e read)).
    unfold dispatch. rewrite Hty. cbv zeta.
    apply never_none_bind. intros [attrs sp].
    do 3 (apply never_none_bind; intros ?). apply never_none_ret.
  - rewrite dispatch_SET_STATUS by done. cbv zeta.
    destruct (readScope _ _).2 as [[attrs [l|]]| |]; try done.
    by destruct (_ !! _).
Qed.

(** *** How states evolve *)

Lemma same_span_refl sp : same_span sp sp.
Proof. by repeat split. Qed.

Lemma same_span_trans a b c : same_span a b → same_span b c → same_span a c.
Proof.
  unfold same_span. intros (?&?&?&?&?) (?&?&?&?&?).
  repeat split; etrans; eauto.
Qed.

Lemma evolves_refl st : evolves st st.
Proof.
  split; auto.
  intros l sp Hl. exists sp. split; [done|apply same_span_refl].
Qed.

Lemma root_span_evolves st st' l : evolves st st' → root_span st l → root_span st' l.
Proof.
  intros Hev (sp & sc & Hsp & Hsc & Hp & Hs).
  destruct (ev_spans _ _ Hev _ _ Hsp) as (sp' & Hsp' & Hsame).
  exists sp', sc. split; [done|]. split; [|done].
  destruct Hsame as (_&_&_&_&<-). by apply (ev_scopes _ _ Hev).
Qed.

Lemma evolves_trans st1 st2 st3 : evolves st1 st2 → evolves st2 st3 → evolves st1 st3.
Proof.
  intros H12 H23. split.
  - by rewrite (ev_readers _ _ H23), (ev_readers _ _ H12).
  - intros l sp Hl. destruct (ev_spans _ _ H12 _ _ Hl) as (sp2 & Hl2 & Hs2).
    destruct (ev_spans _ _ H23 _ _ Hl2) as (sp3 & Hl3 & Hs3).
    exists sp3. split; [done|]. by eapply same_span_trans.
  - intros p sc Hp. apply (ev_scopes _ _ H23), (ev_scopes _ _ H12), Hp.
  - etrans; [apply (ev_delivered _ _ H12)|apply (ev_delivered _ _ H23)].
  - intros id l Hid. destruct (ev_table _ _ H23 _ _ Hid) as [Hold|[Hnew Hroot]].
    + destruct (ev_table _ _ H12 _ _ Hold) as [Hold'|[Hnew Hroot]]; [by left|].
      right. split; [done|]. by eapply root_span_evolves.
    + right. split; [|done].
      destruct (span_objs st1 !! l) as [sp|] eqn:Hl; [|done].
      destruct (ev_spans _ _ H12 _ _ Hl) as (sp2 & Hl2 & _).
      by rewrite Hnew in Hl2.
Qed.

Lemma evolves_started (e : observer.Event Ctx) tags sc st : evolves st (started e tags sc st).
Proof.
  split; try done.
  - intros l sp Hl. exists sp. split; [|apply same_span_refl].
    rewrite span_objs_started. by apply lookup_app_l_Some.
  - intros p sc' Hp. rewrite scope_objs_started. by apply lookup_app_l_Some.
  - intros id l Hid. by left.
Qed.

Lemma evolves_started_stored (e : observer.Event Ctx) tags rattrs st :
  evolves st
    (with_scopes (<[observer.Sequence e := ISpan (length (span_objs st))]>)
       (started e tags {| span := Some (length (span_objs st)); parent := 0;
                          attributes := rattrs |} st)).
Proof.
  split; try done.
  - intros l sp Hl. exists sp. split; [|apply same_span_refl].
    cbn. by apply lookup_app_l_Some.
  - intros p sc' Hp. cbn. by apply lookup_app_l_Some.
  - intros id l. cbn [ro scopes with_scopes]. rewrite lookup_insert.
    destruct (decide (observer.Sequence e = id)) as [->|Hne]; [|by left].
    intros [= <-]. right. split; [by apply lookup_ge_None|].
    eexists _, _. cbn. rewrite !list_lookup_middle by done.
    split; [reflexivity|]. cbn. by rewrite list_lookup_middle.
Qed.

Lemma evolves_scoped (e : observer.Event Ctx) sc st : evolves st (scoped e sc st).
Proof.
  split; try done.
  - intros l sp Hl. exists sp. split; [done|apply same_span_refl].
  - intros p sc' Hp. cbn. by apply lookup_app_l_Some.
  - intros id l. unfold scoped. cbn [ro scopes with_scopes]. rewrite lookup_insert.
    destruct (decide (observer.Sequence e = id)) as [->|Hne]; [done|by left].
Qed.

Lemma evolves_status l v sp st :
  span_objs st !! l = Some sp →
  evolves st (with_span_objs (λ h, <[l := set_status v sp]> h) st).
Proof.
  intros Hl. split; try done.
  - intros l' sp' Hl'. cbn. destruct (decide (l = l')) as [<-|Hne].
    + rewrite list_lookup_insert_eq by (by eapply lookup_lt_Some).
      eexists. split; [done|]. assert (sp' = sp) as -> by congruence. by repeat split.
    + rewrite list_lookup_insert_ne by done. exists sp'. split; [done|apply same_span_refl].
  - intros id l'. by left.
Qed.

Lemma evolves_measures f st : evolves st (with_measures f st).
Proof.
  split; try done.
  - intros l sp Hl. exists sp. split; [done|apply same_span_refl].
  - intros id l. by left.
Qed.

Lemma evolves_metrics f st : evolves st (with_metrics f st).
Proof.
  split; try done.
  - intros l sp Hl. exists sp. split; [done|apply same_span_refl].
  - intros id l. by left.
Qed.

Lemma evolves_delivered l st : evolves st (with_delivered (λ d, d ++ l) st).
Proof.
  split; try done.
  - intros l' sp Hl. exists sp. split; [done|apply same_span_refl].
  - cbn. by apply prefix_app_r.
  - intros id l'. by left.
Qed.

Lemma evolves_shrink t st :
  t ⊆ scopes (ro st) → evolves st (with_scopes (λ _, t) st).
Proof.
  intros Hsub. split; try done.
  - intros l sp Hl. exists sp. split; [done|apply same_span_refl].
  - intros id l Hid. left. cbn in Hid. by eapply lookup_weaken.
Qed.

Lemma dispatch_evolves (e : observer.Event Ctx) read st :
  evolves st (dispatch fc e read st).1.
Proof.
  destruct (observer.Type_ e) eqn:Hty.
  - rewrite dispatch_unhandled by (by rewrite Hty). apply evolves_refl.
  - rewrite dispatch_START_SPAN by done.
    destruct (observer.Context_ e); [|apply evolves_refl]. cbv zeta.
    destruct (readScope _ _).2 as [[rattrs x]| |]; try apply evolves_started.
    destruct (start_span_parent _ _ _).2; cbn [fst];
      [apply evolves_started_stored|apply evolves_started..].
  - rewrite dispatch_FINISH_SPAN by done. apply evolves_refl.
  - rewrite (dispatch_readonly e read) by auto. apply evolves_refl.
  - rewrite dispatch_unhandled by (by rewrite Hty). apply evolves_refl.
  - rewrite dispatch_scope by auto.
    destruct (scope_parent _ _).2 as [[[m|] osp]| |]; try apply evolves_refl.
    cbv zeta. destruct (decide _); [apply evolves_scoped|].
    destruct osp; [destruct (_ !! _)|]; apply evolves_scoped.
  - rewrite dispatch_NEW_MEASURE by done. apply evolves_measures.
  - rewrite dispatch_NEW_METRIC by done.
    destruct (_ !! _); [apply evolves_metrics|apply evolves_refl].
  - rewrite dispatch_scope by auto.
    destruct (scope_parent _ _).2 as [[[m|] osp]| |]; try apply evolves_refl.
    cbv zeta. destruct (decide _); [apply evolves_scoped|].
    destruct osp; [destruct (_ !! _)|]; apply evolves_scoped.
  - rewrite (dispatch_readonly e read) by auto. apply evolves_refl.
  - rewrite dispatch_SET_STATUS by done. cbv zeta.
    destruct (readScope _ _).2 as [[attrs [l|]]| |]; try apply evolves_refl.
    destruct (span_objs st !! l) eqn:Hl; [by apply evolves_status|apply evolves_refl].
Qed.

(** *** The clean-up loop *)

Lemma with_scopes_id st : with_scopes (λ _, scopes (ro st)) st = st.
Proof. by destruct st as [[] ? ? ?]. Qed.

Lemma cleanup_loop_0 fuel st : cleanup_loop fuel 0 st = (st, Done tt).
Proof. by destruct fuel. Qed.

Lemma cleanup_loop_S fuel id st :
  id ≠ 0 →
  cleanup_loop (S fuel) id st =
  match scopes (ro st) !! id with
  | None => (st, Panic "scope not found")
  | Some ent =>
      match parent_of st ent with
      | Some next => cleanup_loop fuel next (with_scopes (delete id) st)
      | None => (with_scopes (delete id) st, Panic nil_dereference)
      end
  end.
Proof.
  intros Hid. cbn [cleanup_loop]. apply N.eqb_neq in Hid. rewrite Hid.
  rewrite bind_run. unfold load_scope at 1.
  destruct (scopes (ro st) !! id) as [ent|]; [|done].
  rewrite bind_run. unfold modify at 1. rewrite bind_run.
  unfold parent_of, node. destruct ent as [p|l].
  - rewrite bind_run. unfold deref_scope.
    change (scope_objs (with_scopes _ st)) with (scope_objs st).
    by destruct (scope_objs st !! p).
  - rewrite bind_run. unfold deref_span at 1.
    change (span_objs (with_scopes _ st)) with (span_objs st).
    destruct (span_objs st !! l) as [sp|]; [|done]. cbn [mbind option_bind].
    rewrite bind_run. unfold deref_scope.
    change (scope_objs (with_scopes _ st)) with (scope_objs st).
    by destruct (scope_objs st !! scope_ptr sp).
Qed.

Lemma size_delete_present (t : gmap N entry) i ent :
  t !! i = Some ent → size t = S (size (delete i t)).
Proof.
  intros Hi. rewrite <- (insert_delete_id t i ent Hi) at 1.
  apply map_size_insert_None, lookup_delete_eq.
Qed.

Lemma cleanup_loop_shrinks fuel : ∀ id st,
  ∃ t, t ⊆ scopes (ro st) ∧ (cleanup_loop fuel id st).1 = with_scopes (λ _, t) st.
Proof.
  induction fuel as [|fuel IH]; intros id st.
  - exists (scopes (ro st)). split; [done|]. rewrite with_scopes_id.
    cbn. by destruct (id =? 0).
  - destruct (decide (id = 0)) as [->|Hid].
    { exists (scopes (ro st)). by rewrite cleanup_loop_0, with_scopes_id. }
    rewrite cleanup_loop_S by done.
    destruct (scopes (ro st) !! id) as [ent|];
      [|exists (scopes (ro st)); by rewrite with_scopes_id].
    destruct (parent_of st ent) as [next|].
    + destruct (IH next (with_scopes (delete id) st)) as (t & Ht & ->).
      exists t. split; [|done]. etrans; [apply Ht|]. apply delete_subseteq.
    + eexists. split; [|done]. apply delete_subseteq.
Qed.

Lemma cleanup_loop_fuel fuel : ∀ id st,
  (size (scopes (ro st)) < fuel)%nat → (cleanup_loop fuel id st).2 ≠ OutOfFuel.
Proof.
  induction fuel as [|fuel IH]; intros id st Hsz; [lia|].
  destruct (decide (id = 0)) as [->|Hid]; [by rewrite cleanup_loop_0|].
  rewrite cleanup_loop_S by done.
  destruct (scopes (ro st) !! id) as [ent|] eqn:Hent; [|done].
  destruct (parent_of st ent) as [next|]; [|done].
  apply IH. cbn. rewrite (size_delete_present _ _ _ Hent) in Hsz. lia.
Qed.

Lemma cleanupSpan_terminates id st : (cleanupSpan id st).2 ≠ OutOfFuel.
Proof. apply cleanup_loop_fuel. lia. Qed.

(** *** Walks along parent pointers *)

Lemma walk_functional st id a : walk st id a → ∀ b, walk st id b → a = b.
Proof.
  induction 1 as [|id ent next ids Hid Hent Hp Hw IH]; intros b Hb.
  - by inversion Hb.
  - inversion Hb as [|? ent' next' ids' ? Hent' Hp' Hw']; subst; [done|].
    assert (ent' = ent) as -> by congruence.
    assert (next' = next) as -> by congruence.
    f_equal. by apply IH.
Qed.

Lemma walk_suffix st id ids :
  walk st id ids → ∀ k, k ∈ ids →
  ∃ ids', walk st k ids' ∧ (length ids' ≤ length ids)%nat.
Proof.
  induction 1 as [|id ent next ids Hid Hent Hp Hw IH]; intros k Hk.
  - by apply elem_of_nil in Hk.
  - apply elem_of_cons in Hk as [->|Hk].
    + exists (id :: ids). split; [by econstructor|done].
    + destruct (IH k Hk) as (ids' & Hw' & Hlen). exists ids'. split; [done|]. cbn. lia.
Qed.

Lemma walk_NoDup st id ids : walk st id ids → NoDup ids.
Proof.
  induction 1 as [|id ent next ids Hid Hent Hp Hw IH]; [constructor|].
  constructor; [|done]. intros Hin.
  destruct (walk_suffix _ _ _ Hw id Hin) as (ids' & Hw' & Hlen).
  assert (walk st id (id :: ids)) as Hfull by (by econstructor).
  rewrite (walk_functional _ _ _ Hw' _ Hfull) in Hlen. cbn in Hlen. lia.
Qed.

Lemma walk_delete st next ids id :
  walk st next ids → id ∉ ids → walk (with_scopes (delete id) st) next ids.
Proof.
  induction 1 as [|k ent next ids Hk Hent Hp Hw IH]; intros Hnot; [constructor|].
  apply not_elem_of_cons in Hnot as [Hne Hnot].
  econstructor; [done| |exact Hp|by apply IH].
  cbn. by rewrite lookup_delete_ne.
Qed.

Lemma cleanup_loop_walk ids : ∀ st id k,
  walk st id ids →
  cleanup_loop (S (size (scopes (ro st)) + k)) id st =
  (with_scopes (λ _, delete_keys ids (scopes (ro st))) st, Done tt).
Proof.
  induction ids as [|i ids IH]; intros st id k Hw.
  - inversion Hw; subst. rewrite cleanup_loop_0. unfold delete_keys. cbn [foldl].
    by rewrite with_scopes_id.
  - pose proof (walk_NoDup _ _ _ Hw) as Hnd. apply NoDup_cons in Hnd as [Hni _].
    inversion Hw as [|? ent next ? Hid Hent Hp Hw']; subst.
    rewrite cleanup_loop_S by done. rewrite Hent, Hp.
    rewrite (size_delete_present _ _ _ Hent). cbn [Nat.add].
    apply (walk_delete _ _ _ i) in Hw'; [|done].
    specialize (IH _ _ k Hw'). cbn [ro scopes with_scopes] in IH.
    etrans; [exact IH|]. done.
Qed.

Lemma lookup_delete_keys ids : ∀ (t : gmap N entry) k,
  delete_keys ids t !! k = if decide (k ∈ ids) then None else t !! k.
Proof.
  induction ids as [|i ids IH]; intros t k.
  - by rewrite decide_False by apply not_elem_of_nil.
  - change (delete_keys (i :: ids) t) with (delete_keys ids (delete i t)).
    rewrite IH.
    destruct (decide (k ∈ ids)) as [Hin|Hnin], (decide (k ∈ i :: ids)) as [Hin'|Hnin'].
    + done.
    + destruct Hnin'. by apply list_elem_of_further.
    + apply elem_of_cons in Hin' as [->|?]; [apply lookup_delete_eq|done].
    + apply not_elem_of_cons in Hnin' as [Hne _]. by rewrite lookup_delete_ne.
Qed.

Lemma size_delete_keys ids : ∀ (t : gmap N entry),
  NoDup ids → (∀ k, k ∈ ids → is_Some (t !! k)) →
  (size (delete_keys ids t) + length ids)%nat = size t.
Proof.
  induction ids as [|i ids IH]; intros t Hnd Hin; [cbn; lia|].
  change (delete_keys (i :: ids) t) with (delete_keys ids (delete i t)).
  cbn [length]. apply NoDup_cons in Hnd as [Hni Hnd].
  destruct (Hin i (list_elem_of_here _ _)) as [ent Hent].
  rewrite (size_delete_present _ _ _ Hent).
  rewrite <- (IH (delete i t)); [lia|done|].
  intros k Hk. rewrite lookup_delete_ne; [apply Hin; by apply list_elem_of_further|].
  intros ->. done.
Qed.

Lemma walk_present st id ids :
  walk st id ids → ∀ k, k ∈ ids → is_Some (scopes (ro st) !! k).
Proof.
  induction 1 as [|id ent next ids Hid Hent Hp Hw IH]; intros k Hk.
  - by apply elem_of_nil in Hk.
  - apply elem_of_cons in Hk as [->|Hk]; eauto.
Qed.

(** *** One event *)

Lemma orderedObserve_run (e : observer.Event Ctx) st :
  orderedObserve fc e st =
  match dispatch fc e (initial_read fc e) st with
  | (st1, Done None) => (st1, Done tt)
  | (st1, Done (Some read)) =>
      let st2 := with_delivered (λ d, d ++ map (λ r, (r, read)) (readers (ro st1))) st1 in
      if decide (observer.Type_ e = observer.FINISH_SPAN)
      then cleanupSpan (observer.EventID_ (observer.Scope e)) st2
      else (st2, Done tt)
  | (st1, Panic msg) => (st1, Panic msg)
  | (st1, OutOfFuel) => (st1, OutOfFuel)
  end.
Proof.
  unfold orderedObserve. rewrite bind_run.
  destruct (dispatch _ _ _ _) as [st1 [[read|]| |]]; try done.
  rewrite bind_run. unfold deliver at 1. cbv zeta.
  by destruct (decide _).
Qed.

Lemma orderedObserve_evolves (e : observer.Event Ctx) st :
  evolves st (orderedObserve fc e st).1.
Proof.
  rewrite orderedObserve_run.
  pose proof (dispatch_evolves e (initial_read fc e) st) as Hd.
  destruct (dispatch _ _ _ _) as [st1 [[read|]| |]]; try done.
  cbv zeta. cbn [fst] in Hd. eapply evolves_trans; [exact Hd|].
  destruct (decide _); [|apply evolves_delivered].
  eapply evolves_trans; [apply evolves_delivered|].
  unfold cleanupSpan.
  destruct (cleanup_loop_shrinks (S (size (scopes (ro
    (with_delivered (λ d, d ++ map (λ r, (r, read)) (readers (ro st1))) st1)))))
    (observer.EventID_ (observer.Scope e))
    (with_delivered (λ d, d ++ map (λ r, (r, read)) (readers (ro st1))) st1))
    as (t & Ht & ->).
  by apply evolves_shrink.
Qed.

Lemma observe_all_evolves (es : list (observer.Event Ctx)) : ∀ st,
  evolves st (observe_all fc es st).1.
Proof.
  induction es as [|e es IH]; intros st; [apply evolves_refl|].
  cbn [observe_all]. rewrite bind_run. unfold Observe.
  pose proof (orderedObserve_evolves e st) as He.
  destruct (orderedObserve fc e st) as [st1 [[]| |]]; try done.
  eapply evolves_trans; [exact He|apply IH].
Qed.

(** *** What the switch leaves alone *)

Lemma dispatch_quiet (e : observer.Event Ctx) read st :
  delivered (dispatch fc e read st).1 = delivered st ∧
  readers (ro (dispatch fc e read st).1) = readers (ro st).
Proof.
  destruct (observer.Type_ e) eqn:Hty.
  - by rewrite dispatch_unhandled by (by rewrite Hty).
  - rewrite dispatch_START_SPAN by done.
    destruct (observer.Context_ e); [|done]. cbv zeta.
    destruct (readScope _ _).2 as [[rattrs x]| |]; try done.
    by destruct (start_span_parent _ _ _).2.
  - by rewrite dispatch_FINISH_SPAN by done.
  - by rewrite (dispatch_readonly e read) by auto.
  - by rewrite dispatch_unhandled by (by rewrite Hty).
  - rewrite dispatch_scope by auto.
    destruct (scope_parent _ _).2 as [[[m|] osp]| |]; try done.
    cbv zeta. destruct (decide _); [done|].
    destruct osp; [destruct (_ !! _)|]; done.
  - by rewrite dispatch_NEW_MEASURE by done.
  - rewrite dispatch_NEW_METRIC by done. by destruct (_ !! _).
  - rewrite dispatch_scope by auto.
    destruct (scope_parent _ _).2 as [[[m|] osp]| |]; try done.
    cbv zeta. destruct (decide _); [done|].
    destruct osp; [destruct (_ !! _)|]; done.
  - by rewrite (dispatch_readonly e read) by auto.
  - rewrite dispatch_SET_STATUS by done. cbv zeta.
    destruct (readScope _ _).2 as [[attrs [l|]]| |]; try done.
    by destruct (span_objs st !! l).
Qed.

Lemma cleanupSpan_frame id st :
  let st' := (cleanupSpan id st).1 in
  delivered st' = delivered st ∧ span_objs st' = span_objs st ∧
  scope_objs st' = scope_objs st ∧ readers (ro st') = readers (ro st) ∧
  measures (ro st') = measures (ro st) ∧ metrics (ro st') = metrics (ro st).
Proof.
  unfold cleanupSpan. cbv zeta.
  destruct (cleanup_loop_shrinks (S (size (scopes (ro st)))) id st) as (t & _ & ->).
  done.
Qed.

(** *** Only the clean-up loop uses fuel *)

Lemma fuelled_bind {A B} (m : M state A) (f : A → M state B) :
  fuelled m → (∀ a, fuelled (f a)) → fuelled (m ≫= f).
Proof.
  intros Hm Hf st. rewrite bind_run. specialize (Hm st).
  destruct (m st) as [s' [a| |]]; try done. apply Hf.
Qed.

Lemma fuelled_ret {A} (a : A) : fuelled (mret a).
Proof. by intros st. Qed.

Lemma fuelled_panic {A} msg : fuelled (panic (A := A) msg).
Proof. by intros st. Qed.

Lemma fuelled_modify f : fuelled (modify f).
Proof. by intros st. Qed.

Lemma fuelled_deref_scope p : fuelled (deref_scope p).
Proof. intros st. unfold deref_scope. by destruct (_ !! _). Qed.

Lemma fuelled_deref_span p : fuelled (deref_span p).
Proof. intros st. unfold deref_span. by destruct (_ !! _). Qed.

Lemma fuelled_readScope id : fuelled (readScope id).
Proof. intros st. apply readScope_fuel. Qed.

Lemma fuelled_scope_parent id : fuelled (scope_parent id).
Proof.
  intros st. rewrite scope_parent_run. cbn [snd]. destruct (_ =? 0); [done|].
  destruct (_ !! _) as [ent|]; [|done]. by destruct (resolve st ent).
Qed.

Lemma fuelled_addMeasurements ms : ∀ e, fuelled (addMeasurements e ms).
Proof.
  induction ms as [|m ms IH]; intros e; [apply fuelled_ret|].
  cbn [addMeasurements]. apply fuelled_bind; [by intros st|apply IH].
Qed.

Ltac fuel_solve :=
  repeat first
    [ apply fuelled_ret | apply fuelled_panic | apply fuelled_modify
    | apply fuelled_deref_scope | apply fuelled_deref_span
    | apply fuelled_readScope | apply fuelled_scope_parent
    | apply fuelled_addMeasurements
    | apply fuelled_bind; [| intros ?]
    | match goal with
      | |- fuelled (match ?x with _ => _ end) => destruct x
      | |- fuelled (let '(_, _) := ?x in _) => destruct x
      end ].

Lemma fuelled_dispatch (e : observer.Event Ctx) read : fuelled (dispatch fc e read).
Proof.
  unfold dispatch.
  destruct (observer.Type_ e); cbv zeta;
    unfold start_span_parent, FromContext, new_scope, new_span, write_scope,
      write_span, Map_Apply, addMeasurement, readMeasureScope;
    fuel_solve; try (by intros st).
  intros st. by destruct (_ !! _).
Qed.

Lemma orderedObserve_fuel (e : observer.Event Ctx) st :
  (orderedObserve fc e st).2 ≠ OutOfFuel.
Proof.
  rewrite orderedObserve_run.
  pose proof (fuelled_dispatch e (initial_read fc e) st) as Hd.
  destruct (dispatch _ _ _ _) as [st1 [[read|]| |]]; try done.
  cbv zeta. destruct (decide _); [apply cleanupSpan_terminates|done].
Qed.

(** *** The pointers of the table are never dangling *)

Lemma resolve_evolves st st' ent r :
  evolves st st' → resolve st ent = Some r → resolve st' ent = Some r.
Proof.
  intros Hev. destruct ent as [p|l]; cbn.
  - destruct (scope_objs st !! p) as [sc|] eqn:Hp; [|done].
    by rewrite (ev_scopes _ _ Hev _ _ Hp).
  - destruct (span_objs st !! l) as [sp|] eqn:Hl; [|done]. cbn.
    destruct (ev_spans _ _ Hev _ _ Hl) as (sp' & -> & _ & _ & _ & _ & Hptr). cbn.
    rewrite <- Hptr.
    destruct (scope_objs st !! scope_ptr sp) as [sc|] eqn:Hp; [|done].
    by rewrite (ev_scopes _ _ Hev _ _ Hp).
Qed.

Lemma well_formed_step st st' :
  well_formed st → evolves st st' →
  (∀ id ent, scopes (ro st') !! id = Some ent →
     scopes (ro st) !! id = Some ent ∨
     ∃ m osp, resolve st' ent = Some (Some m, osp) ∧
              ∀ l, osp = Some l → is_Some (span_objs st' !! l)) →
  well_formed st'.
Proof.
  intros Hwf Hev Htab id ent Hent.
  destruct (Htab id ent Hent) as [Hold|Hnew]; [|done].
  destruct (Hwf id ent Hold) as (m & osp & Hres & Hosp).
  exists m, osp. split; [by eapply resolve_evolves|].
  intros l Hl. destruct (Hosp l Hl) as [sp Hsp].
  destruct (ev_spans _ _ Hev _ _ Hsp) as (sp' & -> & _). eauto.
Qed.

Lemma well_formed_same_table st st' :
  well_formed st → evolves st st' → scopes (ro st') ⊆ scopes (ro st) →
  well_formed st'.
Proof.
  intros Hwf Hev Hsub. apply (well_formed_step st); [done..|].
  intros id ent Hent. left. by eapply lookup_weaken.
Qed.

Lemma dispatch_well_formed (e : observer.Event Ctx) read st :
  well_formed st → well_formed (dispatch fc e read st).1.
Proof.
  intros Hwf. pose proof (dispatch_evolves e read st) as Hev.
  destruct (observer.Type_ e) eqn:Hty.
  - by rewrite dispatch_unhandled by (by rewrite Hty).
  - rewrite dispatch_START_SPAN in Hev |- * by done.
    destruct (observer.Context_ e) as [c|]; [|done]. cbv zeta in Hev |- *.
    pose proof (readScope_run (observer.Scope e) (started e (fc c) readerScope_zero st)) as Hrun.
    apply (f_equal snd) in Hrun. cbn [snd] in Hrun.
    destruct (readScope _ _).2 as [[rattrs x]| |];
      try (by apply (well_formed_same_table st)).
    destruct (start_span_parent _ _ _).2;
      try (by apply (well_formed_same_table st)).
    cbn [fst] in Hev |- *. apply (well_formed_step st); [done..|].
    intros id ent. cbn [ro scopes with_scopes]. rewrite lookup_insert.
    destruct (decide (observer.Sequence e = id)) as [_|_]; [|by left].
    intros [= <-]. right.
    assert (∃ m, rattrs = Some m) as [m ->].
    { destruct (_ =? 0); [injection Hrun as -> _; eauto|].
      change (scopes (ro (started e (fc c) readerScope_zero st))) with (scopes (ro st)) in Hrun.
      destruct (scopes (ro st) !! _) as [ent|] eqn:Hent; [|done].
      destruct (Hwf _ _ Hent) as (m & osp & Hres & _).
      rewrite (resolve_evolves _ _ _ _ (evolves_started e (fc c) readerScope_zero st) Hres) in Hrun.
      injection Hrun as -> _. eauto. }
    exists m, (Some (length (span_objs st))). split.
    + cbn. rewrite list_lookup_middle by done. cbn. by rewrite list_lookup_middle.
    + intros l [= <-]. cbn. rewrite list_lookup_middle by done. eauto.
  - by rewrite dispatch_FINISH_SPAN by done.
  - by rewrite (dispatch_readonly e read) by auto.
  - by rewrite dispatch_unhandled by (by rewrite Hty).
  - rewrite dispatch_scope in Hev |- * by auto.
    pose proof (scope_parent_run (observer.Scope e) st) as Hrun.
    apply (f_equal snd) in Hrun. cbn [snd] in Hrun.
    destruct (scope_parent _ _).2 as [[[m|] osp]| |]; try done.
    cbv zeta in Hev |- *.
    set (sc := {| span := osp; parent := observer.EventID_ (observer.Scope e);
                  attributes := Some (tag_Apply m (update_of e)) |}) in *.
    assert (well_formed (scoped e sc st)) as Hwf'.
    { apply (well_formed_step st); [done|apply evolves_scoped|].
      intros id ent. unfold scoped. cbn [ro scopes with_scopes]. rewrite lookup_insert.
      destruct (decide (observer.Sequence e = id)) as [_|_]; [|by left].
      intros [= <-]. right. exists (tag_Apply m (update_of e)), osp. split.
      - cbn. by rewrite list_lookup_middle.
      - intros l ->. cbn.
        destruct (_ =? 0); [done|].
        destruct (scopes (ro st) !! _) as [ent|] eqn:Hent; [|done].
        destruct (Hwf _ _ Hent) as (m' & osp' & Hres & Hosp).
        rewrite Hres in Hrun. injection Hrun as _ Heq. by apply Hosp. }
    destruct (decide _); [done|]. destruct osp; [destruct (_ !! _)|]; done.
  - rewrite dispatch_NEW_MEASURE in Hev |- * by done.
    by apply (well_formed_same_table st).
  - rewrite dispatch_NEW_METRIC in Hev |- * by done.
    destruct (_ !! _); [|done]. by apply (well_formed_same_table st).
  - rewrite dispatch_scope in Hev |- * by auto.
    pose proof (scope_parent_run (observer.Scope e) st) as Hrun.
    apply (f_equal snd) in Hrun. cbn [snd] in Hrun.
    destruct (scope_parent _ _).2 as [[[m|] osp]| |]; try done.
    cbv zeta in Hev |- *.
    set (sc := {| span := osp; parent := observer.EventID_ (observer.Scope e);
                  attributes := Some (tag_Apply m (update_of e)) |}) in *.
    assert (well_formed (scoped e sc st)) as Hwf'.
    { apply (well_formed_step st); [done|apply evolves_scoped|].
      intros id ent. unfold scoped. cbn [ro scopes with_scopes]. rewrite lookup_insert.
      destruct (decide (observer.Sequence e = id)) as [_|_]; [|by left].
      intros [= <-]. right. exists (tag_Apply m (update_of e)), osp. split.
      - cbn. by rewrite list_lookup_middle.
      - intros l ->. cbn.
        destruct (_ =? 0); [done|].
        destruct (scopes (ro st) !! _) as [ent|] eqn:Hent; [|done].
        destruct (Hwf _ _ Hent) as (m' & osp' & Hres & Hosp).
        rewrite Hres in Hrun. injection Hrun as _ Heq. by apply Hosp. }
    destruct (decide _); [done|]. destruct osp; [destruct (_ !! _)|]; done.
  - by rewrite (dispatch_readonly e read) by auto.
  - rewrite dispatch_SET_STATUS in Hev |- * by done. cbv zeta in Hev |- *.
    destruct (readScope _ _).2 as [[attrs [l|]]| |]; try done.
    destruct (span_objs st !! l) eqn:Hl; [|done].
    by apply (well_formed_same_table st).
Qed.

Lemma orderedObserve_well_formed (e : observer.Event Ctx) st :
  well_formed st → well_formed (orderedObserve fc e st).1.
Proof.
  intros Hwf. rewrite orderedObserve_run.
  pose proof (dispatch_well_formed e (initial_read fc e) st Hwf) as Hd.
  destruct (dispatch _ _ _ _) as [st1 [[read|]| |]]; try done.
  cbv zeta. cbn [fst] in Hd.
  set (st2 := with_delivered _ st1).
  assert (well_formed st2) as Hwf2.
  { apply (well_formed_same_table st1); [done|apply evolves_delivered|done]. }
  destruct (decide _); [|done].
  unfold cleanupSpan.
  destruct (cleanup_loop_shrinks (S (size (scopes (ro st2))))
              (observer.EventID_ (observer.Scope e)) st2) as (t & Ht & ->).
  apply (well_formed_same_table st2); [done|by apply evolves_shrink|done].
Qed.

Lemma reachable_well_formed rs (es : list (observer.Event Ctx)) :
  well_formed (observe_all fc es (NewReaderObserver rs)).1.
Proof.
  assert (∀ st, well_formed st → well_formed (observe_all fc es st).1) as Hall.
  { induction es as [|e es IH]; intros st Hwf; [done|].
    cbn [observe_all]. rewrite bind_run. unfold Observe.
    pose proof (orderedObserve_well_formed e st Hwf) as He.
    destruct (orderedObserve fc e st) as [st1 [[]| |]]; try done. by apply IH. }
  apply Hall. intros id ent Hent. cbn in Hent. by rewrite lookup_empty in Hent.
Qed.

(** C1. A NEW_SCOPE or MODIFY_ATTR event whose scope reference names a node
    of the table, with snapshot [m] and owning span [osp], is processed
    without panic. A new scope node is stored under the event's own sequence
    number; its snapshot is [m] with the event's delta applied (single
    key-value, key-values, single mutator and mutators, in one [Apply]), its
    parent is the referenced identifier and its owner is the parent's. The
    parent's node still resolves to the snapshot [m], no scope object that
    existed is changed, and no span object is. *)
Theorem modify_attr_snapshot (e : observer.Event Ctx) st ent m osp :
  observer.Type_ e = observer.NEW_SCOPE ∨ observer.Type_ e = observer.MODIFY_ATTR →
  observer.EventID_ (observer.Scope e) ≠ 0 →
  scopes (ro st) !! observer.EventID_ (observer.Scope e) = Some ent →
  resolve st ent = Some (Some m, osp) →
  (∀ l, osp = Some l → is_Some (span_objs st !! l)) →
  let p := length (scope_objs st) in
  let st' := (orderedObserve fc e st).1 in
  (orderedObserve fc e st).2 = Done tt ∧
  scopes (ro st') = <[observer.Sequence e := IScope p]> (scopes (ro st)) ∧
  scope_objs st' !! p =
    Some {| span := osp;
            parent := observer.EventID_ (observer.Scope e);
            attributes := Some (tag_Apply m (update_of e)) |} ∧
  resolve st' ent = Some (Some m, osp) ∧
  (∀ q sc, scope_objs st !! q = Some sc → scope_objs st' !! q = Some sc) ∧
  span_objs st' = span_objs st.
Proof.
  intros Hty Hid Hent Hres Hosp p st'. subst p st'.
  rewrite orderedObserve_run, dispatch_scope by done.
  rewrite scope_parent_run. cbn [snd].
  apply N.eqb_neq in Hid. rewrite Hid, Hent, Hres. cbv zeta.
  set (sc := {| span := osp; parent := observer.EventID_ (observer.Scope e);
                attributes := Some (tag_Apply m (update_of e)) |}).
  assert (∀ q sc', scope_objs st !! q = Some sc' →
                   scope_objs (scoped e sc st) !! q = Some sc') as Hkeep.
  { intros q sc' Hq. cbn. by apply lookup_app_l_Some. }
  assert (resolve (scoped e sc st) ent = Some (Some m, osp)) as Hres'.
  { destruct ent as [q|l]; cbn in Hres |- *.
    - destruct (scope_objs st !! q) as [sq|] eqn:Hq; [|done].
      by rewrite (lookup_app_l_Some _ _ _ _ Hq).
    - destruct (span_objs st !! l) as [sp|]; [|done]. cbn in Hres |- *.
      destruct (scope_objs st !! scope_ptr sp) as [sq|] eqn:Hq; [|done].
      by rewrite (lookup_app_l_Some _ _ _ _ Hq). }
  assert (scope_objs (scoped e sc st) !! length (scope_objs st) = Some sc) as Hnew.
  { cbn. by apply list_lookup_middle. }
  destruct (decide (observer.Type_ e = observer.NEW_SCOPE)) as [Hns|Hns]; [done|].
  destruct osp as [l|]; [|by rewrite decide_False by (destruct Hty; congruence)].
  destruct (Hosp l eq_refl) as [sp ->].
  by rewrite decide_False by (destruct Hty; congruence).
Qed.

(** C2, as amended. When a FINISH_SPAN event resolves to a span and the walk
    along parent pointers from the event's scope reference visits [ids]
    before it reaches 0, processing the event returns and deletes from the
    table exactly the keys [ids]: the size of the table decreases by the
    length of the walk, every other key keeps its value, and no object,
    measure or metric is touched. A span node is a root, so when the
    reference is the span's own identifier the walk is that single node and
    the size decreases by one, whatever the number of scope nodes owned by
    the span. *)
Theorem finish_span_cleanup (e : observer.Event Ctx) st ids attrs l :
  observer.Type_ e = observer.FINISH_SPAN →
  walk st (observer.EventID_ (observer.Scope e)) ids →
  (readScope (observer.Scope e) st).2 = Done (attrs, Some l) →
  is_Some (span_objs st !! l) →
  let st' := (orderedObserve fc e st).1 in
  (orderedObserve fc e st).2 = Done tt ∧
  scopes (ro st') = delete_keys ids (scopes (ro st)) ∧
  (size (scopes (ro st')) + length ids)%nat = size (scopes (ro st)) ∧
  (∀ k, k ∈ ids → scopes (ro st') !! k = None) ∧
  (∀ k, k ∉ ids → scopes (ro st') !! k = scopes (ro st) !! k) ∧
  span_objs st' = span_objs st ∧ scope_objs st' = scope_objs st ∧
  measures (ro st') = measures (ro st) ∧ metrics (ro st') = metrics (ro st) ∧
  (∀ l', scopes (ro st) !! observer.EventID_ (observer.Scope e) = Some (ISpan l') →
         root_span st l' → ids = [observer.EventID_ (observer.Scope e)]).
Proof.
  intros Hty Hw Hrs [sp Hsp] st'. subst st'.
  rewrite orderedObserve_run, dispatch_FINISH_SPAN by done.
  rewrite Hrs, Hsp. cbv zeta. rewrite decide_True by done.
  set (st2 := with_delivered _ st).
  assert (walk st2 (observer.EventID_ (observer.Scope e)) ids) as Hw2.
  { clear -Hw. induction Hw; econstructor; eauto. }
  unfold cleanupSpan.
  rewrite <- (Nat.add_0_r (size (scopes (ro st2)))).
  rewrite (cleanup_loop_walk ids st2 _ 0%nat Hw2). cbn [fst snd ro scopes with_scopes].
  change (scopes (ro st2)) with (scopes (ro st)).
  split; [done|]. split; [done|].
  split; [apply size_delete_keys; [by eapply walk_NoDup|by eapply walk_present]|].
  split; [intros k Hk; by rewrite lookup_delete_keys, decide_True|].
  split; [intros k Hk; by rewrite lookup_delete_keys, decide_False|].
  do 4 (split; [done|]).
  intros l' Hent (sp' & sc & Hsp' & Hsc & Hpar & _).
  assert (walk st (observer.EventID_ (observer.Scope e)) [observer.EventID_ (observer.Scope e)]) as Hw1.
  { assert (observer.EventID_ (observer.Scope e) ≠ 0) as Hne.
    { intros Hz. rewrite readScope_run in Hrs. cbn [snd] in Hrs.
      by rewrite Hz in Hrs. }
    econstructor; [done|exact Hent| |constructor].
    unfold parent_of. cbn. rewrite Hsp'. cbn. rewrite Hsc. cbn. by f_equal. }
  exact (walk_functional _ _ _ Hw _ Hw1).
Qed.

(** *** The effect of a START_SPAN and of a NEW_SCOPE event *)

Lemma orderedObserve_START_SPAN (e : observer.Event Ctx) st st' :
  observer.Type_ e = observer.START_SPAN →
  orderedObserve fc e st = (st', Done tt) →
  ∃ c rattrs x read,
    observer.Context_ e = Some c ∧
    (readScope (observer.Scope e) (started e (fc c) readerScope_zero st)).2
      = Done (rattrs, x) ∧
    (start_span_parent e (start_read e (fc c) rattrs (initial_read fc e))
       (started e (fc c)
          {| span := Some (length (span_objs st)); parent := 0;
             attributes := rattrs |} st)).2 = Done read ∧
    st' = with_delivered (λ d, d ++ map (λ r, (r, read)) (readers (ro st)))
            (with_scopes (<[observer.Sequence e := ISpan (length (span_objs st))]>)
               (started e (fc c)
                  {| span := Some (length (span_objs st)); parent := 0;
                     attributes := rattrs |} st)).
Proof.
  intros Hty. rewrite orderedObserve_run, dispatch_START_SPAN by done.
  destruct (observer.Context_ e) as [c|]; [|done]. cbv zeta.
  destruct (readScope _ _).2 as [[rattrs x]| |] eqn:Hrs; try done.
  destruct (start_span_parent _ _ _).2 as [read| |] eqn:Hp; try done.
  rewrite decide_False by (by rewrite Hty). intros [= <-].
  by exists c, rattrs, x, read.
Qed.

Lemma start_span_parent_zero (e : observer.Event Ctx) read st :
  observer.EventID_ (observer.Parent e) = 0 →
  start_span_parent e read st =
  (st, Done (if observer.HasTraceID (observer.Parent e)
             then set_Parent (observer.SpanContext (observer.Parent e)) read
             else read)).
Proof.
  intros Hz. unfold start_span_parent. rewrite Hz. cbn [N.eqb andb].
  destruct (observer.HasTraceID _); [done|].
  rewrite bind_run, readScope_run, Hz. done.
Qed.

Lemma orderedObserve_NEW_SCOPE (e : observer.Event Ctx) st :
  observer.Type_ e = observer.NEW_SCOPE →
  orderedObserve fc e st =
  match (scope_parent (observer.Scope e) st).2 with
  | Done (Some m, osp) =>
      (scoped e {| span := osp;
                   parent := observer.EventID_ (observer.Scope e);
                   attributes := Some (tag_Apply m (update_of e)) |} st, Done tt)
  | Done (None, _) => (st, Panic nil_dereference)
  | Panic msg => (st, Panic msg)
  | OutOfFuel => (st, OutOfFuel)
  end.
Proof.
  intros Hty. rewrite orderedObserve_run, dispatch_scope by auto.
  destruct (scope_parent _ _).2 as [[[m|] osp]| |]; try done.
  cbv zeta. by rewrite decide_True.
Qed.

(** C4. A START_SPAN event that is processed without panic stores under its
    sequence number a pointer to a new span whose embedded scope record has
    parent 0, points back to the span and has nothing else set than its
    snapshot, whatever scope the event refers to. Hence in every state that
    the observer reaches from its creation, each span pointer of the scope
    table leads to a scope record with parent 0. *)
Theorem span_nodes_are_roots :
  (∀ (e : observer.Event Ctx) st st',
     observer.Type_ e = observer.START_SPAN →
     orderedObserve fc e st = (st', Done tt) →
     ∃ l rattrs,
       scopes (ro st') !! observer.Sequence e = Some (ISpan l) ∧
       span_objs st !! l = None ∧
       node st' (ISpan l) = Some {| span := Some l; parent := 0; attributes := rattrs |}) ∧
  (∀ rs (es : list (observer.Event Ctx)) id l,
     scopes (ro (observe_all fc es (NewReaderObserver rs)).1) !! id = Some (ISpan l) →
     root_span (observe_all fc es (NewReaderObserver rs)).1 l).
Proof.
  split.
  - intros e st st' Hty Hrun.
    destruct (orderedObserve_START_SPAN e st st' Hty Hrun) as (c & rattrs & x & read & Hc & _ & _ & ->).
    exists (length (span_objs st)), rattrs. split; [|split].
    + cbn. apply lookup_insert_eq.
    + by apply lookup_ge_None.
    + cbn. rewrite list_lookup_middle by done. cbn. by rewrite list_lookup_middle.
  - intros rs es id l Hid.
    destruct (ev_table _ _ (observe_all_evolves es (NewReaderObserver rs)) _ _ Hid)
      as [Hold|[_ Hroot]]; [|done].
    cbn in Hold. by rewrite lookup_empty in Hold.
Qed.

(** C5. Let a START_SPAN event be processed, storing a span under its
    sequence number, then any stream of events, and then a FINISH_SPAN event
    whose scope reference resolves to that span. The record delivered to
    every sink for the FINISH_SPAN event has as duration the event's time
    minus the time of the START_SPAN event, as tags the tags of the
    START_SPAN event's context, and the name and span context of the
    START_SPAN event. *)
Theorem finish_reports_start (e_start : observer.Event Ctx) es e_fin st0 st1 st2 l attrs :
  observer.Type_ e_start = observer.START_SPAN →
  orderedObserve fc e_start st0 = (st1, Done tt) →
  scopes (ro st1) !! observer.Sequence e_start = Some (ISpan l) →
  observe_all fc es st1 = (st2, Done tt) →
  observer.Type_ e_fin = observer.FINISH_SPAN →
  (readScope (observer.Scope e_fin) st2).2 = Done (attrs, Some l) →
  ∃ c read,
    observer.Context_ e_start = Some c ∧
    delivered (orderedObserve fc e_fin st2).1 =
      delivered st2 ++ map (λ r, (r, read)) (readers (ro st2)) ∧
    Type_ read = FINISH_SPAN ∧
    Duration read = time_Sub (observer.Time e_fin) (observer.Time e_start) ∧
    Tags read = fc c ∧
    Name read = observer.String_ e_start ∧
    SpanContext read = observer.SpanContext (observer.Scope e_start) ∧
    Attributes read = attrs ∧
    Sequence read = observer.Sequence e_fin ∧ Time read = observer.Time e_fin.
Proof.
  intros Hty Hstart Hent Hes Htyf Hrs.
  destruct (orderedObserve_START_SPAN _ _ _ Hty Hstart) as (c & rattrs & x & read0 & Hc & _ & _ & ->).
  cbn in Hent. rewrite lookup_insert_eq in Hent. injection Hent as <-.
  pose proof (observe_all_evolves es
    (with_delivered (λ d, d ++ map (λ r, (r, read0)) (readers (ro st0)))
       (with_scopes (<[observer.Sequence e_start := ISpan (length (span_objs st0))]>)
          (started e_start (fc c)
             {| span := Some (length (span_objs st0)); parent := 0;
                attributes := rattrs |} st0)))) as Hev.
  rewrite Hes in Hev. cbn [fst] in Hev.
  destruct (ev_spans _ _ Hev (length (span_objs st0))
              (started_span e_start (fc c) (length (scope_objs st0))))
    as (sp & Hsp & Hn & Hs & Ht & Hsc & _).
  { cbn. by apply list_lookup_middle. }
  exists c, (finish_read e_fin attrs sp (initial_read fc e_fin)).
  split; [done|]. split.
  - rewrite orderedObserve_run, dispatch_FINISH_SPAN by done.
    rewrite Hrs, Hsp. cbv zeta. rewrite decide_True by done.
    by destruct (cleanupSpan_frame (observer.EventID_ (observer.Scope e_fin))
      (with_delivered (λ d, d ++ map (λ r, (r, finish_read e_fin attrs sp (initial_read fc e_fin)))
                                 (readers (ro st2))) st2)) as (-> & _).
  - cbn. rewrite <- Hn, <- Hs, <- Ht, <- Hsc. cbn.
    unfold initial_read. repeat split; by destruct (observer.Context_ e_fin).
Qed.

(** C6. An event whose case looks its scope reference up in the scope table
    panics with the message of that look-up when the reference is not 0 and
    names no key of the table; a NEW_METRIC event panics when its reference
    names no key of the measure table. So does a START_SPAN event whose
    parent reference is not 0 and is absent. In each case nothing is
    delivered and the three tables are as before. A scope reference of 0
    resolves to the empty snapshot and no span. *)
Theorem absent_reference_panics :
  (∀ (e : observer.Event Ctx) st,
     absent_reference st e →
     (orderedObserve fc e st).2 = Panic (lookup_panic e) ∧
     delivered (orderedObserve fc e st).1 = delivered st ∧
     ro (orderedObserve fc e st).1 = ro st) ∧
  (∀ (e : observer.Event Ctx) st,
     observer.Type_ e = observer.START_SPAN →
     observer.EventID_ (observer.Parent e) ≠ 0 →
     scopes (ro st) !! observer.EventID_ (observer.Parent e) = None →
     is_panic (orderedObserve fc e st).2 = true ∧
     delivered (orderedObserve fc e st).1 = delivered st ∧
     ro (orderedObserve fc e st).1 = ro st) ∧
  (∀ sid st,
     observer.EventID_ sid = 0 →
     readScope sid st = (st, Done (Some tag_NewEmptyMap, None)) ∧
     scope_parent sid st = (st, Done (Some tag_NewEmptyMap, None))).
Proof.
  split; [|split].
  - intros e st Habs. unfold absent_reference, lookup_panic in *.
    rewrite orderedObserve_run.
    destruct (observer.Type_ e) eqn:Hty; cbn in Habs; try done.
    + destruct Habs as [Hid Hnone]. apply N.eqb_neq in Hid.
      rewrite dispatch_START_SPAN by done.
      destruct (observer.Context_ e) as [c|]; [|done]. cbv zeta.
      rewrite readScope_run. cbn [snd]. rewrite Hid.
      change (scopes (ro (started e (fc c) readerScope_zero st))) with (scopes (ro st)).
      by rewrite Hnone.
    + destruct Habs as [Hid Hnone]. apply N.eqb_neq in Hid.
      rewrite dispatch_FINISH_SPAN by done.
      rewrite readScope_run. cbn [snd]. by rewrite Hid, Hnone.
    + destruct Habs as [Hid Hnone]. apply N.eqb_neq in Hid.
      unfold dispatch. rewrite Hty. cbv zeta. rewrite bind_run.
      rewrite readScope_run. by rewrite Hid, Hnone.
    + destruct Habs as [Hid Hnone]. apply N.eqb_neq in Hid.
      rewrite dispatch_scope by auto.
      rewrite scope_parent_run. cbn [snd]. by rewrite Hid, Hnone.
    + rewrite dispatch_NEW_METRIC by done. by rewrite Habs.
    + destruct Habs as [Hid Hnone]. apply N.eqb_neq in Hid.
      rewrite dispatch_scope by auto.
      rewrite scope_parent_run. cbn [snd]. by rewrite Hid, Hnone.
    + destruct Habs as [Hid Hnone]. apply N.eqb_neq in Hid.
      unfold dispatch. rewrite Hty. cbv zeta. rewrite bind_run.
      rewrite readScope_run. by rewrite Hid, Hnone.
    + destruct Habs as [Hid Hnone]. apply N.eqb_neq in Hid.
      rewrite dispatch_SET_STATUS by done. cbv zeta.
      rewrite readScope_run. cbn [snd]. by rewrite Hid, Hnone.
  - intros e st Hty Hid Hnone. apply N.eqb_neq in Hid.
    rewrite orderedObserve_run, dispatch_START_SPAN by done.
    destruct (observer.Context_ e) as [c|]; [|done]. cbv zeta.
    destruct (readScope _ _).2 as [[rattrs x]| |] eqn:Hrs; try done.
    + unfold start_span_parent. rewrite Hid. cbn [andb].
      rewrite bind_run, readScope_run. rewrite Hid.
      match goal with |- context [scopes (ro (started ?a ?b ?c ?d))] =>
        change (scopes (ro (started a b c d))) with (scopes (ro st)) end.
      by rewrite Hnone.
    + by destruct (readScope_fuel (observer.Scope e) (started e (fc c) readerScope_zero st)).
  - intros sid st Hz. apply N.eqb_eq in Hz.
    by rewrite readScope_run, scope_parent_run, Hz.
Qed.

(** *** The record keeps the event's sequence number *)

Lemma post_ret {A} (a : A) (P : A → Prop) : P a → post (mret a) P.
Proof. by intros Ha st. Qed.

Lemma post_bind {A B} (m : M state A) (f : A → M state B) (P : B → Prop) :
  (∀ a, post (f a) P) → post (m ≫= f) P.
Proof.
  intros Hf st. rewrite bind_run. destruct (m st) as [s' [a| |]]; try done. apply Hf.
Qed.

Lemma post_addMeasurement e m :
  post (addMeasurement e m) (λ e', Sequence e' = Sequence e).
Proof. by intros st. Qed.

Lemma post_addMeasurements ms : ∀ e,
  post (addMeasurements e ms) (λ e', Sequence e' = Sequence e).
Proof.
  induction ms as [|m ms IH]; intros e; [by apply post_ret|].
  cbn [addMeasurements]. intros st. rewrite bind_run.
  change (addMeasurement e m st) with
    (st, Done (set_Stats (Stats e ++ [ {| Measure := stats.Measure m;
                                          Value := stats.Value m;
                                          m_Tags := None |} ]) e)).
  cbv iota beta. exact (IH _ st).
Qed.

Lemma post_start_span_parent (e : observer.Event Ctx) read :
  post (start_span_parent e read) (λ read', Sequence read' = Sequence read).
Proof.
  unfold start_span_parent. destruct (_ && _); [by apply post_ret|].
  apply post_bind. intros [pattrs [pl|]]; [|by apply post_ret].
  apply post_bind. intros psp. by apply post_ret.
Qed.

Lemma dispatch_Sequence (e : observer.Event Ctx) read :
  post (dispatch fc e read) (same_seq read).
Proof.
  intros st. destruct (observer.Type_ e) eqn:Hty.
  - by rewrite dispatch_unhandled by (by rewrite Hty).
  - rewrite dispatch_START_SPAN by done.
    destruct (observer.Context_ e) as [c|]; [|done]. cbv zeta.
    destruct (readScope _ _).2 as [[rattrs x]| |]; try done.
    match goal with |- context [start_span_parent e ?r ?s] =>
      pose proof (post_start_span_parent e r s) as Hp;
      destruct (start_span_parent e r s).2 as [read'| |]; try done
    end.
    cbn [snd]. intros ? [= <-]. by rewrite Hp.
  - rewrite dispatch_FINISH_SPAN by done. cbn [snd].
    destruct (readScope _ _).2 as [[attrs [l|]]| |]; try done.
    destruct (_ !! _); [|done]. by intros ? [= <-].
  - revert st. unfold dispatch. rewrite Hty. cbv zeta.
    apply post_bind. intros [attrs sp]. apply post_bind. intros a.
    destruct sp; [apply post_bind; intros ?|]; apply post_ret; by intros ? [= <-].
  - by rewrite dispatch_unhandled by (by rewrite Hty).
  - rewrite dispatch_scope by auto.
    destruct (scope_parent _ _).2 as [[[m|] osp]| |]; try done.
    cbv zeta. destruct (decide _); [done|].
    destruct osp; [destruct (_ !! _)|]; try done; by intros ? [= <-].
  - by rewrite dispatch_NEW_MEASURE by done.
  - rewrite dispatch_NEW_METRIC by done. by destruct (_ !! _).
  - rewrite dispatch_scope by auto.
    destruct (scope_parent _ _).2 as [[[m|] osp]| |]; try done.
    cbv zeta. destruct (decide _); [done|].
    destruct osp; [destruct (_ !! _)|]; try done; by intros ? [= <-].
  - revert st. unfold dispatch. rewrite Hty. cbv zeta.
    apply post_bind. intros [attrs sp]. intros st. rewrite bind_run.
    match goal with |- context [mbind ?f ?m st] => idtac | _ => idtac end.
    destruct sp as [l|].
    + rewrite bind_run. unfold deref_span at 1.
      destruct (span_objs st !! l) as [sp|]; [|done].
      rewrite ret_run. rewrite bind_run.
      match goal with |- context [addMeasurements ?r ?ms st] =>
        pose proof (post_addMeasurements ms r st) as Hp;
        pose proof (readonly_addMeasurements ms r st) as Hro;
        destruct (addMeasurements r ms st) as [s1 [r1| |]]; try done
      end.
      cbn [fst snd] in Hp, Hro. subst s1. rewrite bind_run.
      cbn in Hp. destruct (stats.Measure _); cbn; intros ? [= <-]; cbn; by rewrite Hp.
    + rewrite ret_run. rewrite bind_run.
      match goal with |- context [addMeasurements ?r ?ms st] =>
        pose proof (post_addMeasurements ms r st) as Hp;
        pose proof (readonly_addMeasurements ms r st) as Hro;
        destruct (addMeasurements r ms st) as [s1 [r1| |]]; try done
      end.
      cbn [fst snd] in Hp, Hro. subst s1. rewrite bind_run.
      cbn in Hp. destruct (stats.Measure _); cbn; intros ? [= <-]; cbn; by rewrite Hp.
  - rewrite dispatch_SET_STATUS by done. cbv zeta.
    destruct (readScope _ _).2 as [[attrs [l|]]| |]; try done.
    + destruct (_ !! _); [|done]. by intros ? [= <-].
    + by intros ? [= <-].
Qed.

(** C10. A NEW_SCOPE, NEW_MEASURE or NEW_METRIC event delivers nothing. For
    every other event type with a case in the switch, when the switch
    returns it returns one record, which carries the event's sequence
    number; that record is handed once to each registered sink, in
    registration order, and for a FINISH_SPAN event the clean-up starts from
    the state in which the deliveries are made and the scope table is the
    one the switch left. *)
Theorem delivery_of_records (e : observer.Event Ctx) st :
  (silent (observer.Type_ e) = true →
     delivered (orderedObserve fc e st).1 = delivered st) ∧
  (handled (observer.Type_ e) = true → silent (observer.Type_ e) = false →
   ∀ st1 r, dispatch fc e (initial_read fc e) st = (st1, Done r) →
     ∃ read,
       r = Some read ∧
       Sequence read = observer.Sequence e ∧
       let st2 := with_delivered
                    (λ d, d ++ map (λ rd, (rd, read)) (readers (ro st))) st1 in
       delivered st2 = delivered st ++ map (λ rd, (rd, read)) (readers (ro st)) ∧
       scopes (ro st2) = scopes (ro st1) ∧
       orderedObserve fc e st =
         (if decide (observer.Type_ e = observer.FINISH_SPAN)
          then cleanupSpan (observer.EventID_ (observer.Scope e)) st2
          else (st2, Done tt)) ∧
       delivered (orderedObserve fc e st).1 =
         delivered st ++ map (λ rd, (rd, read)) (readers (ro st))).
Proof.
  split.
  - intros Hs. rewrite orderedObserve_run.
    pose proof (dispatch_silent e (initial_read fc e) st Hs) as Hnone.
    pose proof (dispatch_quiet e (initial_read fc e) st) as [Hd _].
    destruct (dispatch _ _ _ _) as [st1 [[read|]| |]]; try done.
    by destruct (Hnone read).
  - intros Hh Hs st1 r Hrun.
    pose proof (dispatch_loud e (initial_read fc e) st Hh Hs) as Hsome.
    pose proof (dispatch_quiet e (initial_read fc e) st) as [Hd Hr].
    rewrite Hrun in Hsome, Hd, Hr. cbn [fst snd] in Hsome, Hd, Hr.
    destruct r as [read|]; [|done]. exists read. split; [done|].
    split.
    { pose proof (dispatch_Sequence e (initial_read fc e) st) as Hq.
      rewrite Hrun in Hq. cbn [snd] in Hq. rewrite (Hq read eq_refl).
      unfold initial_read. by destruct (observer.Context_ e). }
    cbv zeta. rewrite orderedObserve_run, Hrun. cbv zeta. rewrite Hr.
    split; [cbn; by rewrite Hd|]. split; [done|]. split; [done|].
    destruct (decide _); [|cbn; by rewrite Hd].
    destruct (cleanupSpan_frame (observer.EventID_ (observer.Scope e))
      (with_delivered (λ d, d ++ map (λ rd, (rd, read)) (readers (ro st))) st1)) as (-> & _).
    cbn. by rewrite Hd.
Qed.

End reader_facts.

End ReaderFacts.

(** * Further facts about the reader *)
Module ReaderProps.
Import reader reader_terms ReaderFacts.

Section reader_props.
Context `{Api} {Ctx : Type} (fc : Ctx → Map).


Lemma readScope_Done id st r :
  (readScope id st).2 = Done r → readScope id st = (st, Done r).
Proof.
  intros Hr. pose proof (readonly_readScope id st) as Hro.
  destruct (readScope id st) as [s o]. cbn in *. by subst.
Qed.

Lemma initial_read_fields (e : observer.Event Ctx) :
  Stats (initial_read fc e) = [] ∧
  Attributes (initial_read fc e) = Some tag_NewEmptyMap ∧
  SpanContext (initial_read fc e) = core.EmptySpanContext ∧
  Status (initial_read fc e) = codes_OK ∧
  Sequence (initial_read fc e) = observer.Sequence e ∧
  Time (initial_read fc e) = observer.Time e ∧
  Tags (initial_read fc e) =
    match observer.Context_ e with
    | Some c => fc c
    | None => Some tag_NewEmptyMap
    end.
Proof. unfold initial_read. by destruct (observer.Context_ e). Qed.

Lemma readScope_Panic id st msg :
  (readScope id st).2 = Panic msg → readScope id st = (st, Panic msg).
Proof.
  intros Hr. pose proof (readonly_readScope id st) as Hro.
  destruct (readScope id st) as [s o]. cbn in *. by subst.
Qed.

Lemma dispatch_ADD_EVENT (e : observer.Event Ctx) read st m osp :
  observer.Type_ e = observer.ADD_EVENT →
  (readScope (observer.Scope e) st).2 = Done (Some m, osp) →
  (∀ l, osp = Some l → is_Some (span_objs st !! l)) →
  dispatch fc e read st =
  (st, Done (Some
     (match osp with
      | Some _ => set_SpanContext (owner_context st osp)
      | None => id
      end (set_Attributes (Some (tag_Apply m (event_update e)))
             (set_Message (observer.String_ e) (set_Type ADD_EVENT read)))))).
Proof.
  intros Hty Hrs Hsp. apply readScope_Done in Hrs.
  unfold dispatch. rewrite Hty.
  rewrite bind_run, Hrs. cbn [Map_Apply]. rewrite bind_run, ret_run.
  destruct osp as [l|]; [|done].
  destruct (Hsp l eq_refl) as [sp Hl].
  rewrite bind_run. unfold deref_span, owner_context. by rewrite Hl.
Qed.

(** X1. An ADD_EVENT event whose scope reference resolves delivers one
    record to each sink and changes nothing else. The record has type
    ADD_EVENT, the event's string as message, and as attributes the scope's
    snapshot with the event's list of key-values applied: the single
    key-value and the mutators of the event are not used. Its span context is
    that of the scope's owner, or empty without an owner. *)
Theorem add_event_record (e : observer.Event Ctx) st m osp :
  observer.Type_ e = observer.ADD_EVENT →
  (readScope (observer.Scope e) st).2 = Done (Some m, osp) →
  (∀ l, osp = Some l → is_Some (span_objs st !! l)) →
  ∃ read,
    orderedObserve fc e st =
      (with_delivered (λ d, d ++ to_readers st read) st, Done tt) ∧
    Type_ read = ADD_EVENT ∧
    Message read = observer.String_ e ∧
    Attributes read = Some (tag_Apply m (event_update e)) ∧
    SpanContext read = owner_context st osp ∧
    Tags read =
      match observer.Context_ e with
      | Some c => fc c
      | None => Some tag_NewEmptyMap
      end ∧
    Sequence read = observer.Sequence e ∧ Time read = observer.Time e.
Proof.
  intros Hty Hrs Hsp.
  rewrite orderedObserve_run, (dispatch_ADD_EVENT _ _ _ m osp) by done.
  rewrite decide_False by (rewrite Hty; discriminate).
  destruct (initial_read_fields e) as (_ & _ & Hsc & _ & Hsq & Htm & Htg).
  eexists. split; [reflexivity|].
  destruct osp; cbn; by rewrite ?Hsc, ?Hsq, ?Htm, ?Htg.
Qed.

Lemma addMeasurement_run e m st :
  addMeasurement e m st = (st, Done (set_Stats (Stats e ++ [measurement_of m]) e)).
Proof. done. Qed.

Lemma addMeasurements_run ms : ∀ e st,
  addMeasurements e ms st = (st, Done (set_Stats (Stats e ++ map measurement_of ms) e)).
Proof.
  induction ms as [|m ms IH]; intros e st.
  - cbn. rewrite app_nil_r. by destruct e.
  - cbn [addMeasurements]. rewrite bind_run, addMeasurement_run, IH.
    cbn. by rewrite <- app_assoc.
Qed.

Lemma dispatch_RECORD_STATS (e : observer.Event Ctx) read st attrs osp :
  observer.Type_ e = observer.RECORD_STATS →
  (readScope (observer.Scope e) st).2 = Done (attrs, osp) →
  (∀ l, osp = Some l → is_Some (span_objs st !! l)) →
  dispatch fc e read st =
  (st, Done (Some
     (set_Stats (Stats read ++ map measurement_of (event_stats e))
        (match osp with
         | Some _ => set_SpanContext (owner_context st osp)
         | None => id
         end (set_Type RECORD_STATS read))))).
Proof.
  intros Hty Hrs Hsp. apply readScope_Done in Hrs.
  unfold dispatch. rewrite Hty.
  rewrite bind_run, Hrs. cbv beta iota. rewrite bind_run.
  assert (∀ r (st : state),
    (read ← addMeasurements r (observer.Stats e);
     read ← match stats.Measure (observer.Stat e) with
            | Some _ => addMeasurement read (observer.Stat e)
            | None => mret read
            end;
     mret (Some read)) st =
    (st, Done (Some (set_Stats (Stats r ++ map measurement_of (event_stats e)) r))))
    as Hrest.
  { intros r st'. rewrite bind_run, addMeasurements_run, bind_run. unfold event_stats.
    destruct (stats.Measure (observer.Stat e)).
    - rewrite addMeasurement_run, ret_run. cbn. by rewrite map_app, app_assoc.
    - rewrite !ret_run. by rewrite app_nil_r. }
  destruct osp as [l|].
  - destruct (Hsp l eq_refl) as [sp Hl].
    rewrite bind_run. unfold deref_span, owner_context. rewrite Hl, ret_run.
    by rewrite Hrest.
  - rewrite ret_run. by rewrite Hrest.
Qed.

(** X2. A RECORD_STATS event whose scope reference resolves delivers one
    record whose measurements are the stats of the event's list, in order,
    followed by the single stat when its measure is set. Every measurement
    has nil tags, since [readMeasureScope] returns nil. The record's own
    attributes stay the empty map and the state is otherwise unchanged. *)
Theorem record_stats_measurements (e : observer.Event Ctx) st attrs osp :
  observer.Type_ e = observer.RECORD_STATS →
  (readScope (observer.Scope e) st).2 = Done (attrs, osp) →
  (∀ l, osp = Some l → is_Some (span_objs st !! l)) →
  ∃ read,
    orderedObserve fc e st =
      (with_delivered (λ d, d ++ to_readers st read) st, Done tt) ∧
    Type_ read = RECORD_STATS ∧
    Stats read = map measurement_of (event_stats e) ∧
    Forall (λ m, m_Tags m = None) (Stats read) ∧
    SpanContext read = owner_context st osp ∧
    Attributes read = Some tag_NewEmptyMap ∧
    Sequence read = observer.Sequence e.
Proof.
  intros Hty Hrs Hsp.
  rewrite orderedObserve_run, (dispatch_RECORD_STATS _ _ _ attrs osp) by done.
  rewrite decide_False by (rewrite Hty; discriminate).
  destruct (initial_read_fields e) as (Hst & Hat & Hsc & _ & Hsq & _).
  eexists. split; [reflexivity|].
  destruct osp; cbn; rewrite ?Hst, ?Hat, ?Hsc, ?Hsq; cbn;
    (repeat split; [by apply Forall_map, Forall_true]).
Qed.


(** X3. A SET_STATUS event on a scope owned by a span writes the status into
    that span object and nowhere else: the other fields of the span, every
    other span, the scope objects and the three tables stay as they were.
    One record of type SET_STATUS with the event's status and the span's
    context is delivered. *)
Theorem set_status_in_place (e : observer.Event Ctx) st attrs l sp :
  observer.Type_ e = observer.SET_STATUS →
  (readScope (observer.Scope e) st).2 = Done (attrs, Some l) →
  span_objs st !! l = Some sp →
  let st' := (orderedObserve fc e st).1 in
  (orderedObserve fc e st).2 = Done tt ∧
  span_objs st' !! l = Some (set_status (observer.Status e) sp) ∧
  (∀ l', l' ≠ l → span_objs st' !! l' = span_objs st !! l') ∧
  scope_objs st' = scope_objs st ∧ ro st' = ro st ∧
  ∃ read,
    delivered st' = delivered st ++ to_readers st read ∧
    Type_ read = SET_STATUS ∧
    Status read = observer.Status e ∧
    SpanContext read = spanContext sp ∧
    Sequence read = observer.Sequence e.
Proof.
  intros Hty Hrs Hl. rewrite orderedObserve_run, dispatch_SET_STATUS by done.
  cbv zeta. rewrite Hrs, Hl. rewrite decide_False by (rewrite Hty; discriminate).
  cbn [fst snd]. split; [done|]. split.
  { cbn. apply list_lookup_insert_eq. by eapply lookup_lt_Some. }
  split. { intros l' Hne. cbn. by apply list_lookup_insert_ne. }
  split; [done|]. split; [done|].
  destruct (initial_read_fields e) as (_ & _ & _ & _ & Hsq & _).
  eexists. split; [reflexivity|]. cbn. by rewrite Hsq.
Qed.

Lemma dispatch_Status (e : observer.Event Ctx) read :
  observer.Type_ e ≠ observer.SET_STATUS →
  post (dispatch fc e read)
       (λ r, ∀ read', r = Some read' → Status read' = Status read).
Proof.
  intros Hne st. destruct (observer.Type_ e) eqn:Hty; try done.
  - by rewrite dispatch_unhandled by (by rewrite Hty).
  - rewrite dispatch_START_SPAN by done.
    destruct (observer.Context_ e) as [c|]; [|done]. cbv zeta.
    destruct (readScope _ _).2 as [[rattrs x]| |]; try done.
    match goal with |- context [start_span_parent e ?r ?s] =>
      assert (post (start_span_parent e r) (λ read', Status read' = Status r)) as Hp;
      [|specialize (Hp s); destruct (start_span_parent e r s).2 as [read'| |]; try done]
    end.
    { unfold start_span_parent. destruct (_ && _); [by apply post_ret|].
      apply post_bind. intros [pattrs [pl|]]; [|by apply post_ret].
      apply post_bind. intros psp. by apply post_ret. }
    cbn [snd]. intros ? [= <-]. by rewrite Hp.
  - rewrite dispatch_FINISH_SPAN by done. cbn [snd].
    destruct (readScope _ _).2 as [[attrs [l|]]| |]; try done.
    destruct (_ !! _); [|done]. by intros ? [= <-].
  - revert st. unfold dispatch. rewrite Hty. cbv zeta.
    apply post_bind. intros [attrs sp]. apply post_bind. intros a.
    destruct sp; [apply post_bind; intros ?|]; apply post_ret; by intros ? [= <-].
  - by rewrite dispatch_unhandled by (by rewrite Hty).
  - rewrite dispatch_scope by auto.
    destruct (scope_parent _ _).2 as [[[m|] osp]| |]; try done.
    cbv zeta. destruct (decide _); [done|].
    destruct osp; [destruct (_ !! _)|]; try done; by intros ? [= <-].
  - by rewrite dispatch_NEW_MEASURE by done.
  - rewrite dispatch_NEW_METRIC by done. by destruct (_ !! _).
  - rewrite dispatch_scope by auto.
    destruct (scope_parent _ _).2 as [[[m|] osp]| |]; try done.
    cbv zeta. destruct (decide _); [done|].
    destruct osp; [destruct (_ !! _)|]; try done; by intros ? [= <-].
  - revert st. unfold dispatch. rewrite Hty. cbv zeta.
    apply post_bind. intros [attrs sp] st. rewrite bind_run.
    destruct sp as [l|].
    + rewrite bind_run. unfold deref_span at 1.
      destruct (span_objs st !! l) as [sp|]; [|done].
      rewrite ret_run, bind_run, addMeasurements_run, bind_run.
      destruct (stats.Measure _); cbn; by intros ? [= <-].
    + rewrite ret_run, bind_run, addMeasurements_run, bind_run.
      destruct (stats.Measure _); cbn; by intros ? [= <-].
Qed.

(** X4. The status kept in a span object is never read back: whatever the
    state, a record delivered for an event of any type other than SET_STATUS
    carries the zero status, also the FINISH_SPAN record of a span whose
    status was set before. *)
Theorem status_not_reported (e : observer.Event Ctx) st r read :
  observer.Type_ e ≠ observer.SET_STATUS →
  (r, read) ∈ delivered (orderedObserve fc e st).1 →
  (r, read) ∈ delivered st ∨ Status read = codes_OK.
Proof.
  intros Hne. rewrite orderedObserve_run.
  pose proof (dispatch_Status e (initial_read fc e) Hne st) as Hp.
  pose proof (dispatch_quiet fc e (initial_read fc e) st) as [Hd _].
  destruct (dispatch _ _ _ _) as [st1 [[read1|]| |]]; cbn [fst snd] in *;
    try (rewrite Hd; by left).
  specialize (Hp read1 eq_refl).
  destruct (initial_read_fields e) as (_ & _ & _ & Hst & _). rewrite Hst in Hp.
  assert (∀ s, delivered s = delivered st1 ++ to_readers st1 read1 →
            (r, read) ∈ delivered s → (r, read) ∈ delivered st ∨ Status read = codes_OK)
    as Hin.
  { intros s -> [Hold|Hnew]%elem_of_app.
    - left. by rewrite <- Hd.
    - right. unfold to_readers in Hnew. apply list_elem_of_fmap in Hnew as (? & [= _ ->] & _).
      done. }
  destruct (decide _).
  - apply Hin.
    by destruct (cleanupSpan_frame (observer.EventID_ (observer.Scope e))
      (with_delivered (λ d, d ++ map (λ r, (r, read1)) (readers (ro st1))) st1)) as (-> & _).
  - by apply Hin.
Qed.



(** X5. NEW_MEASURE followed by NEW_METRIC naming it: both return, the
    measure is stored under the first event's sequence number with the
    event's string as name, the metric is stored under the second event's
    sequence number and holds that measure. No other key of the two tables
    changes, the scope table stays as it was and nothing is delivered. *)
Theorem metric_of_measure (e1 e2 : observer.Event Ctx) st :
  observer.Type_ e1 = observer.NEW_MEASURE →
  observer.Type_ e2 = observer.NEW_METRIC →
  observer.EventID_ (observer.Scope e2) = observer.Sequence e1 →
  let st1 := (orderedObserve fc e1 st).1 in
  let st2 := (orderedObserve fc e2 st1).1 in
  (orderedObserve fc e1 st).2 = Done tt ∧
  (orderedObserve fc e2 st1).2 = Done tt ∧
  measures (ro st2) !! observer.Sequence e1 =
    Some {| measure_name := observer.String_ e1 |} ∧
  metrics (ro st2) !! observer.Sequence e2 =
    Some {| metric_measure := {| measure_name := observer.String_ e1 |} |} ∧
  (∀ k, k ≠ observer.Sequence e1 → measures (ro st2) !! k = measures (ro st) !! k) ∧
  (∀ k, k ≠ observer.Sequence e2 → metrics (ro st2) !! k = metrics (ro st) !! k) ∧
  scopes (ro st2) = scopes (ro st) ∧
  delivered st2 = delivered st.
Proof.
  intros Hty1 Hty2 Href. cbv zeta.
  rewrite (orderedObserve_run fc e1), dispatch_NEW_MEASURE by done. cbn [fst snd].
  rewrite (orderedObserve_run fc e2), dispatch_NEW_METRIC by done.
  rewrite Href. cbn [ro with_measures measures]. rewrite lookup_insert_eq.
  cbn [fst snd]. split; [done|]. split; [done|]. cbn.
  split; [by rewrite lookup_insert_eq|]. split; [by rewrite lookup_insert_eq|].
  split; [intros k Hk; by rewrite lookup_insert_ne|].
  split; [intros k Hk; by rewrite lookup_insert_ne|]. done.
Qed.

(** X6. A FINISH_SPAN event whose scope reference is 0, or names a scope node
    that no span owns, panics with "span not found" and leaves the whole
    state as it was. *)
Theorem finish_without_span_panics (e : observer.Event Ctx) st :
  observer.Type_ e = observer.FINISH_SPAN →
  (observer.EventID_ (observer.Scope e) = 0 ∨
   ∃ p sc, scopes (ro st) !! observer.EventID_ (observer.Scope e) = Some (IScope p) ∧
           scope_objs st !! p = Some sc ∧ span sc = None) →
  orderedObserve fc e st = (st, Panic "span not found").
Proof.
  intros Hty Href. rewrite orderedObserve_run, dispatch_FINISH_SPAN by done.
  rewrite readScope_run. cbn [snd].
  destruct Href as [->|(p & sc & Hent & Hsc & Hsp)]; [done|].
  destruct (_ =? 0); [done|]. rewrite Hent. cbn. rewrite Hsc. cbn. by rewrite Hsp.
Qed.

Lemma cleanupSpan_deletes id st :
  id ≠ 0 → scopes (ro (cleanupSpan id st).1) !! id = None.
Proof.
  intros Hid. unfold cleanupSpan. rewrite cleanup_loop_S by done.
  destruct (scopes (ro st) !! id) as [ent|] eqn:Hent; [|done].
  destruct (parent_of st ent) as [next|]; [|cbn; by rewrite lookup_delete_eq].
  destruct (cleanup_loop_shrinks (size (scopes (ro st))) next (with_scopes (delete id) st))
    as (t & Hsub & ->).
  cbn in *. eapply lookup_weaken_None; [|done]. by rewrite lookup_delete_eq.
Qed.

(** X7. Once a FINISH_SPAN event has been processed, its scope reference is
    gone from the table, so a second FINISH_SPAN event with the same
    reference panics with "scope not found" and changes nothing. *)
Theorem finish_twice_panics (e e' : observer.Event Ctx) st :
  observer.Type_ e = observer.FINISH_SPAN →
  observer.Type_ e' = observer.FINISH_SPAN →
  observer.EventID_ (observer.Scope e') = observer.EventID_ (observer.Scope e) →
  (orderedObserve fc e st).2 = Done tt →
  let st1 := (orderedObserve fc e st).1 in
  scopes (ro st1) !! observer.EventID_ (observer.Scope e) = None ∧
  orderedObserve fc e' st1 = (st1, Panic "scope not found").
Proof.
  intros Hty Hty' Href Hok. cbv zeta.
  assert (observer.EventID_ (observer.Scope e) ≠ 0) as Hid.
  { intros Hz. rewrite orderedObserve_run, dispatch_FINISH_SPAN in Hok by done.
    rewrite readScope_run in Hok. cbn [snd] in Hok. by rewrite Hz in Hok. }
  assert (scopes (ro (orderedObserve fc e st).1) !! observer.EventID_ (observer.Scope e)
          = None) as Hnone.
  { rewrite orderedObserve_run, dispatch_FINISH_SPAN in Hok |- * by done.
    destruct (readScope _ _).2 as [[attrs [l|]]| |]; try done.
    destruct (span_objs st !! l); [|done].
    cbv zeta. rewrite decide_True by done. by apply cleanupSpan_deletes. }
  split; [done|].
  rewrite (orderedObserve_run fc e'), dispatch_FINISH_SPAN by done.
  rewrite readScope_run. cbn [snd]. rewrite Href.
  destruct (_ =? 0) eqn:Hz; [by apply N.eqb_eq in Hz|]. by rewrite Hnone.
Qed.


Lemma cleanup_loop_enough fuel : ∀ fuel' id st,
  (size (scopes (ro st)) < fuel)%nat → (size (scopes (ro st)) < fuel')%nat →
  cleanup_loop fuel id st = cleanup_loop fuel' id st.
Proof.
  induction fuel as [|fuel IH]; intros fuel' id st H1 H2; [lia|].
  destruct fuel' as [|fuel']; [lia|].
  destruct (decide (id = 0)) as [->|Hid]; [by rewrite !cleanup_loop_0|].
  rewrite !cleanup_loop_S by done.
  destruct (scopes (ro st) !! id) as [ent|] eqn:Hent; [|done].
  destruct (parent_of st ent) as [next|]; [|done].
  apply size_delete_present in Hent. apply IH; cbn; lia.
Qed.

(** X8. The loop of [cleanupSpan] ends on every table, also one whose parent
    links form a cycle: it makes no more iterations than the table has keys,
    plus one, so any larger bound gives the same result. *)
Theorem cleanupSpan_bounded id st k :
  cleanup_loop (S (size (scopes (ro st))) + k) id st = cleanupSpan id st ∧
  (cleanupSpan id st).2 ≠ OutOfFuel.
Proof.
  split; [|apply cleanupSpan_terminates].
  unfold cleanupSpan. apply cleanup_loop_enough; lia.
Qed.

Lemma walk_undelete st id next ids :
  walk (with_scopes (delete id) st) next ids → walk st next ids.
Proof.
  induction 1 as [|k ent nx ids Hk Hent Hpar _ IH]; [constructor|].
  cbn in Hent. apply lookup_delete_Some in Hent as [_ Hent].
  by apply (walk_step st k ent nx ids).
Qed.

Lemma cleanup_loop_Done_walk fuel : ∀ id st st',
  cleanup_loop fuel id st = (st', Done tt) → ∃ ids, walk st id ids.
Proof.
  induction fuel as [|fuel IH]; intros id st st' Hrun.
  - destruct (decide (id = 0)) as [->|Hid]; [exists []; constructor|].
    cbn in Hrun. destruct (id =? 0) eqn:Hz; [by apply N.eqb_eq in Hz|done].
  - destruct (decide (id = 0)) as [->|Hid]; [exists []; constructor|].
    rewrite cleanup_loop_S in Hrun by done.
    destruct (scopes (ro st) !! id) as [ent|] eqn:Hent; [|done].
    destruct (parent_of st ent) as [next|] eqn:Hpar; [|done].
    apply IH in Hrun as [ids Hw]. apply walk_undelete in Hw.
    exists (id :: ids). by apply (walk_step st id ent next ids).
Qed.

(** X9. [cleanupSpan] returns exactly when following the parent links from
    the identifier reaches 0 through nodes that are all in the table, which
    excludes a missing node and a cycle; otherwise it panics. *)
Theorem cleanupSpan_returns_iff_walk id st :
  (cleanupSpan id st).2 = Done tt ↔ ∃ ids, walk st id ids.
Proof.
  split.
  - intros Hrun. destruct (cleanupSpan id st) as [st' o] eqn:Hc. cbn in Hrun. subst o.
    by apply cleanup_loop_Done_walk in Hc.
  - intros [ids Hw]. unfold cleanupSpan.
    pose proof (cleanup_loop_walk ids st id 0 Hw) as Hrun.
    rewrite Nat.add_0_r in Hrun. by rewrite Hrun.
Qed.


Lemma readScope_started id st r (e : observer.Event Ctx) tags sc :
  (readScope id st).2 = Done r →
  readScope id (started e tags sc st) = (started e tags sc st, Done r).
Proof.
  rewrite !readScope_run. cbn [snd]. rewrite ro_started. intros Hr. f_equal.
  destruct (_ =? 0); [done|].
  destruct (scopes (ro st) !! _) as [ent|]; [|done].
  destruct (resolve st ent) as [r'|] eqn:Hres; [|done].
  by rewrite (resolve_evolves st _ ent r' (evolves_started e tags sc st) Hres).
Qed.

(** X10. The local-parent branch of the START_SPAN case: when the parent
    reference of the event has an event identifier other than 0 that
    resolves to a node owned by a span, the record's parent is the stored
    span context of that span (the span context carried by the reference is
    not used) and its parent attributes are the snapshot of the referenced
    node. *)
Theorem start_span_local_parent (e : observer.Event Ctx) st c rattrs x pattrs pl psp :
  observer.Type_ e = observer.START_SPAN →
  observer.Context_ e = Some c →
  observer.EventID_ (observer.Parent e) ≠ 0 →
  (readScope (observer.Scope e) st).2 = Done (rattrs, x) →
  (readScope (observer.Parent e) st).2 = Done (pattrs, Some pl) →
  span_objs st !! pl = Some psp →
  ∃ read,
    (orderedObserve fc e st).2 = Done tt ∧
    delivered (orderedObserve fc e st).1 = delivered st ++ to_readers st read ∧
    Type_ read = START_SPAN ∧
    Parent read = spanContext psp ∧
    ParentAttributes read = pattrs ∧
    Attributes read = rattrs ∧
    Name read = observer.String_ e ∧
    SpanContext read = observer.SpanContext (observer.Scope e) ∧
    Tags read = fc c.
Proof.
  intros Hty Hc Hp Hrs Hps Hpl.
  rewrite orderedObserve_run, dispatch_START_SPAN by done. rewrite Hc. cbv zeta.
  rewrite (readScope_started _ _ _ _ _ _ Hrs). cbn [snd].
  unfold start_span_parent.
  destruct (observer.EventID_ (observer.Parent e) =? 0) eqn:Hz;
    [by apply N.eqb_eq in Hz|].
  cbn [andb]. rewrite bind_run, (readScope_started _ _ _ _ _ _ Hps).
  cbv beta iota. rewrite bind_run. unfold deref_span.
  rewrite span_objs_started, (lookup_app_l_Some _ _ _ _ Hpl), ret_run.
  cbn [snd]. rewrite decide_False by (rewrite Hty; discriminate).
  eexists. split; [reflexivity|]. split; [reflexivity|].
  destruct (initial_read_fields e) as (_ & _ & _ & _ & _ & _ & Htg).
  rewrite Hc in Htg. cbn. by rewrite Htg.
Qed.

(** X11. After a START_SPAN event with a sequence number other than 0,
    [readScope] of that sequence number returns the snapshot that the
    event's scope reference resolved to, and a new span object that holds
    the event's string, time, context tags and span context, with the zero
    status. *)
Theorem start_span_round_trip (e : observer.Event Ctx) st c rattrs x :
  observer.Type_ e = observer.START_SPAN →
  observer.Context_ e = Some c →
  observer.Sequence e ≠ 0 →
  (readScope (observer.Scope e) st).2 = Done (rattrs, x) →
  (orderedObserve fc e st).2 = Done tt →
  let st' := (orderedObserve fc e st).1 in
  ∃ l sp,
    (∀ sc, readScope {| observer.EventID_ := observer.Sequence e;
                        observer.SpanContext := sc |} st' =
           (st', Done (rattrs, Some l))) ∧
    span_objs st !! l = None ∧
    span_objs st' !! l = Some sp ∧
    name sp = observer.String_ e ∧ start sp = observer.Time e ∧
    startTags sp = fc c ∧
    spanContext sp = observer.SpanContext (observer.Scope e) ∧
    status sp = codes_OK.
Proof.
  intros Hty Hc Hseq Hrs Hok. cbv zeta.
  destruct (orderedObserve fc e st) as [st' o] eqn:Hrun. cbn [fst snd] in *. subst o.
  apply orderedObserve_START_SPAN in Hrun as (c' & rattrs' & x' & read & Hc' & Hrs' & _ & ->);
    [|done].
  rewrite Hc in Hc'. injection Hc' as <-.
  rewrite (readScope_started _ _ _ _ _ _ Hrs) in Hrs'. injection Hrs' as <- <-.
  exists (length (span_objs st)), (started_span e (fc c) (length (scope_objs st))).
  split; [|split; [by apply lookup_ge_None_2|split; [|done]]].
  - intros sc. rewrite readScope_run. f_equal. cbn [observer.EventID_].
    destruct (_ =? 0) eqn:Hz; [by apply N.eqb_eq in Hz|].
    cbn. rewrite lookup_insert_eq. cbn.
    rewrite lookup_app_r, Nat.sub_diag by done. cbn.
    by rewrite lookup_app_r, Nat.sub_diag by done.
  - cbn. by rewrite lookup_app_r, Nat.sub_diag by done.
Qed.


Lemma scope_parent_of_readScope id st r :
  (readScope id st).2 = Done r → (scope_parent id st).2 = Done r.
Proof.
  rewrite readScope_run, scope_parent_run. cbn [snd].
  destruct (_ =? 0); [done|]. by destruct (scopes (ro st) !! _).
Qed.

(** X12. After a NEW_SCOPE or MODIFY_ATTR event with a sequence number other
    than 0, [readScope] of that sequence number returns the referenced
    scope's snapshot with the event's delta applied, and the same owner. For
    a scope reference of 0 the snapshot is the delta applied to the empty map
    and there is no owner. *)
Theorem scope_round_trip (e : observer.Event Ctx) st m osp :
  observer.Type_ e = observer.NEW_SCOPE ∨ observer.Type_ e = observer.MODIFY_ATTR →
  observer.Sequence e ≠ 0 →
  (readScope (observer.Scope e) st).2 = Done (Some m, osp) →
  (∀ l, osp = Some l → is_Some (span_objs st !! l)) →
  let st' := (orderedObserve fc e st).1 in
  (orderedObserve fc e st).2 = Done tt ∧
  ∀ sc, readScope {| observer.EventID_ := observer.Sequence e;
                     observer.SpanContext := sc |} st' =
        (st', Done (Some (tag_Apply m (update_of e)), osp)).
Proof.
  intros Hty Hseq Hrs Hsp. cbv zeta. apply scope_parent_of_readScope in Hrs.
  assert (∀ s sc, scopes (ro s) = <[observer.Sequence e := IScope (length (scope_objs st))]>
                                    (scopes (ro st)) →
            scope_objs s = scope_objs st ++
              [ {| span := osp; parent := observer.EventID_ (observer.Scope e);
                   attributes := Some (tag_Apply m (update_of e)) |} ] →
            readScope {| observer.EventID_ := observer.Sequence e;
                         observer.SpanContext := sc |} s =
            (s, Done (Some (tag_Apply m (update_of e)), osp))) as Hread.
  { intros s sc Ht Ho. rewrite readScope_run. f_equal. cbn [observer.EventID_].
    destruct (_ =? 0) eqn:Hz; [by apply N.eqb_eq in Hz|].
    rewrite Ht, lookup_insert_eq. cbn. rewrite Ho.
    by rewrite lookup_app_r, Nat.sub_diag by done. }
  rewrite orderedObserve_run, dispatch_scope, Hrs by done. cbv zeta.
  destruct (decide (observer.Type_ e = observer.NEW_SCOPE)) as [Hn|Hn].
  - cbn [fst snd]. split; [done|]. intros sc. by apply Hread.
  - destruct osp as [l|].
    + destruct (Hsp l eq_refl) as [sp ->].
      rewrite decide_False by (destruct Hty as [Hty|Hty]; rewrite Hty; discriminate).
      cbn [fst snd]. split; [done|]. intros sc. by apply Hread.
    + rewrite decide_False by (destruct Hty as [Hty|Hty]; rewrite Hty; discriminate).
      cbn [fst snd]. split; [done|]. intros sc. by apply Hread.
Qed.

(** X13. The record of a MODIFY_ATTR event has the new snapshot as
    attributes. When a span owns the referenced scope, the record carries
    that span's context and the tags of the span's start, not the tags of
    the event's own context; without an owner the span context is empty and
    the tags are those of the event's context. *)
Theorem modify_attr_record (e : observer.Event Ctx) st m osp :
  observer.Type_ e = observer.MODIFY_ATTR →
  (readScope (observer.Scope e) st).2 = Done (Some m, osp) →
  (∀ l, osp = Some l → is_Some (span_objs st !! l)) →
  ∃ read,
    (orderedObserve fc e st).2 = Done tt ∧
    delivered (orderedObserve fc e st).1 = delivered st ++ to_readers st read ∧
    Type_ read = MODIFY_ATTR ∧
    Attributes read = Some (tag_Apply m (update_of e)) ∧
    Sequence read = observer.Sequence e ∧
    match osp with
    | Some l =>
        ∀ sp, span_objs st !! l = Some sp →
              SpanContext read = spanContext sp ∧ Tags read = startTags sp
    | None =>
        SpanContext read = core.EmptySpanContext ∧
        Tags read = match observer.Context_ e with
                    | Some c => fc c
                    | None => Some tag_NewEmptyMap
                    end
    end.
Proof.
  intros Hty Hrs Hsp. apply scope_parent_of_readScope in Hrs.
  rewrite orderedObserve_run, dispatch_scope, Hrs by auto. cbv zeta.
  rewrite decide_False by (rewrite Hty; discriminate).
  destruct (initial_read_fields e) as (_ & _ & Hsc & _ & Hsq & _ & Htg).
  destruct osp as [l|].
  - destruct (Hsp l eq_refl) as [sp Hl]. rewrite Hl.
    rewrite decide_False by (rewrite Hty; discriminate).
    eexists. split; [reflexivity|]. split; [reflexivity|]. cbn.
    rewrite Hsq. repeat split; try done; congruence.
  - rewrite decide_False by (rewrite Hty; discriminate).
    eexists. split; [reflexivity|]. split; [reflexivity|]. cbn.
    by rewrite Hsq, Hsc, Htg.
Qed.


Lemma dispatch_table (e : observer.Event Ctx) read st :
  scopes (ro (dispatch fc e read st).1) = scopes (ro st) ∨
  ∃ ent, scopes (ro (dispatch fc e read st).1) =
         <[observer.Sequence e := ent]> (scopes (ro st)).
Proof.
  destruct (observer.Type_ e) eqn:Hty.
  - rewrite dispatch_unhandled by (by rewrite Hty). by left.
  - rewrite dispatch_START_SPAN by done.
    destruct (observer.Context_ e) as [c|]; [|by left]. cbv zeta.
    destruct (readScope _ _).2 as [[rattrs x]| |]; [|by left..].
    destruct (start_span_parent _ _ _).2; [right; by eexists|by left..].
  - rewrite dispatch_FINISH_SPAN by done. by left.
  - rewrite (dispatch_readonly fc e read) by auto. by left.
  - rewrite dispatch_unhandled by (by rewrite Hty). by left.
  - rewrite dispatch_scope by auto.
    destruct (scope_parent _ _).2 as [[[m|] osp]| |]; [|by left..].
    cbv zeta. destruct (decide _); [right; by eexists|].
    destruct osp; [destruct (_ !! _)|]; right; by eexists.
  - rewrite dispatch_NEW_MEASURE by done. by left.
  - rewrite dispatch_NEW_METRIC by done. destruct (_ !! _); by left.
  - rewrite dispatch_scope by auto.
    destruct (scope_parent _ _).2 as [[[m|] osp]| |]; [|by left..].
    cbv zeta. destruct (decide _); [right; by eexists|].
    destruct osp; [destruct (_ !! _)|]; right; by eexists.
  - rewrite (dispatch_readonly fc e read) by auto. by left.
  - rewrite dispatch_SET_STATUS by done. cbv zeta.
    destruct (readScope _ _).2 as [[attrs [l|]]| |]; try by left.
    destruct (_ !! _); by left.
Qed.

Lemma orderedObserve_table (e : observer.Event Ctx) st :
  observer.Type_ e ≠ observer.FINISH_SPAN →
  scopes (ro (orderedObserve fc e st).1) = scopes (ro st) ∨
  ∃ ent, scopes (ro (orderedObserve fc e st).1) =
         <[observer.Sequence e := ent]> (scopes (ro st)).
Proof.
  intros Hne. rewrite orderedObserve_run.
  pose proof (dispatch_table e (initial_read fc e) st) as Ht.
  destruct (dispatch _ _ _ _) as [st1 [[read|]| |]]; cbn [fst snd] in *; try done.
  by rewrite decide_False by done.
Qed.

(** X14. Processing an event other than FINISH_SPAN, whether it returns or
    panics, leaves what every identifier other than the event's own sequence
    number resolves to as it was: snapshots are never changed in place. *)
Theorem other_ids_unaffected (e : observer.Event Ctx) st id r :
  observer.Type_ e ≠ observer.FINISH_SPAN →
  observer.EventID_ id ≠ observer.Sequence e →
  (readScope id st).2 = Done r →
  (readScope id (orderedObserve fc e st).1).2 = Done r.
Proof.
  intros Hne Hid. rewrite !readScope_run. cbn [snd].
  destruct (_ =? 0); [done|].
  assert (scopes (ro (orderedObserve fc e st).1) !! observer.EventID_ id =
          scopes (ro st) !! observer.EventID_ id) as ->.
  { destruct (orderedObserve_table e st Hne) as [->|[ent ->]]; [done|].
    by rewrite lookup_insert_ne. }
  destruct (scopes (ro st) !! _) as [ent|]; [|done].
  destruct (resolve st ent) as [r'|] eqn:Hres; [|done].
  by rewrite (resolve_evolves st _ ent r' (orderedObserve_evolves fc e st) Hres).
Qed.


Lemma orderedObserve_deliveries (e : observer.Event Ctx) st :
  ∃ reads,
    delivered (orderedObserve fc e st).1 = delivered st ++ flat_map (to_readers st) reads ∧
    map Sequence reads `sublist_of` [observer.Sequence e] ∧
    readers (ro (orderedObserve fc e st).1) = readers (ro st).
Proof.
  rewrite orderedObserve_run.
  pose proof (dispatch_quiet fc e (initial_read fc e) st) as [Hd Hr].
  pose proof (dispatch_Sequence fc e (initial_read fc e) st) as Hq.
  destruct (initial_read_fields e) as (_ & _ & _ & _ & Hsq & _).
  destruct (dispatch _ _ _ _) as [st1 [[read|]| |]]; cbn [fst snd] in *.
  2-4: exists []; cbn; rewrite app_nil_r; split; [done|]; split; [apply sublist_nil_l|done].
  exists [read]. cbn [map flat_map]. rewrite (Hq read eq_refl), Hsq, app_nil_r.
  unfold to_readers. rewrite <- Hr, <- Hd. split; [|split; [done|]].
  - destruct (decide _); [|done].
    by destruct (cleanupSpan_frame (observer.EventID_ (observer.Scope e))
      (with_delivered (λ d, d ++ map (λ r, (r, read)) (readers (ro st1))) st1)) as (-> & _).
  - destruct (decide _); [|done].
    by destruct (cleanupSpan_frame (observer.EventID_ (observer.Scope e))
      (with_delivered (λ d, d ++ map (λ r, (r, read)) (readers (ro st1))) st1))
      as (_ & _ & _ & -> & _).
Qed.

Lemma observe_all_deliveries (es : list (observer.Event Ctx)) : ∀ st,
  ∃ reads,
    delivered (observe_all fc es st).1 = delivered st ++ flat_map (to_readers st) reads ∧
    map Sequence reads `sublist_of` map observer.Sequence es ∧
    readers (ro (observe_all fc es st).1) = readers (ro st).
Proof.
  induction es as [|e es IH]; intros st.
  { exists []. cbn. by rewrite app_nil_r. }
  cbn [observe_all]. unfold Observe. rewrite bind_run.
  destruct (orderedObserve_deliveries e st) as (reads1 & Hd1 & Hs1 & Hr1).
  destruct (orderedObserve fc e st) as [s1 [[]| |]]; cbn [fst snd] in *.
  - destruct (IH s1) as (reads2 & Hd2 & Hs2 & Hr2).
    exists (reads1 ++ reads2). rewrite Hd2, Hd1, flat_map_app, <- app_assoc.
    replace (flat_map (to_readers s1) reads2) with (flat_map (to_readers st) reads2)
      by (unfold to_readers; by rewrite Hr1).
    split; [done|]. split; [|congruence].
    rewrite map_app. cbn [map].
    change (observer.Sequence e :: ?l) with ([observer.Sequence e] ++ l).
    by apply sublist_app.
  - exists reads1. split; [done|]. split; [|done].
    cbn [map]. etrans; [done|]. apply sublist_skip, sublist_nil_l.
  - exists reads1. split; [done|]. split; [|done].
    cbn [map]. etrans; [done|]. apply sublist_skip, sublist_nil_l.
Qed.

Lemma received_app r (a b : list (Reader * Event)) :
  received r (a ++ b) = received r a ++ received r b.
Proof. unfold received. by rewrite filter_app, fmap_app. Qed.

Lemma received_block (rs : list Reader) r read :
  NoDup rs → r ∈ rs → received r (map (λ r', (r', read)) rs) = [read].
Proof.
  unfold received. induction 1 as [|r' rs Hnin Hnd IH]; [by intros ?%elem_of_nil|].
  intros Hin. cbn [map]. rewrite filter_cons. cbn [fst].
  destruct (decide (r' = r)) as [->|Hne].
  - cbn. f_equal. clear IH Hin. induction rs as [|r'' rs IH]; [done|].
    cbn [map]. rewrite filter_cons. cbn [fst].
    apply not_elem_of_cons in Hnin as [Hne Hnin]. apply NoDup_cons in Hnd as [_ Hnd].
    rewrite decide_False by done. by apply IH.
  - apply elem_of_cons in Hin as [->|Hin]; [done|]. by apply IH.
Qed.

Lemma received_blocks (rs : list Reader) r reads :
  NoDup rs → r ∈ rs →
  received r (flat_map (λ read, map (λ r', (r', read)) rs) reads) = reads.
Proof.
  intros Hnd Hin. induction reads as [|read reads IH]; [done|].
  cbn [flat_map]. by rewrite received_app, received_block, IH.
Qed.

(** X15. Over any stream of events every sink receives the same records in
    the same order: with each sink registered once, there is one sequence of
    records, at most one per event, in stream order and carrying the
    sequence number of its event, that every sink is handed in full and in
    that order. *)
Theorem readers_see_same_records (es : list (observer.Event Ctx)) st :
  NoDup (readers (ro st)) →
  ∃ reads,
    map Sequence reads `sublist_of` map observer.Sequence es ∧
    ∀ r, r ∈ readers (ro st) →
         received r (delivered (observe_all fc es st).1) =
         received r (delivered st) ++ reads.
Proof.
  intros Hnd. destruct (observe_all_deliveries es st) as (reads & Hd & Hs & _).
  exists reads. split; [done|]. intros r Hin.
  rewrite Hd, received_app. f_equal. by apply received_blocks.
Qed.

Lemma written_deliveries (format_EventToString : Event → string) st :
  stdout.written format_EventToString st =
  map (λ call, format_EventToString call.2) (delivered st).
Proof.
  unfold stdout.written.
  assert (∀ l acc, foldl (λ out call, stdout.Read format_EventToString call.2 out) acc l =
                   acc ++ map (λ call : Reader * Event, format_EventToString call.2) l)
    as Hfold.
  { induction l as [|c l IH]; intros acc; cbn; [by rewrite app_nil_r|].
    rewrite IH. unfold stdout.Read. by rewrite <- app_assoc. }
  by rewrite Hfold.
Qed.

(** X25. The stdout exporter prints what the observer delivers and nothing
    else: after any stream of events observed from a new exporter, the calls
    of [Read] that the observer made are exactly one call on the exporter's
    sink per delivered record, and standard output holds the formatted
    records of these calls, one string per call and in the order of the
    calls; the records follow the stream order, at most one per event and
    with the sequence number of its event. *)
Theorem stdout_writes_each_record (format_EventToString : Event → string)
    (es : list (observer.Event Ctx)) :
  ∃ reads,
    delivered (observe_all fc es stdout.New).1 =
      map (λ read, (stdout.stdoutLog, read)) reads ∧
    stdout.written format_EventToString (observe_all fc es stdout.New).1 =
      map format_EventToString reads ∧
    stdout.written format_EventToString (observe_all fc es stdout.New).1 =
      map (λ call, format_EventToString call.2)
          (delivered (observe_all fc es stdout.New).1) ∧
    length (stdout.written format_EventToString (observe_all fc es stdout.New).1) =
      length (delivered (observe_all fc es stdout.New).1) ∧
    map Sequence reads `sublist_of` map observer.Sequence es.
Proof.
  destruct (observe_all_deliveries es stdout.New) as (reads & Hd & Hs & _).
  assert (delivered (observe_all fc es stdout.New).1 =
          map (λ read, (stdout.stdoutLog, read)) reads) as Hcalls.
  { rewrite Hd. cbn. clear.
    induction reads as [|read reads IH]; [done|]. cbn. by rewrite IH. }
  exists reads. rewrite written_deliveries, Hcalls.
  split; [done|]. split; [|split; [done|split; [|done]]].
  - clear. induction reads as [|read reads IH]; [done|]. cbn. by rewrite IH.
  - by rewrite !length_map.
Qed.


Lemma readScope_wf id st :
  well_formed st →
  (readScope id st).2 = Panic "scope not found" ∨
  ∃ m osp, (readScope id st).2 = Done (Some m, osp) ∧
           ∀ l, osp = Some l → is_Some (span_objs st !! l).
Proof.
  intros Hwf. rewrite readScope_run. cbn [snd].
  destruct (_ =? 0); [right; by exists tag_NewEmptyMap, None|].
  destruct (scopes (ro st) !! _) as [ent|] eqn:Hent; [|by left].
  destruct (Hwf _ _ Hent) as (m & osp & -> & Hsp). right. eauto.
Qed.

Lemma scope_parent_wf id st :
  well_formed st →
  (scope_parent id st).2 = Panic "parent scope not found" ∨
  ∃ m osp, (scope_parent id st).2 = Done (Some m, osp) ∧
           ∀ l, osp = Some l → is_Some (span_objs st !! l).
Proof.
  intros Hwf. rewrite scope_parent_run. cbn [snd].
  destruct (_ =? 0); [right; by exists tag_NewEmptyMap, None|].
  destruct (scopes (ro st) !! _) as [ent|] eqn:Hent; [|by left].
  destruct (Hwf _ _ Hent) as (m & osp & -> & Hsp). right. eauto.
Qed.

Lemma well_formed_started (e : observer.Event Ctx) tags sc st :
  well_formed st → well_formed (started e tags sc st).
Proof.
  intros Hwf. apply (well_formed_same_table st); [done|apply evolves_started|done].
Qed.

Lemma start_span_parent_wf (e : observer.Event Ctx) read st :
  well_formed st →
  (start_span_parent e read st).2 = Panic "scope not found" ∨
  ∃ read', (start_span_parent e read st).2 = Done read'.
Proof.
  intros Hwf. unfold start_span_parent. destruct (_ && _); [right; by eexists|].
  rewrite bind_run.
  destruct (readScope_wf (observer.Parent e) st Hwf) as [Hp|(m & osp & Hd & Hsp)].
  - rewrite (readScope_Panic _ _ _ Hp). by left.
  - rewrite (readScope_Done _ _ _ Hd). cbv beta iota. right.
    destruct osp as [pl|]; [|by eexists].
    destruct (Hsp pl eq_refl) as [psp Hpl].
    rewrite bind_run. unfold deref_span. rewrite Hpl. by eexists.
Qed.

Lemma dispatch_panic_wf (e : observer.Event Ctx) read st msg :
  well_formed st →
  (dispatch fc e read st).2 = Panic msg →
  ro (dispatch fc e read st).1 = ro st ∧
  (msg ∈ explicit_panics ∨
   observer.Type_ e = observer.START_SPAN ∧ observer.Context_ e = None ∧
   msg = nil_dereference).
Proof.
  intros Hwf. unfold explicit_panics.
  destruct (observer.Type_ e) eqn:Hty.
  - rewrite dispatch_unhandled by (by rewrite Hty). intros [= <-]. split; [done|].
    left. by repeat constructor.
  - rewrite dispatch_START_SPAN by done.
    destruct (observer.Context_ e) as [c|]; [|intros [= <-]; auto].
    cbv zeta.
    destruct (readScope_wf (observer.Scope e) _
                (well_formed_started e (fc c) readerScope_zero st Hwf))
      as [->|(m & osp & -> & _)].
    { intros [= <-]. split; [done|]. left. by repeat constructor. }
    match goal with |- context [start_span_parent e ?r ?s] =>
      destruct (start_span_parent_wf e r s) as [->|[read' ->]]
    end; [by apply well_formed_started| |done].
    intros [= <-]. split; [done|]. left. by repeat constructor.
  - rewrite dispatch_FINISH_SPAN by done. cbn [fst snd].
    destruct (readScope_wf (observer.Scope e) st Hwf) as [->|(m & osp & -> & Hsp)].
    { intros [= <-]. split; [done|]. left. by repeat constructor. }
    destruct osp as [l|].
    + destruct (Hsp l eq_refl) as [sp ->]. done.
    + intros [= <-]. split; [done|]. left. by repeat constructor.
  - rewrite (surjective_pairing (dispatch fc e read st)).
    rewrite (dispatch_readonly fc e read) by auto. cbn [fst snd].
    destruct (readScope_wf (observer.Scope e) st Hwf) as [Hp|(m & osp & Hd & Hsp)].
    + unfold dispatch. rewrite Hty, bind_run, (readScope_Panic _ _ _ Hp).
      intros [= <-]. split; [done|]. left. by repeat constructor.
    + by rewrite (dispatch_ADD_EVENT _ _ _ m osp).
  - rewrite dispatch_unhandled by (by rewrite Hty). intros [= <-]. split; [done|].
    left. by repeat constructor.
  - rewrite dispatch_scope by auto.
    destruct (scope_parent_wf (observer.Scope e) st Hwf) as [->|(m & osp & -> & Hsp)].
    { intros [= <-]. split; [done|]. left. by repeat constructor. }
    cbv zeta. destruct (decide _); [done|].
    destruct osp as [l|]; [|done]. by destruct (Hsp l eq_refl) as [sp ->].
  - by rewrite dispatch_NEW_MEASURE by done.
  - rewrite dispatch_NEW_METRIC by done. destruct (_ !! _); [done|].
    intros [= <-]. split; [done|]. left. by repeat constructor.
  - rewrite dispatch_scope by auto.
    destruct (scope_parent_wf (observer.Scope e) st Hwf) as [->|(m & osp & -> & Hsp)].
    { intros [= <-]. split; [done|]. left. by repeat constructor. }
    cbv zeta. destruct (decide _); [done|].
    destruct osp as [l|]; [|done]. by destruct (Hsp l eq_refl) as [sp ->].
  - rewrite (surjective_pairing (dispatch fc e read st)).
    rewrite (dispatch_readonly fc e read) by auto. cbn [fst snd].
    destruct (readScope_wf (observer.Scope e) st Hwf) as [Hp|(m & osp & Hd & Hsp)].
    + unfold dispatch. rewrite Hty, bind_run, (readScope_Panic _ _ _ Hp).
      intros [= <-]. split; [done|]. left. by repeat constructor.
    + by rewrite (dispatch_RECORD_STATS _ _ _ (Some m) osp).
  - rewrite dispatch_SET_STATUS by done. cbv zeta.
    destruct (readScope_wf (observer.Scope e) st Hwf) as [->|(m & osp & -> & Hsp)].
    { intros [= <-]. split; [done|]. left. by repeat constructor. }
    destruct osp as [l|]; [|done]. by destruct (Hsp l eq_refl) as [sp ->].
Qed.

Lemma parent_of_wf st id ent :
  well_formed st → scopes (ro st) !! id = Some ent → is_Some (parent_of st ent).
Proof.
  intros Hwf Hent. destruct (Hwf _ _ Hent) as (m & osp & Hres & _).
  unfold parent_of. destruct ent as [p|l]; cbn in *.
  - destruct (scope_objs st !! p); [by eexists|done].
  - destruct (span_objs st !! l) as [sp|]; [|done]. cbn in *.
    destruct (scope_objs st !! _); [by eexists|done].
Qed.

Lemma cleanup_loop_panic fuel : ∀ id st msg,
  well_formed st →
  (cleanup_loop fuel id st).2 = Panic msg → msg = "scope not found".
Proof.
  induction fuel as [|fuel IH]; intros id st msg Hwf.
  - cbn. by destruct (id =? 0).
  - destruct (decide (id = 0)) as [->|Hid]; [by rewrite cleanup_loop_0|].
    rewrite cleanup_loop_S by done.
    destruct (scopes (ro st) !! id) as [ent|] eqn:Hent; [|by intros [= <-]].
    destruct (parent_of_wf st id ent Hwf Hent) as [next ->].
    apply IH.
    apply (well_formed_same_table st); [done| |apply delete_subseteq].
    apply (evolves_shrink (delete id (scopes (ro st))) st), delete_subseteq.
Qed.

(** X16. In a state whose table entries all resolve (every state reached
    from a new observer is one), processing an event never dereferences nil:
    a panic carries one of the messages that reader.go raises itself, the
    only exception being a START_SPAN event without a context. *)
Theorem panics_are_explicit (e : observer.Event Ctx) st msg :
  well_formed st →
  (orderedObserve fc e st).2 = Panic msg →
  msg ∈ explicit_panics ∨
  observer.Type_ e = observer.START_SPAN ∧ observer.Context_ e = None ∧
  msg = nil_dereference.
Proof.
  intros Hwf. rewrite orderedObserve_run.
  pose proof (dispatch_panic_wf e (initial_read fc e) st) as Hp.
  pose proof (dispatch_well_formed fc e (initial_read fc e) st Hwf) as Hwf1.
  destruct (dispatch _ _ _ _) as [st1 [[read|]| |]]; cbn [fst snd] in *; try done.
  - cbv zeta. destruct (decide _); [|done].
    intros Hc. apply cleanup_loop_panic in Hc; [|done]. subst msg.
    left. unfold explicit_panics. by repeat constructor.
  - intros [= ->]. by destruct (Hp msg Hwf eq_refl).
Qed.

(** X17. In a state whose table entries all resolve, an event that panics
    has changed neither the three tables nor the deliveries, with one
    exception: a FINISH_SPAN event whose clean-up meets a missing node has
    delivered its record and removed the nodes visited before the panic. *)
Theorem panic_leaves_tables (e : observer.Event Ctx) st msg :
  well_formed st →
  (orderedObserve fc e st).2 = Panic msg →
  let st' := (orderedObserve fc e st).1 in
  ro st' = ro st ∧ delivered st' = delivered st ∨
  observer.Type_ e = observer.FINISH_SPAN ∧ msg = "scope not found" ∧
  scopes (ro st') ⊆ scopes (ro st) ∧
  ∃ read, delivered st' = delivered st ++ to_readers st read.
Proof.
  intros Hwf. cbv zeta. rewrite orderedObserve_run.
  pose proof (dispatch_panic_wf e (initial_read fc e) st) as Hp.
  pose proof (dispatch_well_formed fc e (initial_read fc e) st Hwf) as Hwf1.
  pose proof (dispatch_quiet fc e (initial_read fc e) st) as [Hd Hr].
  pose proof (dispatch_table e (initial_read fc e) st) as Ht.
  destruct (dispatch _ _ _ _) as [st1 [[read|]| |]] eqn:Hrun; cbn [fst snd] in *;
    try done.
  - cbv zeta. destruct (decide _) as [Hty|]; [|done].
    intros Hc. right. split; [done|].
    split; [by apply cleanup_loop_panic in Hc|].
    rewrite dispatch_FINISH_SPAN in Hrun by done. injection Hrun as <- _.
    split.
    + unfold cleanupSpan.
      match goal with |- context [cleanup_loop ?f ?i ?s] =>
        destruct (cleanup_loop_shrinks f i s) as (t & Hsub & ->)
      end. done.
    + exists read.
      by destruct (cleanupSpan_frame (observer.EventID_ (observer.Scope e))
        (with_delivered (λ d, d ++ map (λ r, (r, read)) (readers (ro st))) st))
        as (-> & _).
  - intros [= ->]. left. by destruct (Hp msg Hwf eq_refl).
Qed.

Lemma readScope_present id st :
  well_formed st →
  observer.EventID_ id = 0 ∨ is_Some (scopes (ro st) !! observer.EventID_ id) →
  ∃ m osp, (readScope id st).2 = Done (Some m, osp) ∧
           ∀ l, osp = Some l → is_Some (span_objs st !! l).
Proof.
  intros Hwf Hid. destruct (readScope_wf id st Hwf) as [Hp|Hd]; [|done].
  rewrite readScope_run in Hp. cbn [snd] in Hp.
  destruct Hid as [Hz|[ent Hent]].
  - by rewrite Hz in Hp.
  - destruct (_ =? 0); [done|]. rewrite Hent in Hp. by destruct (resolve st ent).
Qed.

Lemma orderedObserve_START_SPAN_returns (e : observer.Event Ctx) st c :
  well_formed st →
  observer.Type_ e = observer.START_SPAN →
  observer.Context_ e = Some c →
  observer.EventID_ (observer.Parent e) = 0 →
  observer.EventID_ (observer.Scope e) = 0 ∨
    is_Some (scopes (ro st) !! observer.EventID_ (observer.Scope e)) →
  (orderedObserve fc e st).2 = Done tt.
Proof.
  intros Hwf Hty Hc Hp Hsc.
  destruct (readScope_present _ _ Hwf Hsc) as (m & osp & Hrs & _).
  rewrite orderedObserve_run, dispatch_START_SPAN by done. rewrite Hc. cbv zeta.
  rewrite (readScope_started _ _ _ _ _ _ Hrs). cbn [snd].
  rewrite start_span_parent_zero by done. cbn [snd].
  by rewrite decide_False by (rewrite Hty; discriminate).
Qed.

Lemma orderedObserve_NEW_SCOPE_returns (e : observer.Event Ctx) st :
  well_formed st →
  observer.Type_ e = observer.NEW_SCOPE →
  observer.EventID_ (observer.Scope e) = 0 ∨
    is_Some (scopes (ro st) !! observer.EventID_ (observer.Scope e)) →
  (orderedObserve fc e st).2 = Done tt ∧
  is_Some (scopes (ro (orderedObserve fc e st).1) !! observer.Sequence e).
Proof.
  intros Hwf Hty Hsc.
  destruct (readScope_present _ _ Hwf Hsc) as (m & osp & Hrs & _).
  apply scope_parent_of_readScope in Hrs.
  rewrite orderedObserve_NEW_SCOPE, Hrs by done. cbn. split; [done|].
  rewrite lookup_insert_eq. by eexists.
Qed.

Lemma finish_root_span (e : observer.Event Ctx) st l sp sc :
  observer.Type_ e = observer.FINISH_SPAN →
  observer.EventID_ (observer.Scope e) ≠ 0 →
  reader.scopes (reader.ro st) !! observer.EventID_ (observer.Scope e) = Some (reader.ISpan l) →
  reader.span_objs st !! l = Some sp →
  reader.scope_objs st !! reader.scope_ptr sp = Some sc →
  reader.parent sc = 0 →
  (reader.orderedObserve fc e st).2 = Done tt ∧
  reader.scopes (reader.ro (reader.orderedObserve fc e st).1) =
    delete (observer.EventID_ (observer.Scope e)) (reader.scopes (reader.ro st)).
Proof.
  intros Hty Hid Hent Hl Hsc Hpar.
  assert ((reader.readScope (observer.Scope e) st).2 =
          Done (reader.attributes sc, Some l)) as Hrs.
  { rewrite readScope_run. cbn [snd].
    destruct (_ =? 0) eqn:Hz; [by apply N.eqb_eq in Hz|].
    rewrite Hent. cbn. rewrite Hl. cbn. by rewrite Hsc. }
  rewrite orderedObserve_run, dispatch_FINISH_SPAN, Hrs, Hl by done.
  cbv zeta. rewrite decide_True by done.
  match goal with |- context [reader.cleanupSpan ?i ?s] =>
    assert (reader.walk s i [i]) as Hw
  end.
  { eapply (reader.walk_step _ _ (reader.ISpan l) 0 []); [done|done| |constructor].
    unfold reader.parent_of. cbn. rewrite Hl. cbn. rewrite Hsc. cbn. by rewrite Hpar. }
  unfold reader.cleanupSpan.
  pose proof (cleanup_loop_walk _ _ _ 0 Hw) as Hrun. rewrite Nat.add_0_r in Hrun.
  rewrite Hrun. done.
Qed.

Lemma registered_readScope st id sc0 :
  registered st id →
  ∃ m l, (readScope {| observer.EventID_ := id; observer.SpanContext := sc0 |} st).2 =
           Done (Some m, Some l) ∧ is_Some (span_objs st !! l).
Proof.
  intros (Hid & l & spn & sc & m & Hent & Hl & Hsc & _ & Hm).
  exists m, l. split; [|by eexists].
  rewrite readScope_run. cbn [snd observer.EventID_].
  destruct (id =? 0) eqn:Hz; [by apply N.eqb_eq in Hz|].
  rewrite Hent. cbn. rewrite Hl. cbn. rewrite Hsc. cbn. by rewrite Hm.
Qed.

Lemma registered_MODIFY_ATTR (e : observer.Event Ctx) st :
  observer.Type_ e = observer.MODIFY_ATTR →
  registered st (observer.EventID_ (observer.Scope e)) →
  observer.Sequence e ≠ observer.EventID_ (observer.Scope e) →
  (orderedObserve fc e st).2 = Done tt ∧
  registered (orderedObserve fc e st).1 (observer.EventID_ (observer.Scope e)).
Proof.
  intros Hty Hreg Hseq.
  destruct (registered_readScope st _ (observer.SpanContext (observer.Scope e)) Hreg)
    as (m & l & Hrs & [spn' Hl']).
  destruct Hreg as (Hid & l0 & spn & sc & m0 & Hent & Hl & Hsc & Hpar & Hm).
  assert ({| observer.EventID_ := observer.EventID_ (observer.Scope e);
             observer.SpanContext := observer.SpanContext (observer.Scope e) |} =
          observer.Scope e) as Heta by (by destruct (observer.Scope e)).
  rewrite Heta in Hrs. apply scope_parent_of_readScope in Hrs.
  rewrite orderedObserve_run, dispatch_scope, Hrs by auto. cbv zeta.
  rewrite decide_False by (rewrite Hty; discriminate). rewrite Hl'.
  rewrite decide_False by (rewrite Hty; discriminate). cbn [fst snd].
  split; [done|]. split; [done|]. exists l0, spn, sc, m0. cbn.
  rewrite lookup_insert_ne by done.
  split; [done|]. split; [done|]. split; [|done].
  by apply lookup_app_l_Some.
Qed.

Lemma registered_ADD_EVENT (e : observer.Event Ctx) st :
  observer.Type_ e = observer.ADD_EVENT →
  registered st (observer.EventID_ (observer.Scope e)) →
  (orderedObserve fc e st).2 = Done tt ∧
  registered (orderedObserve fc e st).1 (observer.EventID_ (observer.Scope e)).
Proof.
  intros Hty Hreg.
  destruct (registered_readScope st _ (observer.SpanContext (observer.Scope e)) Hreg)
    as (m & l & Hrs & Hl').
  assert ({| observer.EventID_ := observer.EventID_ (observer.Scope e);
             observer.SpanContext := observer.SpanContext (observer.Scope e) |} =
          observer.Scope e) as Heta by (by destruct (observer.Scope e)).
  rewrite Heta in Hrs.
  rewrite orderedObserve_run, (dispatch_ADD_EVENT _ _ _ m (Some l)); try done.
  - rewrite decide_False by (rewrite Hty; discriminate). done.
  - by intros ? [= <-].
Qed.

Lemma registered_FINISH_SPAN (e : observer.Event Ctx) st :
  observer.Type_ e = observer.FINISH_SPAN →
  registered st (observer.EventID_ (observer.Scope e)) →
  (orderedObserve fc e st).2 = Done tt.
Proof.
  intros Hty (Hid & l & spn & sc & m & Hent & Hl & Hsc & Hpar & _).
  by destruct (finish_root_span e st l spn sc).
Qed.

End reader_props.

End ReaderProps.

(** * Facts about the tracer *)
Module SdkFacts.
Import sdk reader_terms ReaderFacts ReaderProps.

Section sdk_facts.
Context `{Api}.

Lemma bind_Done {S A B} (m : M S A) (f : A → M S B) s s' b :
  (m ≫= f) s = (s', Done b) →
  ∃ s1 a, m s = (s1, Done a) ∧ f a s1 = (s', Done b).
Proof.
  rewrite bind_run. destruct (m s) as [s1 [a| |]]; try done. eauto.
Qed.

Lemma stamp_fields w (e : observer.Event Context) :
  observer.Type_ (stamp w e) = observer.Type_ e ∧
  observer.Sequence (stamp w e) = next_seq w ∧
  observer.Scope (stamp w e) = observer.Scope e ∧
  observer.Parent (stamp w e) = observer.Parent e ∧
  observer.Context_ (stamp w e) = observer.Context_ e ∧
  observer.String_ (stamp w e) = observer.String_ e ∧
  observer.Attribute (stamp w e) = observer.Attribute e ∧
  observer.Attributes (stamp w e) = observer.Attributes e ∧
  observer.Mutator (stamp w e) = observer.Mutator e ∧
  observer.Mutators (stamp w e) = observer.Mutators e.
Proof. unfold stamp. cbv zeta. by destruct (time_IsZero _). Qed.

Lemma Record_run (e : observer.Event Context) w :
  Record_ e w =
  match reader.orderedObserve tag_FromContext (stamp w e) (obs w) with
  | (s, Done _) => (with_obs (λ _, s) (recorded w e), Done (next_seq w))
  | (s, Panic msg) => (with_obs (λ _, s) (recorded w e), Panic msg)
  | (s, OutOfFuel) => (with_obs (λ _, s) (recorded w e), OutOfFuel)
  end.
Proof.
  unfold Record_. cbv zeta. rewrite bind_run. unfold lift, reader.Observe.
  change (obs (recorded w e)) with (obs w).
  by destruct (reader.orderedObserve _ _ _) as [s [[]| |]].
Qed.

Lemma Record_emitted (e : observer.Event Context) w :
  emitted (Record_ e w).1 = emitted w ++ [stamp w e] ∧
  rand_src (Record_ e w).1 = rand_src w ∧
  rand_pos (Record_ e w).1 = rand_pos w.
Proof.
  rewrite Record_run. by destruct (reader.orderedObserve _ _ _) as [s [[]| |]].
Qed.

Lemma Record_outcome (e : observer.Event Context) w :
  (Record_ e w).2 = Done (next_seq w) ∨ is_panic (Record_ e w).2 = true.
Proof.
  rewrite Record_run.
  pose proof (orderedObserve_fuel tag_FromContext (stamp w e) (obs w)) as Hf.
  destruct (reader.orderedObserve _ _ _) as [s [[]| |]]; auto.
Qed.

(** C9. [WithResources] adds exactly one event to the stream: a NEW_SCOPE
    event whose scope reference is the tracer's resource scope (0 for the
    tracer made by [New]), which carries the attributes and gets the next
    sequence number. Unless the observer panics, the result is a new tracer
    whose resource scope is that sequence number; this is the case for a
    tracer without resources and for one whose resource scope is in the
    table. The tracer passed in is a value that is only read. No span object
    is made and nothing is delivered. [WithComponent] and [WithService] are
    [WithResources] with one key-value. *)
Theorem WithResources_chains_scope (t : tracer) (attributes : list core_KeyValue) w :
  let parent := {| observer.EventID_ := resources t;
                   observer.SpanContext := core.EmptySpanContext |} in
  let ev := stamp w (NewScope_event parent attributes) in
  let w' := (WithResources t attributes w).1 in
  let o := (WithResources t attributes w).2 in
  emitted w' = emitted w ++ [ev] ∧
  observer.Type_ ev = observer.NEW_SCOPE ∧
  observer.EventID_ (observer.Scope ev) = resources t ∧
  observer.Attributes ev = attributes ∧
  observer.Sequence ev = next_seq w ∧
  (o = Done {| resources := next_seq w |} ∨ is_panic o = true) ∧
  (resources t = 0 → o = Done {| resources := next_seq w |}) ∧
  (∀ ent m osp,
     reader.scopes (reader.ro (obs w)) !! resources t = Some ent →
     reader.resolve (obs w) ent = Some (Some m, osp) →
     o = Done {| resources := next_seq w |}) ∧
  reader.span_objs (obs w') = reader.span_objs (obs w) ∧
  reader.delivered (obs w') = reader.delivered (obs w) ∧
  (∀ name, WithComponent t name = WithResources t [Key_String ComponentKey name]) ∧
  (∀ name, WithService t name = WithResources t [Key_String ServiceKey name]).
Proof.
  intros parent ev w' o. subst ev w' o.
  destruct (stamp_fields w (NewScope_event parent attributes))
    as (Hty & Hseq & Hsc & _ & _ & _ & _ & Hattrs & _).
  unfold WithResources, NewScope. fold parent. rewrite !bind_run.
  rewrite Record_run.
  rewrite (orderedObserve_NEW_SCOPE tag_FromContext) by done.
  rewrite scope_parent_run. cbn [snd]. rewrite Hty, Hseq, Hattrs, !Hsc.
  change (observer.EventID_ (observer.Scope (NewScope_event parent attributes)))
    with (resources t).
  split; [|split; [done|split; [done|split; [done|split; [done|]]]]].
  { destruct (resources t =? 0); [done|].
    destruct (_ !! _) as [ent|]; [|done].
    by destruct (reader.resolve _ ent) as [[[m|] osp]|]. }
  split; [|split; [|split; [|split; [|split; [|done]]]]].
  - destruct (resources t =? 0); [left; done|].
    destruct (_ !! _) as [ent|]; [|right; done].
    destruct (reader.resolve _ ent) as [[[m|] osp]|]; auto.
  - intros ->. done.
  - intros ent m osp Hent Hres. rewrite Hent, Hres.
    by destruct (resources t =? 0).
  - destruct (resources t =? 0); [done|].
    destruct (_ !! _) as [ent|]; [|done].
    by destruct (reader.resolve _ ent) as [[[m|] osp]|].
  - destruct (resources t =? 0); [done|].
    destruct (_ !! _) as [ent|]; [|done].
    by destruct (reader.resolve _ ent) as [[[m|] osp]|].
Qed.

Lemma TraceID_eta (x : core.TraceID) :
  {| core.High := core.High x; core.Low := core.Low x |} = x.
Proof. by destruct x. Qed.

Lemma NewScope_Done parent attributes w w' scope :
  NewScope parent attributes w = (w', Done scope) →
  scope = {| observer.EventID_ := next_seq w;
             observer.SpanContext := observer.SpanContext parent |} ∧
  sequenceNum w' = next_seq w ∧
  rand_src w' = rand_src w ∧ rand_pos w' = rand_pos w ∧
  reader.delivered (obs w') = reader.delivered (obs w) ∧
  reader.readers (reader.ro (obs w')) = reader.readers (reader.ro (obs w)).
Proof.
  unfold NewScope. intros (w1 & id & Hrec & Hret)%bind_Done.
  injection Hret as <- <-. rewrite Record_run in Hrec.
  destruct (stamp_fields w (NewScope_event parent attributes)) as (Hty & _).
  rewrite (orderedObserve_NEW_SCOPE tag_FromContext) in Hrec by done.
  destruct (reader.scope_parent _ _).2 as [[[m|] osp]| |]; try done.
  by injection Hrec as <- <-.
Qed.

(** C3, on the code. When [Start] returns, the new span has the first
    random number as span id; its trace id is that of the explicit reference
    when the reference carries one, else that of the active span when it
    carries one, else the next two random numbers as high and low halves.
    One START_SPAN record is delivered to each sink; its parent context is
    the reference or the active span's context (empty without a parent), and
    its parent attributes are nil in every case, also for a local parent:
    [Start] passes the parent's span context without its event identifier,
    so the observer takes the branch for a remote parent. *)
Theorem Start_parent_resolution (t : tracer) (ctx : Context) (name : string)
    (opts : list SpanOption) w w' ctx' sp :
  Start t ctx name opts w = (w', Done (ctx', sp)) →
  let o := fold_left (λ o opt, opt o) opts SpanOptions_zero in
  let parent := resolved_parent o ctx in
  let child := observer.SpanContext (initial sp) in
  core.SpanID child = wrap64 (rand_src w (rand_pos w)) ∧
  core.TraceID_ child =
    (if core.HasTraceID parent then core.TraceID_ parent
     else {| core.High := wrap64 (rand_src w (S (rand_pos w)));
             core.Low := wrap64 (rand_src w (S (S (rand_pos w)))) |}) ∧
  ctx_span ctx' = Some sp ∧
  ∃ read,
    reader.delivered (obs w') =
      reader.delivered (obs w) ++
      map (λ r, (r, read)) (reader.readers (reader.ro (obs w))) ∧
    reader.Type_ read = reader.START_SPAN ∧
    reader.Name read = name ∧
    reader.SpanContext read = child ∧
    reader.Sequence read = observer.EventID_ (initial sp) ∧
    reader.Tags read = tag_FromContext ctx ∧
    reader.Parent read =
      (if core.HasTraceID parent then parent else core.EmptySpanContext) ∧
    reader.ParentAttributes read = None.
Proof.
  intros Hrun o parent child. unfold Start in Hrun. fold o in Hrun.
  apply bind_Done in Hrun as (w1 & spanID & Hr1 & Hrun).
  injection Hr1 as <- <-.
  set (parentScope := if core.HasTraceID (ref_SpanContext (opt_Reference o))
                      then _ else _) in Hrun.
  assert (parentScope = {| observer.EventID_ := 0; observer.SpanContext := parent |})
    as HpS.
  { unfold parentScope, parent, resolved_parent. by destruct (core.HasTraceID _). }
  clearbody parentScope. subst parentScope. clearbody parent.
  apply bind_Done in Hrun as (w2 & traceID & Htr & Hrun).
  apply bind_Done in Hrun as (w3 & scope & Hns & Hrun).
  apply bind_Done in Hrun as (w4 & eventID & Hrec & Hrun).
  injection Hrun as <- <- <-. subst child. cbn [initial observer.SpanContext core.SpanID core.TraceID_].
  assert (traceID = (if core.HasTraceID parent then core.TraceID_ parent
     else {| core.High := wrap64 (rand_src w (S (rand_pos w)));
             core.Low := wrap64 (rand_src w (S (S (rand_pos w)))) |}) ∧
     obs w2 = obs w) as [-> Hobs2].
  { unfold observer.HasTraceID in Htr. cbn [observer.SpanContext] in Htr.
    destruct (core.HasTraceID parent).
    - injection Htr as <- <-. by rewrite TraceID_eta.
    - by injection Htr as <- <-. }
  apply NewScope_Done in Hns as (-> & Hseq3 & _ & _ & Hd3 & Hr3).
  rewrite Hobs2 in Hd3, Hr3.
  rewrite Record_run in Hrec.
  destruct (reader.orderedObserve _ _ _) as [s [[]| |]] eqn:Hobs; try done.
  injection Hrec as <- <-.
  match type of Hobs with reader.orderedObserve _ (stamp w3 ?e) _ = _ =>
    destruct (stamp_fields w3 e) as (Hty & Hsq & Hsc & Hpa & Hcx & Hst & _);
    set (ev := stamp w3 e) in *
  end.
  cbn [Start_event observer.Type_ observer.Scope observer.Parent
       observer.Context_ observer.String_] in Hty, Hsc, Hpa, Hcx, Hst.
  apply orderedObserve_START_SPAN in Hobs as (c & rattrs & x & read & Hc & _ & Hp & ->);
    [|done].
  rewrite start_span_parent_zero in Hp by (by rewrite Hpa).
  unfold observer.HasTraceID in Hp. rewrite Hpa in Hp.
  cbn [snd observer.SpanContext] in Hp.
  rewrite Hcx in Hc. injection Hc as <-.
  split; [done|]. split; [done|]. split; [done|].
  exists read. split.
  { cbn [obs with_obs reader.delivered reader.with_delivered]. rewrite Hr3.
    cbn. by rewrite Hd3. }
  assert (reader.Sequence (reader.initial_read tag_FromContext ev) = next_seq w3
          ∧ reader.Tags (reader.initial_read tag_FromContext ev) = tag_FromContext ctx
          ∧ reader.ParentAttributes (reader.initial_read tag_FromContext ev) = None
          ∧ reader.Parent (reader.initial_read tag_FromContext ev) = core.EmptySpanContext)
    as (Hsq' & Htg' & Hpa' & Hpp').
  { unfold reader.initial_read. rewrite Hcx. cbn. by rewrite Hsq. }
  destruct (core.HasTraceID parent) eqn:Hh; rewrite ?Hh in Hp; injection Hp as <-; cbn;
    rewrite ?Hst, ?Hsc, ?Hsq', ?Htg', ?Hpa', ?Hpp'; repeat split; reflexivity.
Qed.

Lemma emit_run (e : observer.Event Context) w :
  emit e w =
  ((Record_ e w).1,
   match (Record_ e w).2 with
   | Done _ => Done tt
   | Panic msg => Panic msg
   | OutOfFuel => OutOfFuel
   end).
Proof. unfold emit. rewrite bind_run. by destruct (Record_ e w) as [w1 [id| |]]. Qed.

Lemma emit_outcome (e : observer.Event Context) w :
  (emit e w).2 = Done tt ∨ ∃ msg, (emit e w).2 = Panic msg.
Proof.
  rewrite emit_run. cbn [snd].
  destruct (Record_outcome e w) as [->|Hp]; [by left|].
  right. destruct (Record_ e w).2; try done. eauto.
Qed.

Lemma emit_emitted (e : observer.Event Context) w :
  emitted (emit e w).1 = emitted w ++ [stamp w e].
Proof. rewrite emit_run. apply Record_emitted. Qed.

Lemma next_seq_lt w : (next_seq w < 2 ^ 64)%N.
Proof. unfold next_seq, wrap64. apply N.mod_lt. done. Qed.

Lemma wrap64_succ_ne n : (n < 2 ^ 64)%N → wrap64 (n + 1) ≠ n.
Proof.
  intros Hn. unfold wrap64.
  destruct (decide (n + 1 < 2 ^ 64)%N) as [Hlt|Hge].
  - rewrite N.mod_small by done. lia.
  - assert (n + 1 = 2 ^ 64)%N as -> by lia. rewrite N.Div0.mod_same. lia.
Qed.

(** What [Start] has done when it returns: the state after the random
    draws, the state after the scope has been recorded, and the two events. *)
Lemma Start_run (t : tracer) (ctx : Context) (name : string)
    (opts : list SpanOption) w w' ctx' sp :
  Start t ctx name opts w = (w', Done (ctx', sp)) →
  let o := fold_left (λ o opt, opt o) opts SpanOptions_zero in
  let parent := resolved_parent o ctx in
  let child := observer.SpanContext (initial sp) in
  let childScope := {| observer.EventID_ := resources t; observer.SpanContext := child |} in
  let parentScope := {| observer.EventID_ := 0; observer.SpanContext := parent |} in
  ∃ w2 w3,
    obs w2 = obs w ∧ emitted w2 = emitted w ∧ sequenceNum w2 = sequenceNum w ∧
    rand_pos w2 = (rand_pos w + if core.HasTraceID parent then 1 else 3)%nat ∧
    Record_ (NewScope_event childScope (opt_Attributes o)) w2 = (w3, Done (next_seq w)) ∧
    Record_ (Start_event o {| observer.EventID_ := next_seq w;
                              observer.SpanContext := child |} ctx parentScope name) w3 =
      (w', Done (observer.EventID_ (initial sp))) ∧
    ctx' = SetCurrentSpan ctx sp ∧ tracer_ sp = t.
Proof.
  intros Hrun o parent child childScope parentScope. unfold Start in Hrun. fold o in Hrun.
  apply bind_Done in Hrun as (w1 & spanID & Hr1 & Hrun).
  injection Hr1 as <- <-.
  set (pS := if core.HasTraceID (ref_SpanContext (opt_Reference o))
             then _ else _) in Hrun.
  assert (pS = parentScope) as HpS.
  { unfold pS, parentScope, parent, resolved_parent. by destruct (core.HasTraceID _). }
  clearbody pS. subst pS.
  apply bind_Done in Hrun as (w2 & traceID & Htr & Hrun).
  apply bind_Done in Hrun as (w3 & scope & Hns & Hrun).
  apply bind_Done in Hrun as (w4 & eventID & Hrec & Hrun).
  injection Hrun as <- <- <-.
  subst child childScope. cbn [initial observer.SpanContext] in *.
  exists w2, w3.
  assert (obs w2 = obs w ∧ emitted w2 = emitted w ∧ sequenceNum w2 = sequenceNum w ∧
          rand_pos w2 = (rand_pos w + if core.HasTraceID parent then 1 else 3)%nat)
    as (Ho & He & Hs & Hr).
  { unfold observer.HasTraceID, parentScope in Htr. cbn [observer.SpanContext] in Htr.
    destruct (core.HasTraceID parent).
    - injection Htr as <- _. cbn. repeat split; lia.
    - injection Htr as <- _. cbn. repeat split; lia. }
  unfold NewScope in Hns. apply bind_Done in Hns as (w3' & id & Hrec1 & Hret).
  injection Hret as <- <-.
  assert (id = next_seq w) as ->.
  { destruct (Record_outcome (NewScope_event
       {| observer.EventID_ := resources t;
          observer.SpanContext := {| core.TraceID_ := traceID;
                                     core.SpanID := wrap64 (rand_src w (rand_pos w)) |} |}
       (opt_Attributes o)) w2) as [Hd|Hp]; rewrite Hrec1 in *; cbn in *; [|done].
    injection Hd as ->. unfold next_seq. by rewrite Hs. }
  cbn [observer.EventID_ observer.SpanContext] in *.
  repeat split; try done.
Qed.

Lemma emit_registered (ev : observer.Event Context) w :
  registered (obs w) (observer.EventID_ (observer.Scope ev)) →
  (observer.Type_ ev = observer.MODIFY_ATTR ∧
     next_seq w ≠ observer.EventID_ (observer.Scope ev) ∨
   observer.Type_ ev = observer.ADD_EVENT) →
  (emit ev w).2 = Done tt ∧
  registered (obs (emit ev w).1) (observer.EventID_ (observer.Scope ev)).
Proof.
  intros Hreg Hty. rewrite emit_run, Record_run.
  destruct (stamp_fields w ev) as (Hty' & Hsq & Hsc & _).
  assert ((reader.orderedObserve tag_FromContext (stamp w ev) (obs w)).2 = Done tt ∧
          registered (reader.orderedObserve tag_FromContext (stamp w ev) (obs w)).1
            (observer.EventID_ (observer.Scope ev))) as [Hd Hr].
  { rewrite <- Hsc in Hreg |- *. destruct Hty as [[Hty Hne]|Hty].
    - apply registered_MODIFY_ATTR; [by rewrite Hty'|done|by rewrite Hsq, Hsc].
    - apply registered_ADD_EVENT; [by rewrite Hty'|done]. }
  destruct (reader.orderedObserve _ _ _) as [s [[]| |]]; done.
Qed.

Lemma emit_FINISH_SPAN (ev : observer.Event Context) w :
  observer.Type_ ev = observer.FINISH_SPAN →
  registered (obs w) (observer.EventID_ (observer.Scope ev)) →
  (emit ev w).2 = Done tt.
Proof.
  intros Hty Hreg. rewrite emit_run, Record_run.
  destruct (stamp_fields w ev) as (Hty' & _ & Hsc & _).
  assert ((reader.orderedObserve tag_FromContext (stamp w ev) (obs w)).2 = Done tt) as Hd.
  { rewrite <- Hsc in Hreg. apply registered_FINISH_SPAN; [by rewrite Hty'|done]. }
  destruct (reader.orderedObserve _ _ _) as [s [[]| |]]; done.
Qed.

Lemma Start_registers (t : tracer) (ctx : Context) (name : string)
    (opts : list SpanOption) w w1 ctx' sp :
  Start t ctx name opts w = (w1, Done (ctx', sp)) →
  observer.EventID_ (initial sp) ≠ 0 →
  registered (obs w1) (observer.EventID_ (initial sp)).
Proof.
  intros Hrun Hid.
  apply Start_run in Hrun as (wa & wb & Ho & He & Hs & _ & Hr1 & Hr2 & -> & Ht).
  set (o := fold_left (λ o opt, opt o) opts SpanOptions_zero) in *.
  rewrite Record_run in Hr1.
  match type of Hr1 with context [stamp wa ?ev] =>
    destruct (stamp_fields wa ev) as (Hty1 & Hsq1 & _);
    set (e1 := stamp wa ev) in *
  end.
  rewrite (orderedObserve_NEW_SCOPE tag_FromContext) in Hr1 by done.
  destruct (reader.scope_parent _ _).2 as [[[m|] osp]| |]; try done.
  injection Hr1 as <-. rewrite Ho in *.
  assert (next_seq wa = next_seq w) as Hn by (unfold next_seq; by rewrite Hs).
  rewrite Hn in Hsq1.
  rewrite Record_run in Hr2.
  match type of Hr2 with context [stamp ?wb ?ev] =>
    destruct (stamp_fields wb ev) as (Hty2 & Hsq2 & Hsc2 & _);
    set (e2 := stamp wb ev) in *
  end.
  cbn [Start_event observer.Scope] in Hsc2.
  destruct (reader.orderedObserve _ e2 _) as [s [[]| |]] eqn:Hobs; try done.
  injection Hr2 as <- Hid2.
  apply orderedObserve_START_SPAN in Hobs as (c & rattrs & x & read & _ & Hrs & _ & ->);
    [|done].
  assert (∃ m', rattrs = Some m') as [m' ->].
  { rewrite readScope_run in Hrs. cbn [snd] in Hrs. rewrite Hsc2 in Hrs.
    cbn [observer.EventID_] in Hrs.
    destruct (next_seq w =? 0); [injection Hrs as <- _; by eexists|].
    rewrite ro_started in Hrs. cbn [obs with_obs] in Hrs.
    unfold reader.scoped in Hrs at 1.
    cbn [reader.ro reader.with_scopes reader.scopes] in Hrs.
    rewrite Hsq1, lookup_insert_eq in Hrs.
    cbn [reader.resolve] in Hrs. rewrite scope_objs_started in Hrs.
    unfold reader.scoped in Hrs.
    cbn [reader.scope_objs reader.with_scopes reader.with_scope_objs] in Hrs.
    rewrite lookup_app_l in Hrs by (rewrite length_app; cbn; lia).
    rewrite lookup_app_r, Nat.sub_diag in Hrs by done. cbn in Hrs.
    injection Hrs as <- _. by eexists. }
  split; [done|]. rewrite <- Hid2.
  eexists _, _, _, m'. cbn [obs with_obs].
  split; [|split; [|split; [|split]]].
  - cbn. rewrite Hsq2. unfold next_seq. cbn. by rewrite lookup_insert_eq.
  - cbn. by rewrite lookup_app_r, Nat.sub_diag by done.
  - cbn. by rewrite lookup_app_r, Nat.sub_diag by done.
  - done.
  - done.
Qed.

Lemma finished (fin : observer.Event Context) {A} (r : outcome A) w :
  let w' := (emit fin w).1 in
  let o := match (emit fin w).2 with
           | Done _ => r
           | Panic msg => Panic msg
           | OutOfFuel => OutOfFuel
           end in
  emitted w' = emitted w ++ [stamp w fin] ∧
  (o = r ∨ is_panic o = true) ∧
  ((emit fin w).2 = Done tt → o = r).
Proof.
  cbv zeta. split; [apply emit_emitted|].
  destruct (emit_outcome fin w) as [->|[msg ->]]; (split; [auto|done]).
Qed.

(** C7. Once [WithSpan] has started its span, whatever the body does (return
    nil, return an error, or panic), the events that follow the body's in
    the stream end with exactly one FINISH_SPAN event of the span, and no
    other event between the body's and that one is a FINISH_SPAN. After a nil
    result or a panic nothing comes between. After an error, a MODIFY_ATTR
    event with error=true comes first and, whenever recording it returns, an
    ADD_EVENT event "span error" carrying the error's message follows, before
    the FINISH_SPAN event. When the three recordings return, the result of
    [WithSpan] is the body's error, unchanged; when [Finish] returns after a
    nil result, the result is nil. The recordings do return when the body
    leaves the span registered with the observer, as [Start] registers it
    under an identifier other than 0, and the number that the sequencer
    gives the error attribute is not the span's identifier. *)
Theorem WithSpan_finishes_once (t : tracer) (ctx : Context) (name : string)
    (body : Context → M world (option error)) w w1 ctx' sp :
  Start t ctx name [] w = (w1, Done (ctx', sp)) →
  let wb := (body ctx' w1).1 in
  let rb := (body ctx' w1).2 in
  let w' := (WithSpan t ctx name body w).1 in
  let o := (WithSpan t ctx name body w).2 in
  let attr := SetAttribute_event sp (Key_Bool ErrorKey true) in
  let fin := span_event observer.FINISH_SPAN sp in
  let id := observer.EventID_ (initial sp) in
  (id ≠ 0 → registered (obs w1) id) ∧
  ∃ pre wf,
    emitted w' = emitted wb ++ pre ++ [stamp wf fin] ∧
    Forall (λ ev, observer.Type_ ev ≠ observer.FINISH_SPAN) pre ∧
    (o = rb ∨ is_panic o = true) ∧
    (rb = Done None → pre = []) ∧
    (∀ msg, rb = Panic msg → pre = []) ∧
    (rb = Done None → (Finish sp wb).2 = Done tt → o = Done None) ∧
    (rb = Done None → registered (obs wb) id → o = Done None) ∧
    (∀ err, rb = Done (Some err) →
       let log := Event_event sp ctx' "span error"
                    [Key_String MessageKey (error_Error err)] in
       let wa := (SetAttribute sp (Key_Bool ErrorKey true) wb).1 in
       let wl := (Event_ sp ctx' "span error"
                    [Key_String MessageKey (error_Error err)] wa).1 in
       (pre = [stamp wb attr] ∨ pre = [stamp wb attr; stamp wa log]) ∧
       (o = Done (Some err) → pre = [stamp wb attr; stamp wa log]) ∧
       ((SetAttribute sp (Key_Bool ErrorKey true) wb).2 = Done tt →
          pre = [stamp wb attr; stamp wa log]) ∧
       ((SetAttribute sp (Key_Bool ErrorKey true) wb).2 = Done tt →
        (Event_ sp ctx' "span error"
           [Key_String MessageKey (error_Error err)] wa).2 = Done tt →
        (Finish sp wl).2 = Done tt →
        o = Done (Some err)) ∧
       (registered (obs wb) id → next_seq wb ≠ id →
        o = Done (Some err) ∧ pre = [stamp wb attr; stamp wa log])).
Proof.
  intros Hstart wb rb w' o attr fin id. subst wb rb w' o id.
  split; [intros Hid; by apply (Start_registers t ctx name [] w w1 ctx' sp)|].
  unfold WithSpan, defer, SetAttribute, Event_, Finish.
  unfold mbind, M_bind, mret, M_ret. rewrite Hstart.
  fold attr. fold fin.
  assert (observer.Type_ fin = observer.FINISH_SPAN ∧
          observer.EventID_ (observer.Scope fin) = observer.EventID_ (initial sp))
    as [Htf Hsf] by done.
  destruct (body ctx' w1) as [wb [[err|]| |]]; cbn [fst snd].
  - (* the body returned an error *)
    set (log := Event_event sp ctx' "span error"
                  [Key_String MessageKey (error_Error err)]).
    assert (observer.Type_ attr = observer.MODIFY_ATTR ∧
            observer.EventID_ (observer.Scope attr) = observer.EventID_ (initial sp) ∧
            observer.Type_ log = observer.ADD_EVENT ∧
            observer.EventID_ (observer.Scope log) = observer.EventID_ (initial sp))
      as (Hta & Hsa & Htl & Hsl) by done.
    pose proof (emit_emitted attr wb) as Hea.
    pose proof (emit_registered attr wb) as Hra. rewrite Hsa in Hra.
    destruct (emit_outcome attr wb) as [Hoa|[msg Hoa]];
      destruct (emit attr wb) as [wa oa]; cbn [fst snd] in *; subst oa.
    + pose proof (emit_emitted log wa) as Hel.
      pose proof (emit_registered log wa) as Hrl. rewrite Hsl in Hrl.
      destruct (emit_outcome log wa) as [Hol|[msg Hol]];
        destruct (emit log wa) as [wl ol] eqn:Hlog; cbn [fst snd] in *; subst ol.
      * destruct (finished fin (Done (Some err)) wl) as (Hef & Hor & Hof).
        pose proof (emit_FINISH_SPAN fin wl Htf) as Hrf. rewrite Hsf in Hrf.
        destruct (emit fin wl) as [wf ofin] eqn:Hfin; cbn [fst snd] in *.
        exists [stamp wb attr; stamp wa log], wl.
        rewrite Hef, Hel, Hea, <- !app_assoc.
        split; [done|]. split.
        { repeat constructor;
            [by destruct (stamp_fields wb attr) as (-> & _)
            |by destruct (stamp_fields wa log) as (-> & _)]. }
        split; [done|]. do 4 (split; [done|]).
        intros ? [= <-]. cbv zeta. fold log. rewrite ?Hlog. cbn [fst snd]. rewrite ?Hfin. cbn [fst snd].
        split; [by right|]. split; [done|]. split; [done|].
        split; [intros _ _; exact Hof|].
        intros Hreg Hne.
        destruct Hra as [_ Hra]; [done|by left|].
        destruct Hrl as [_ Hrl]; [done|by right|].
        split; [|done]. apply Hof. by apply Hrf.
      * destruct (finished fin (Panic (A := option error) msg) wl) as (Hef & Hor & Hof).
        destruct (emit fin wl) as [wf ofin] eqn:Hfin; cbn [fst snd] in *.
        exists [stamp wb attr; stamp wa log], wl.
        rewrite Hef, Hel, Hea, <- !app_assoc.
        split; [done|]. split.
        { repeat constructor;
            [by destruct (stamp_fields wb attr) as (-> & _)
            |by destruct (stamp_fields wa log) as (-> & _)]. }
        split.
        { right. by destruct Hor as [->| ->]. }
        do 4 (split; [done|]).
        intros ? [= <-]. cbv zeta. fold log. rewrite ?Hlog. cbn [fst snd]. rewrite ?Hfin. cbn [fst snd].
        split; [by right|]. split; [done|]. split; [done|].
        split; [done|].
        intros Hreg Hne.
        destruct Hra as [_ Hra]; [done|by left|].
        by destruct Hrl as [? _]; [|by right|].
    + destruct (finished fin (Panic (A := option error) msg) wa) as (Hef & Hor & Hof).
      destruct (emit fin wa) as [wf ofin]; cbn [fst snd] in *.
      exists [stamp wb attr], wa.
      rewrite Hef, Hea, <- !app_assoc.
      split; [done|]. split.
      { repeat constructor. by destruct (stamp_fields wb attr) as (-> & _). }
      split.
      { right. by destruct Hor as [->| ->]. }
      do 4 (split; [done|]).
      intros ? [= <-]. cbv zeta.
      split; [by left|]. split.
      { intros Ho. destruct Hor as [Hor|Hor]; rewrite Ho in Hor; done. }
      split; [done|]. split; [done|].
      intros Hreg Hne. by destruct Hra as [? _]; [|by left|].
  - (* the body returned nil *)
    destruct (finished fin (Done (None : option error)) wb) as (Hef & Hor & Hof).
    pose proof (emit_FINISH_SPAN fin wb Htf) as Hrf. rewrite Hsf in Hrf.
    destruct (emit fin wb) as [wf ofin]; cbn [fst snd] in *.
    exists [], wb. rewrite Hef. split; [done|]. split; [constructor|].
    split; [done|]. do 2 (split; [done|]).
    split; [intros _; exact Hof|]. split; [intros _ Hreg; by apply Hof, Hrf|done].
  - (* the body panicked *)
    destruct (finished fin (Panic (A := option error) msg) wb) as (Hef & Hor & Hof).
    destruct (emit fin wb) as [wf ofin]; cbn [fst snd] in *.
    exists [], wb. rewrite Hef. split; [done|]. split; [constructor|].
    split; [done|]. do 2 (split; [done|]). done.
  - destruct (finished fin (OutOfFuel (A := option error)) wb) as (Hef & Hor & Hof).
    destruct (emit fin wb) as [wf ofin]; cbn [fst snd] in *.
    exists [], wb. rewrite Hef. split; [done|]. split; [constructor|].
    split; [done|]. do 2 (split; [done|]). done.
Qed.

End sdk_facts.

End SdkFacts.

(** * Facts about the configuration *)
Module ConfigFacts.

Section config_facts.
Context {Sampler IDGenerator : Type}.

(** C8. On an initialised configuration [ApplyConfig] stores exactly one new
    value, which [Load] then returns. In it the sampler and the id generator
    are those of the argument when not nil, and each of the three caps is
    that of the argument when positive; every other field is as in the value
    loaded before. *)
Theorem ApplyConfig_merges (cfg c : trace.Config Sampler IDGenerator)
    (config : trace.atomic_Value Sampler IDGenerator) :
  trace.Load _ _ config = Some c →
  ∃ c',
    trace.ApplyConfig _ _ cfg config = (trace.Store _ _ c' config, Done tt) ∧
    trace.Load _ _ (trace.Store _ _ c' config) = Some c' ∧
    trace.DefaultSampler _ _ c' =
      (if trace.DefaultSampler _ _ cfg is Some s then Some s
       else trace.DefaultSampler _ _ c) ∧
    trace.IDGenerator_ _ _ c' =
      (if trace.IDGenerator_ _ _ cfg is Some g then Some g
       else trace.IDGenerator_ _ _ c) ∧
    trace.MaxEventsPerSpan _ _ c' =
      (if decide (0 < trace.MaxEventsPerSpan _ _ cfg)%Z
       then trace.MaxEventsPerSpan _ _ cfg else trace.MaxEventsPerSpan _ _ c) ∧
    trace.MaxAttributesPerSpan _ _ c' =
      (if decide (0 < trace.MaxAttributesPerSpan _ _ cfg)%Z
       then trace.MaxAttributesPerSpan _ _ cfg
       else trace.MaxAttributesPerSpan _ _ c) ∧
    trace.MaxLinksPerSpan _ _ c' =
      (if decide (0 < trace.MaxLinksPerSpan _ _ cfg)%Z
       then trace.MaxLinksPerSpan _ _ cfg else trace.MaxLinksPerSpan _ _ c).
Proof.
  intros Hload. unfold trace.ApplyConfig. rewrite Hload. cbv zeta.
  eexists. split; [reflexivity|]. split; [reflexivity|].
  destruct cfg as [s g me ma ml], c as [s0 g0 me0 ma0 ml0]. cbn.
  repeat split.
  - by destruct s, g, (me >? 0)%Z, (ma >? 0)%Z, (ml >? 0)%Z.
  - by destruct s, g, (me >? 0)%Z, (ma >? 0)%Z, (ml >? 0)%Z.
  - destruct (Z.gtb_spec me 0), (decide (0 < me)%Z); try lia;
      by destruct s, g, (ma >? 0)%Z, (ml >? 0)%Z.
  - destruct (Z.gtb_spec ma 0), (decide (0 < ma)%Z); try lia;
      by destruct s, g, (me >? 0)%Z, (ml >? 0)%Z.
  - destruct (Z.gtb_spec ml 0), (decide (0 < ml)%Z); try lia;
      by destruct s, g, (me >? 0)%Z, (ma >? 0)%Z.
Qed.

End config_facts.

End ConfigFacts.

(** * Further facts about the tracer *)
Module SdkProps.
Import sdk ReaderFacts SdkFacts ReaderProps.

Section sdk_props.
Context `{Api}.


(** X23. When [Start] returns it has put two events on the stream. The
    first is a NEW_SCOPE event chained off the tracer's resource scope that
    carries the attributes of the options; the second is the START_SPAN
    event, whose scope reference is the sequence number of the first with
    the new span context, whose parent reference has event identifier 0 and
    the resolved parent's span context, and which carries the name and the
    context passed in. The span's own identifier is the sequence number of
    the START_SPAN event, which differs from the scope's. The context
    returned has the new span as its active span and the tags of the
    context passed in. *)
Theorem Start_emits_scope_then_span (t : tracer) (ctx : Context) (name : string)
    (opts : list SpanOption) w w' ctx' sp :
  Start t ctx name opts w = (w', Done (ctx', sp)) →
  let o := fold_left (λ o opt, opt o) opts SpanOptions_zero in
  ∃ e1 e2,
    emitted w' = emitted w ++ [e1; e2] ∧
    observer.Type_ e1 = observer.NEW_SCOPE ∧
    observer.EventID_ (observer.Scope e1) = resources t ∧
    observer.Attributes e1 = opt_Attributes o ∧
    observer.Sequence e1 = wrap64 (sequenceNum w + 1) ∧
    observer.Type_ e2 = observer.START_SPAN ∧
    observer.EventID_ (observer.Scope e2) = observer.Sequence e1 ∧
    observer.SpanContext (observer.Scope e2) = observer.SpanContext (initial sp) ∧
    observer.Sequence e2 = wrap64 (observer.Sequence e1 + 1) ∧
    observer.Sequence e2 = observer.EventID_ (initial sp) ∧
    observer.Sequence e2 ≠ observer.Sequence e1 ∧
    observer.String_ e2 = name ∧
    observer.Context_ e2 = Some ctx ∧
    observer.Parent e2 = {| observer.EventID_ := 0;
                            observer.SpanContext := resolved_parent o ctx |} ∧
    tracer_ sp = t ∧ ctx_span ctx' = Some sp ∧ ctx_tags ctx' = ctx_tags ctx.
Proof.
  intros Hrun o. apply Start_run in Hrun as (w2 & w3 & Ho & He & Hs & _ & Hr1 & Hr2 & -> & Ht).
  fold o in Hr1, Hr2.
  match type of Hr1 with Record_ ?ev _ = _ =>
    pose proof (Record_emitted ev w2) as (Hem1 & _);
    destruct (stamp_fields w2 ev) as (Hty1 & Hsq1 & Hsc1 & _ & _ & _ & _ & Hat1 & _);
    set (e1 := stamp w2 ev) in *
  end.
  match type of Hr2 with Record_ ?ev _ = _ =>
    pose proof (Record_emitted ev w3) as (Hem2 & _);
    pose proof (Record_outcome ev w3) as Hout2;
    destruct (stamp_fields w3 ev) as (Hty2 & Hsq2 & Hsc2 & Hpa2 & Hcx2 & Hst2 & _);
    set (e2 := stamp w3 ev) in *
  end.
  rewrite Hr1 in Hem1. rewrite Hr2 in Hem2, Hout2. cbn [fst snd] in *.
  assert (sequenceNum w3 = next_seq w) as Hs3.
  { rewrite Record_run in Hr1. destruct (reader.orderedObserve _ _ _) as [s [[]| |]]; try done.
    injection Hr1 as <- _. cbn. unfold next_seq. by rewrite Hs. }
  assert (next_seq w2 = next_seq w) as Hn2 by (unfold next_seq; by rewrite Hs).
  assert (next_seq w3 = wrap64 (next_seq w + 1)) as Hn3 by (unfold next_seq; by rewrite Hs3).
  destruct Hout2 as [[= Hid]|?]; [|done].
  exists e1, e2. rewrite Hem2, Hem1, He, <- app_assoc.
  rewrite Hty1, Hsc1, Hat1, Hsq1, Hty2, Hsc2, Hsq2, Hpa2, Hcx2, Hst2, Hn2, Hn3.
  cbn. repeat split; try done.
  - by rewrite <- Hn3.
  - apply wrap64_succ_ne, next_seq_lt.
Qed.


(** X24. A span made by [Start] and finished by [Finish]: the FINISH_SPAN
    event is processed without a panic and removes the span node from the
    observer's table, but the scope node that [Start] made for the span's
    attributes stays in the table, since the span node is a root and the
    clean-up walks upwards from it. *)
Theorem finished_span_leaves_scope (t : tracer) (ctx : Context) (name : string)
    (opts : list SpanOption) w w1 ctx' sp :
  Start t ctx name opts w = (w1, Done (ctx', sp)) →
  observer.EventID_ (initial sp) ≠ 0 →
  let id := observer.EventID_ (initial sp) in
  let w2 := (Finish sp w1).1 in
  (Finish sp w1).2 = Done tt ∧
  next_seq w ≠ id ∧
  ∃ p,
    reader.scope_objs (obs w) !! p = None ∧
    reader.scopes (reader.ro (obs w1)) =
      <[id := reader.ISpan (length (reader.span_objs (obs w)))]>
        (<[next_seq w := reader.IScope p]> (reader.scopes (reader.ro (obs w)))) ∧
    reader.scopes (reader.ro (obs w2)) =
      delete id (<[next_seq w := reader.IScope p]> (reader.scopes (reader.ro (obs w)))) ∧
    reader.scopes (reader.ro (obs w2)) !! next_seq w = Some (reader.IScope p).
Proof.
  intros Hrun Hid id w2. subst id w2.
  apply Start_run in Hrun as (wa & wb & Ho & He & Hs & _ & Hr1 & Hr2 & -> & Ht).
  set (o := fold_left (λ o opt, opt o) opts SpanOptions_zero) in *.
  (* the scope *)
  rewrite Record_run in Hr1.
  match type of Hr1 with context [stamp wa ?ev] =>
    destruct (stamp_fields wa ev) as (Hty1 & Hsq1 & _);
    set (e1 := stamp wa ev) in *
  end.
  rewrite (orderedObserve_NEW_SCOPE tag_FromContext) in Hr1 by done.
  destruct (reader.scope_parent _ _).2 as [[[m|] osp]| |]; try done.
  injection Hr1 as <-. rewrite Ho in *.
  assert (next_seq wa = next_seq w) as Hn by (unfold next_seq; by rewrite Hs).
  rewrite Hn in Hsq1.
  (* the span *)
  rewrite Record_run in Hr2.
  match type of Hr2 with context [stamp ?wb ?ev] =>
    destruct (stamp_fields wb ev) as (Hty2 & Hsq2 & _);
    set (e2 := stamp wb ev) in *
  end.
  destruct (reader.orderedObserve _ e2 _) as [s [[]| |]] eqn:Hobs; try done.
  injection Hr2 as <- Hid2.
  apply orderedObserve_START_SPAN in Hobs as (c & rattrs & x & read & _ & _ & _ & ->);
    [|done].
  rewrite Hsq2, Hid2 in *.
  assert (next_seq w ≠ observer.EventID_ (initial sp)) as Hne.
  { rewrite <- Hid2. unfold next_seq at 2. cbn [sequenceNum with_obs recorded].
    rewrite Hn. intros Heq. symmetry in Heq. revert Heq.
    apply wrap64_succ_ne, next_seq_lt. }
  (* the finish *)
  unfold Finish. rewrite emit_run, Record_run.
  match goal with |- context [stamp ?wc ?ev] =>
    destruct (stamp_fields wc ev) as (Hty3 & _ & Hsc3 & _);
    set (e3 := stamp wc ev) in *
  end.
  cbn [span_event observer.Type_ observer.Scope] in Hty3, Hsc3.
  match goal with |- context [reader.orderedObserve _ e3 ?st] =>
    destruct (finish_root_span tag_FromContext e3 st
                (length (reader.span_objs (obs w)))
                (reader.started_span e2 (tag_FromContext c)
                   (length (reader.scope_objs (obs w) ++
                      [ {| reader.span := osp;
                           reader.parent := observer.EventID_ (observer.Scope e1);
                           reader.attributes := Some (tag_Apply m (reader.update_of e1)) |} ])))
                {| reader.span := Some (length (reader.span_objs (obs w)));
                   reader.parent := 0; reader.attributes := rattrs |})
      as [Hdone Htab]
  end.
  - done.
  - by rewrite Hsc3.
  - rewrite Hsc3. cbn. by rewrite lookup_insert_eq.
  - cbn. by rewrite lookup_app_r, Nat.sub_diag by done.
  - cbn. by rewrite lookup_app_r, Nat.sub_diag by done.
  - done.
  - destruct (reader.orderedObserve _ e3 _) as [s3 [[]| |]]; try done.
    cbn [fst snd] in *. split; [done|]. split; [done|].
    exists (length (reader.scope_objs (obs w))).
    split; [by apply lookup_ge_None_2|].
    split; [cbn; by rewrite Hsq1|].
    cbn [obs with_obs]. rewrite Htab, Hsc3. cbn. rewrite Hsq1.
    split; [by rewrite delete_insert_eq|].
    rewrite delete_insert_eq. rewrite lookup_delete_ne by done.
    by rewrite lookup_insert_eq.
Qed.

(** X26. [Start] cannot panic on a tracer whose resource scope is 0 or is in
    the observer's table, when every entry of the table resolves: it returns
    the new span and a context that has it as active span, and both
    conditions hold again afterwards, so the same tracer can start the next
    span. *)
Theorem Start_returns (t : tracer) (ctx : Context) (name : string)
    (opts : list SpanOption) w :
  reader.well_formed (obs w) →
  resources t = 0 ∨ is_Some (reader.scopes (reader.ro (obs w)) !! resources t) →
  ∃ w' sp,
    Start t ctx name opts w = (w', Done (SetCurrentSpan ctx sp, sp)) ∧
    reader.well_formed (obs w') ∧
    (resources t = 0 ∨ is_Some (reader.scopes (reader.ro (obs w')) !! resources t)).
Proof.
  intros Hwf Hres. unfold Start. rewrite bind_run.
  unfold rand_Uint64 at 1. cbv beta iota.
  set (o := fold_left (λ o opt, opt o) opts SpanOptions_zero).
  set (pS := if core.HasTraceID (ref_SpanContext (opt_Reference o)) then _ else _).
  assert (observer.EventID_ pS = 0) as HpS.
  { unfold pS. by destruct (core.HasTraceID _). }
  clearbody pS.
  set (w1 := {| sequenceNum := sequenceNum w |}).
  rewrite bind_run.
  assert (∃ w2 traceID,
    (if observer.HasTraceID pS
     then
       mret {| core.High := core.High (core.TraceID_ (observer.SpanContext pS));
               core.Low := core.Low (core.TraceID_ (observer.SpanContext pS)) |}
     else
       high ← rand_Uint64; low ← rand_Uint64;
       mret {| core.High := high; core.Low := low |}) w1 = (w2, Done traceID) ∧
    obs w2 = obs w) as (w2 & traceID & -> & Ho2).
  { destruct (observer.HasTraceID pS); by eexists _, _. }
  cbv beta iota. rewrite bind_run. unfold NewScope at 1. rewrite bind_run.
  rewrite Record_run.
  match goal with |- context [stamp w2 ?ev] =>
    destruct (stamp_fields w2 ev) as (Hty1 & Hsq1 & Hsc1 & _);
    set (e1 := stamp w2 ev) in *
  end.
  cbn [NewScope_event observer.Type_ observer.Scope] in Hty1, Hsc1.
  rewrite Ho2.
  destruct (orderedObserve_NEW_SCOPE_returns tag_FromContext e1 (obs w) Hwf Hty1)
    as [Hd1 Hin1]; [by rewrite Hsc1|].
  pose proof (orderedObserve_well_formed tag_FromContext e1 (obs w) Hwf) as Hwf1.
  pose proof (orderedObserve_table tag_FromContext e1 (obs w)) as Ht1.
  destruct (reader.orderedObserve tag_FromContext e1 (obs w)) as [s1 o1].
  cbn [fst snd] in *. subst o1. cbv beta iota. rewrite ret_run. cbv beta iota.
  rewrite bind_run, Record_run.
  match goal with |- context [stamp ?w3 ?ev] =>
    destruct (stamp_fields w3 ev) as (Hty2 & Hsq2 & Hsc2 & Hpa2 & Hcx2 & _);
    set (e2 := stamp w3 ev) in *
  end.
  cbn [Start_event observer.Type_ observer.Scope observer.Parent observer.Context_]
    in Hty2, Hsc2, Hpa2, Hcx2.
  cbn [obs with_obs].
  pose proof (orderedObserve_START_SPAN_returns tag_FromContext e2 s1 ctx Hwf1 Hty2 Hcx2)
    as Hd2.
  pose proof (orderedObserve_well_formed tag_FromContext e2 s1 Hwf1) as Hwf2.
  pose proof (orderedObserve_table tag_FromContext e2 s1) as Ht2.
  destruct (reader.orderedObserve tag_FromContext e2 s1) as [s2 o2].
  cbn [fst snd] in *. rewrite Hd2.
  2: by rewrite Hpa2.
  2: { right. rewrite Hsc2. cbn [observer.EventID_]. by rewrite <- Hsq1. }
  cbv beta iota. rewrite ret_run.
  eexists _, _. split; [reflexivity|]. split; [done|].
  destruct Hres as [Hz|Hin]; [by left|right]. cbn [obs with_obs].
  assert (is_Some (reader.scopes (reader.ro s1) !! resources t)) as Hin'.
  { destruct Ht1 as [->|[ent ->]]; [by rewrite Hty1|done|].
    destruct (decide (resources t = observer.Sequence e1)) as [->|Hne].
    - rewrite lookup_insert_eq. by eexists.
    - by rewrite lookup_insert_ne. }
  destruct Ht2 as [->|[ent ->]]; [by rewrite Hty2|done|].
  destruct (decide (resources t = observer.Sequence e2)) as [->|Hne].
  - rewrite lookup_insert_eq. by eexists.
  - by rewrite lookup_insert_ne.
Qed.

(** X27. The attributes of a started span: when [Start] returns, the
    START_SPAN record delivered to the sinks has as attributes the snapshot
    of the tracer's resource scope with the attributes of the start options
    applied, and the observer resolves the span's own identifier to that
    snapshot and the new span. This needs the sequence number of the scope
    event not to be 0, the value that the observer reads as "no scope". *)
Theorem Start_record_attributes (t : tracer) (ctx : Context) (name : string)
    (opts : list SpanOption) w w' ctx' sp m osp :
  Start t ctx name opts w = (w', Done (ctx', sp)) →
  next_seq w ≠ 0 →
  (reader.readScope {| observer.EventID_ := resources t;
                       observer.SpanContext := observer.SpanContext (initial sp) |}
     (obs w)).2 = Done (Some m, osp) →
  let o := fold_left (λ o opt, opt o) opts SpanOptions_zero in
  let attrs := Some (tag_Apply m {| tag.SingleKV := core_KeyValue_zero;
                                    tag.MultiKV := opt_Attributes o;
                                    tag.SingleMutator := tag_Mutator_zero;
                                    tag.MultiMutator := [] |}) in
  ∃ read,
    reader.delivered (obs w') =
      reader.delivered (obs w) ++ reader_terms.to_readers (obs w) read ∧
    reader.Type_ read = reader.START_SPAN ∧
    reader.Attributes read = attrs ∧
    ∀ sc, (reader.readScope {| observer.EventID_ := observer.EventID_ (initial sp);
                               observer.SpanContext := sc |} (obs w')).2 =
          if observer.EventID_ (initial sp) =? 0
          then Done (Some tag_NewEmptyMap, None)
          else Done (attrs, Some (length (reader.span_objs (obs w)))).
Proof.
  intros Hrun Hseq Hres o attrs.
  apply Start_run in Hrun as (wa & wb & Ho & He & Hs & _ & Hr1 & Hr2 & -> & Ht).
  fold o in Hr1, Hr2.
  (* the scope *)
  rewrite Record_run in Hr1.
  match type of Hr1 with context [stamp wa ?ev] =>
    destruct (stamp_fields wa ev) as (Hty1 & Hsq1 & Hsc1 & _ & _ & _ & Ha1 & Has1 & Hm1 & Hms1);
    set (e1 := stamp wa ev) in *
  end.
  cbn [NewScope_event observer.Scope observer.Attribute observer.Attributes
       observer.Mutator observer.Mutators] in Hsc1, Ha1, Has1, Hm1, Hms1.
  rewrite (orderedObserve_NEW_SCOPE tag_FromContext) in Hr1 by done.
  rewrite Ho, Hsc1 in Hr1. apply scope_parent_of_readScope in Hres.
  rewrite Hres in Hr1. injection Hr1 as <-.
  assert (next_seq wa = next_seq w) as Hn by (unfold next_seq; by rewrite Hs).
  rewrite Hn in Hsq1.
  assert (reader.update_of e1 =
          {| tag.SingleKV := core_KeyValue_zero; tag.MultiKV := opt_Attributes o;
             tag.SingleMutator := tag_Mutator_zero; tag.MultiMutator := [] |}) as Hup.
  { unfold reader.update_of. by rewrite Ha1, Has1, Hm1, Hms1. }
  rewrite Hup in Hr2. fold attrs in Hr2.
  (* the span *)
  rewrite Record_run in Hr2.
  match type of Hr2 with context [stamp ?wb ?ev] =>
    destruct (stamp_fields wb ev) as (Hty2 & Hsq2 & Hsc2 & Hpa2 & _);
    set (e2 := stamp wb ev) in *
  end.
  cbn [Start_event observer.Scope observer.Parent] in Hsc2, Hpa2.
  destruct (reader.orderedObserve _ e2 _) as [s [[]| |]] eqn:Hobs; try done.
  injection Hr2 as <- Hid2.
  apply orderedObserve_START_SPAN in Hobs as (c & rattrs & x & read & _ & Hrs & Hp & ->);
    [|done].
  rewrite start_span_parent_zero in Hp by (by rewrite Hpa2).
  cbn [snd] in Hp.
  (* what the span's scope reference resolves to *)
  assert (rattrs = attrs) as ->.
  { rewrite readScope_run in Hrs. cbn [snd] in Hrs. rewrite Hsc2 in Hrs.
    cbn [observer.EventID_] in Hrs.
    destruct (next_seq w =? 0) eqn:Hz; [by apply N.eqb_eq in Hz|].
    rewrite ro_started in Hrs. cbn [obs with_obs] in Hrs.
    unfold reader.scoped in Hrs at 1. cbn [reader.ro reader.with_scopes reader.scopes] in Hrs.
    rewrite Hsq1, lookup_insert_eq in Hrs.
    cbn [reader.resolve] in Hrs. rewrite scope_objs_started in Hrs.
    unfold reader.scoped in Hrs. cbn [reader.scope_objs reader.with_scopes reader.with_scope_objs] in Hrs.
    rewrite lookup_app_l in Hrs by (rewrite length_app; cbn; lia).
    rewrite lookup_app_r, Nat.sub_diag in Hrs by done. cbn in Hrs.
    by injection Hrs as <- _. }
  exists read. split; [done|].
  assert (reader.Type_ read = reader.START_SPAN ∧ reader.Attributes read = attrs) as [Hty Hat].
  { destruct (observer.HasTraceID _); by injection Hp as <-. }
  split; [done|]. split; [done|].
  intros sc. rewrite readScope_run. cbn [snd observer.EventID_].
  destruct (_ =? 0); [done|].
  cbn [obs with_obs]. rewrite <- Hid2. unfold next_seq at 1. 
  cbn. rewrite Hsq2. unfold next_seq at 1 2. cbn. rewrite lookup_insert_eq.
  cbn. rewrite lookup_app_r, Nat.sub_diag by done. cbn.
  by rewrite lookup_app_r, Nat.sub_diag by done.
Qed.

End sdk_props.

End SdkProps.

(** * Further facts about the configuration *)
Module ConfigProps.
Import trace_terms ReaderFacts.

Section config_props.
Context {Sampler IDGenerator : Type}.
Local Abbreviation Config := (trace.Config Sampler IDGenerator).
Local Abbreviation atomic_Value := (trace.atomic_Value Sampler IDGenerator).


Lemma ApplyConfig_run (cfg c : Config) (config : atomic_Value) :
  trace.Load _ _ config = Some c →
  trace.ApplyConfig _ _ cfg config = (overlay c cfg :: config, Done tt).
Proof.
  intros Hload. unfold trace.ApplyConfig. rewrite Hload. cbv zeta.
  unfold trace.Store. f_equal. f_equal.
  destruct cfg as [s g me ma ml], c as [s0 g0 me0 ma0 ml0]. unfold overlay. cbn.
  by destruct s, g, (me >? 0)%Z, (ma >? 0)%Z, (ml >? 0)%Z.
Qed.

Lemma usable_overlay (c cfg : Config) : usable c → usable (overlay c cfg).
Proof.
  intros (Hs & Hg & He & Ha & Hl). unfold usable, overlay. cbn.
  repeat split.
  - by destruct (trace.DefaultSampler _ _ cfg).
  - by destruct (trace.IDGenerator_ _ _ cfg).
  - destruct (Z.gtb_spec (trace.MaxEventsPerSpan _ _ cfg) 0); lia.
  - destruct (Z.gtb_spec (trace.MaxAttributesPerSpan _ _ cfg) 0); lia.
  - destruct (Z.gtb_spec (trace.MaxLinksPerSpan _ _ cfg) 0); lia.
Qed.

(** X20. From a configuration that has a sampler, an id generator and
    positive caps, no sequence of [ApplyConfig] calls panics or leads to a
    configuration without them: [ApplyConfig] cannot unset a sampler or a
    generator and cannot make a cap zero or negative. Each call stores one
    new value. *)
Theorem ApplyConfig_keeps_usable (cfgs : list Config) : ∀ (config : atomic_Value) c,
  trace.Load _ _ config = Some c → usable c →
  (ApplyConfigs cfgs config).2 = Done tt ∧
  length (ApplyConfigs cfgs config).1 = (length cfgs + length config)%nat ∧
  ∃ c', trace.Load _ _ (ApplyConfigs cfgs config).1 = Some c' ∧ usable c'.
Proof.
  induction cfgs as [|cfg cfgs IH]; intros config c Hload Hok.
  - cbn. split; [done|]. split; [done|]. by exists c.
  - cbn [ApplyConfigs]. rewrite bind_run, (ApplyConfig_run cfg c) by done.
    destruct (IH (overlay c cfg :: config) (overlay c cfg) eq_refl (usable_overlay _ _ Hok))
      as (Hdone & Hlen & c' & Hc' & Hok').
    split; [done|]. split; [rewrite Hlen; cbn; lia|]. by exists c'.
Qed.

Lemma overlay_assoc (c a b : Config) :
  overlay (overlay c a) b = overlay c (overlay a b).
Proof.
  destruct a as [s g me ma ml], b as [s' g' me' ma' ml'], c as [s0 g0 me0 ma0 ml0].
  unfold overlay. cbn. f_equal.
  - by destruct s'.
  - by destruct g'.
  - destruct (me' >? 0)%Z eqn:E; [by rewrite E|]. by destruct (me >? 0)%Z.
  - destruct (ma' >? 0)%Z eqn:E; [by rewrite E|]. by destruct (ma >? 0)%Z.
  - destruct (ml' >? 0)%Z eqn:E; [by rewrite E|]. by destruct (ml >? 0)%Z.
Qed.

(** X21. Two calls of [ApplyConfig] leave the same configuration as one call
    with the second argument laid over the first: for every field the later
    call wins when it provides the field, the earlier one when only it
    does. *)
Theorem ApplyConfig_compose (a b c : Config) (config : atomic_Value) :
  trace.Load _ _ config = Some c →
  ((trace.ApplyConfig _ _ a;; trace.ApplyConfig _ _ b) config).2 = Done tt ∧
  trace.Load _ _ ((trace.ApplyConfig _ _ a;; trace.ApplyConfig _ _ b) config).1 =
    trace.Load _ _ (trace.ApplyConfig _ _ (overlay a b) config).1.
Proof.
  intros Hload. rewrite bind_run, (ApplyConfig_run a c) by done.
  rewrite (ApplyConfig_run b (overlay c a)) by done.
  rewrite (ApplyConfig_run (overlay a b) c) by done.
  cbn. by rewrite overlay_assoc.
Qed.

(** X22. [ApplyConfig] is idempotent: applying the same argument a second
    time leaves the configuration that the first call stored. *)
Theorem ApplyConfig_idempotent (cfg c : Config) (config : atomic_Value) :
  trace.Load _ _ config = Some c →
  trace.Load _ _ ((trace.ApplyConfig _ _ cfg;; trace.ApplyConfig _ _ cfg) config).1 =
    trace.Load _ _ (trace.ApplyConfig _ _ cfg config).1.
Proof.
  intros Hload. rewrite bind_run, !(ApplyConfig_run cfg c) by done.
  rewrite (ApplyConfig_run cfg (overlay c cfg)) by done. cbn. f_equal.
  rewrite overlay_assoc. f_equal.
  destruct cfg as [s g me ma ml]. unfold overlay. cbn. f_equal.
  - by destruct s.
  - by destruct g.
  - destruct (me >? 0)%Z eqn:E; by rewrite ?E.
  - destruct (ma >? 0)%Z eqn:E; by rewrite ?E.
  - destruct (ml >? 0)%Z eqn:E; by rewrite ?E.
Qed.

End config_props.

End ConfigProps.

(** * Facts about the strings of the event types *)
Module StringProps.
Import eventtype_string.

Lemma append_inj_r (s t : string) c : s +:+ String c "" = t +:+ String c "" → s = t.
Proof.
  revert t. induction s as [|x s IH]; intros [|y t]; simpl; intros Heq.
  - done.
  - injection Heq as -> Heq. by destruct t.
  - injection Heq as -> Heq. by destruct s.
  - injection Heq as -> Heq. f_equal. by apply IH.
Qed.

Lemma in_range (i : Z) :
  (0 ≤ i < 10)%Z →
  i = 0%Z ∨ i = 1%Z ∨ i = 2%Z ∨ i = 3%Z ∨ i = 4%Z ∨ i = 5%Z ∨ i = 6%Z ∨
  i = 7%Z ∨ i = 8%Z ∨ i = 9%Z.
Proof. lia. Qed.

Lemma EventType_String_named (i : Z) :
  (0 ≤ i < 10)%Z → EventType_String i = Done (default "" (names !! Z.to_nat i)).
Proof.
  intros Hi. apply in_range in Hi.
  repeat (destruct Hi as [->|Hi]; [vm_compute; reflexivity|]).
  subst. vm_compute. reflexivity.
Qed.

Lemma EventType_String_fallback (i : Z) :
  ¬ (0 ≤ i < 10)%Z → EventType_String i = Done ("EventType(" +:+ pretty i +:+ ")").
Proof.
  intros Hi. unfold EventType_String.
  replace ((i <? 0)%Z || (i >=? Z.of_nat (length _EventType_index) - 1)%Z) with true; [done|].
  symmetry. apply orb_true_iff. cbn [length _EventType_index].
  destruct (Z.ltb_spec i 0); [by left|right].
  apply Z.geb_le. lia.
Qed.

(** X18. [EventType.String] never panics: the bounds it slices the name
    table with are always in order and within the table. For the values 0 to
    9 it returns the name the table holds for the value, which for 3 and 4
    is LOG_EVENT and LOGF_EVENT; for every other value, negative or 10 and
    above, it returns "EventType(n)" with n in decimal. *)
Theorem EventType_String_names (i : Z) :
  EventType_String i =
  Done (if decide (0 ≤ i < 10)%Z then default "" (names !! Z.to_nat i)
        else "EventType(" +:+ pretty i +:+ ")").
Proof.
  destruct (decide (0 ≤ i < 10)%Z) as [Hi|Hi].
  - by apply EventType_String_named.
  - by apply EventType_String_fallback.
Qed.

Lemma name_not_fallback (n : nat) s x :
  names !! n = Some s → s ≠ "EventType(" +:+ x.
Proof.
  intros Hn. do 10 (destruct n as [|n]; [injection Hn as <-; discriminate|]).
  done.
Qed.

Lemma names_NoDup : NoDup names.
Proof. apply (bool_decide_unpack _). by vm_compute. Qed.

(** X19. Two different event type values never print the same string. *)
Theorem EventType_String_injective (i j : Z) :
  i ≠ j → EventType_String i ≠ EventType_String j.
Proof.
  intros Hne Heq. apply Hne. clear Hne.
  destruct (decide (0 ≤ i < 10)%Z) as [Hi|Hi], (decide (0 ≤ j < 10)%Z) as [Hj|Hj].
  - rewrite (EventType_String_named i Hi), (EventType_String_named j Hj) in Heq.
    injection Heq as Heq.
    destruct (lookup_lt_is_Some_2 names (Z.to_nat i)) as [s Hs]; [cbn; lia|].
    destruct (lookup_lt_is_Some_2 names (Z.to_nat j)) as [t Ht]; [cbn; lia|].
    rewrite Hs, Ht in Heq. cbn in Heq. subst t.
    pose proof (NoDup_lookup _ _ _ _ names_NoDup Hs Ht). lia.
  - rewrite (EventType_String_named i Hi), (EventType_String_fallback j Hj) in Heq.
    injection Heq as Heq.
    destruct (lookup_lt_is_Some_2 names (Z.to_nat i)) as [s Hs]; [cbn; lia|].
    rewrite Hs in Heq. cbn [default] in Heq.
    by destruct (name_not_fallback _ _ _ Hs Heq).
  - rewrite (EventType_String_fallback i Hi), (EventType_String_named j Hj) in Heq.
    injection Heq as Heq.
    destruct (lookup_lt_is_Some_2 names (Z.to_nat j)) as [s Hs]; [cbn; lia|].
    rewrite Hs in Heq. cbn [default] in Heq. symmetry in Heq.
    by destruct (name_not_fallback _ _ _ Hs Heq).
  - rewrite (EventType_String_fallback i Hi), (EventType_String_fallback j Hj) in Heq.
    injection Heq as Heq.
    apply (inj _) in Heq. apply append_inj_r in Heq. by apply (inj pretty).
Qed.

End StringProps.

(** * The theorems on the scenario *)
Module Scenario.
Import scenario reader ReaderFacts SdkFacts ConfigFacts.

(** The theorem of C1 on the MODIFY_ATTR event of the scenario. *)
Lemma modify_attr_snapshot_witness :
  (orderedObserve fc e_modify st1).2 = Done tt ∧
  scope_objs (orderedObserve fc e_modify st1).1 !! 1%nat =
    Some {| span := Some 0%nat; parent := 1; attributes := Some [("y", "2")] |} ∧
  resolve (orderedObserve fc e_modify st1).1 (ISpan 0) = Some (Some [], Some 0%nat).
Proof.
  destruct (modify_attr_snapshot fc e_modify st1 (ISpan 0) [] (Some 0%nat))
    as (H1 & _ & H3 & H4 & _).
  - right. reflexivity.
  - discriminate.
  - vm_compute. reflexivity.
  - vm_compute. reflexivity.
  - intros l [= <-]. vm_compute. eauto.
  - split; [exact H1|]. split; [exact H3|exact H4].
Defined.

(** The theorem of C2 on the FINISH_SPAN event of the scenario. *)
Lemma finish_span_cleanup_witness :
  (orderedObserve fc e_finish st2).2 = Done tt ∧
  (size (scopes (ro (orderedObserve fc e_finish st2).1)) + 1)%nat =
    size (scopes (ro st2)) ∧
  scopes (ro (orderedObserve fc e_finish st2).1) !! 2 = scopes (ro st2) !! 2.
Proof.
  destruct (finish_span_cleanup fc e_finish st2 [1] (Some []) 0%nat)
    as (H1 & _ & H3 & _ & H5 & _).
  - reflexivity.
  - eapply (walk_step st2 1 (ISpan 0) 0 []);
      [discriminate|vm_compute; reflexivity|vm_compute; reflexivity|constructor].
  - vm_compute. reflexivity.
  - vm_compute. eauto.
  - split; [exact H1|]. split; [exact H3|].
    apply H5. intros Hin. apply list_elem_of_singleton in Hin. discriminate.
Defined.

(** C2 as stated fails: after START_SPAN (sequence 1) and MODIFY_ATTR
    (sequence 2, scope 1) the table holds the span and one scope node owned
    by it; FINISH_SPAN with the span's own identifier as scope removes the
    span node only, so the size goes from 2 to 1 and not to 0. *)
Lemma finish_span_cleanup_counterexample :
  ¬ (∀ (e : observer.Event sdk.Context) (st : state) attrs l,
       observer.Type_ e = observer.FINISH_SPAN →
       scopes (ro st) !! observer.EventID_ (observer.Scope e) = Some (ISpan l) →
       (readScope (observer.Scope e) st).2 = Done (attrs, Some l) →
       (orderedObserve fc e st).2 = Done tt →
       (size (scopes (ro (orderedObserve fc e st).1)) + (owned_scopes st l + 1))%nat =
         size (scopes (ro st))).
Proof.
  intros Hclaim.
  specialize (Hclaim e_finish st2 (Some []) 0%nat).
  assert (3 = 2)%nat as Habs; [|discriminate].
  apply Hclaim; vm_compute; reflexivity.
Qed.

(** The theorem of C4 on the scenario. *)
Lemma span_nodes_are_roots_witness :
  root_span (observe_all fc [e_start; e_modify] st0).1 0.
Proof.
  apply (proj2 (span_nodes_are_roots fc) [0%nat; 1%nat] [e_start; e_modify] 1 0%nat).
  vm_compute. reflexivity.
Defined.

(** The theorem of C5 on the scenario: the span lasted 15 - 10. *)
Lemma finish_reports_start_witness :
  ∃ read,
    delivered (orderedObserve fc e_finish st2).1 =
      delivered st2 ++ [(0%nat, read); (1%nat, read)] ∧
    Duration read = 5%Z ∧ Tags read = Some [("t", "1")] ∧ Name read = "op".
Proof.
  destruct (finish_reports_start fc e_start [e_modify] e_finish st0 st1 st2 0%nat (Some []))
    as (c & read & Hc & Hd & _ & Hdur & Htags & Hname & _).
  - reflexivity.
  - vm_compute. reflexivity.
  - vm_compute. reflexivity.
  - vm_compute. reflexivity.
  - reflexivity.
  - vm_compute. reflexivity.
  - exists read. injection Hc as <-.
    split; [exact Hd|]. split; [exact Hdur|]. split; [exact Htags|exact Hname].
Defined.

(** The theorem of C6 on a FINISH_SPAN event for an unknown span. *)
Lemma absent_reference_panics_witness :
  (orderedObserve fc e_finish st0).2 = Panic "scope not found" ∧
  delivered (orderedObserve fc e_finish st0).1 = [].
Proof.
  destruct (proj1 (absent_reference_panics fc) e_finish st0) as (H1 & H2 & _).
  - split; [discriminate|reflexivity].
  - split; [exact H1|exact H2].
Defined.

(** The theorem of C10 on the MODIFY_ATTR event of the scenario. *)
Lemma delivery_of_records_witness :
  ∃ read,
    delivered (orderedObserve fc e_modify st1).1 =
      delivered st1 ++ [(0%nat, read); (1%nat, read)] ∧
    Sequence read = 2.
Proof.
  destruct (proj2 (delivery_of_records fc e_modify st1) eq_refl eq_refl
              (dispatch fc e_modify (initial_read fc e_modify) st1).1
              (returned None (dispatch fc e_modify (initial_read fc e_modify) st1).2))
    as (read & _ & Hseq & _ & _ & _ & Hd).
  - vm_compute. reflexivity.
  - exists read. split; [exact Hd|exact Hseq].
Defined.

(** The theorem of C3 on span C of the scenario, started while B is the
    active span: B's snapshot holds two attributes, the record has none. *)
Lemma Start_parent_resolution_witness :
  core.TraceID_ (observer.SpanContext (sdk.initial span_C)) =
    core.TraceID_ (observer.SpanContext (sdk.initial span_B)) ∧
  ∃ read,
    delivered (sdk.obs start_C.1) =
      delivered (sdk.obs start_B.1) ++ [(0%nat, read); (1%nat, read)] ∧
    Parent read = observer.SpanContext (sdk.initial span_B) ∧
    ParentAttributes read = None.
Proof.
  destruct (Start_parent_resolution t1 ctx_B "C" [] start_B.1 start_C.1 ctx_C span_C)
    as (_ & Htr & _ & read & Hd & _ & _ & _ & _ & _ & Hp & Hpa).
  - vm_compute. reflexivity.
  - split; [exact Htr|]. exists read.
    split; [exact Hd|]. split; [exact Hp|exact Hpa].
Defined.

(** The theorem of C7 on a body that returns an error. *)
Lemma WithSpan_finishes_once_witness :
  (sdk.WithSpan t1 ctx0 "op" failing_body with_service.1).2 = Done (Some "boom") ∧
  map observer.Type_ (sdk.emitted (sdk.WithSpan t1 ctx0 "op" failing_body with_service.1).1) =
    [observer.NEW_SCOPE; observer.NEW_SCOPE; observer.START_SPAN;
     observer.MODIFY_ATTR; observer.ADD_EVENT; observer.FINISH_SPAN].
Proof.
  pose proof (WithSpan_finishes_once t1 ctx0 "op" failing_body with_service.1
                start_op.1 ctx_op span_op) as H.
  assert (sdk.Start t1 ctx0 "op" [] with_service.1 =
            (start_op.1, Done (ctx_op, span_op))) as Hstart
    by (vm_compute; reflexivity).
  specialize (H Hstart). cbv zeta in H.
  destruct H as (Hreg & pre & wf & Hem & _ & _ & _ & _ & _ & _ & Herr).
  assert ((failing_body ctx_op start_op.1).2 = Done (Some "boom")) as Hrb
    by (vm_compute; reflexivity).
  specialize (Herr _ Hrb).
  destruct Herr as (_ & _ & _ & _ & Hret).
  assert (observer.EventID_ (sdk.initial span_op) ≠ 0) as Hne
    by (vm_compute; discriminate).
  specialize (Hreg Hne).
  assert (sdk.obs (failing_body ctx_op start_op.1).1 = sdk.obs start_op.1) as Hobs
    by (vm_compute; reflexivity).
  rewrite <- Hobs in Hreg.
  assert (sdk.next_seq (failing_body ctx_op start_op.1).1 ≠
            observer.EventID_ (sdk.initial span_op)) as Hseq
    by (vm_compute; discriminate).
  destruct (Hret Hreg Hseq) as [Ho Hpre].
  split; [exact Ho|].
  rewrite Hem, Hpre. vm_compute. reflexivity.
Defined.

(** The theorem of C8 on a partial update of the defaults. *)
Lemma ApplyConfig_merges_witness :
  trace.ApplyConfig unit unit config_update [config0] =
    ([ {| trace.DefaultSampler := Some tt; trace.IDGenerator_ := Some tt;
          trace.MaxEventsPerSpan := 128; trace.MaxAttributesPerSpan := 64;
          trace.MaxLinksPerSpan := 32 |}; config0 ], Done tt).
Proof.
  destruct (ApplyConfig_merges config_update config0 [config0] eq_refl)
    as (c' & -> & _ & Hs & Hg & He & Ha & Hl).
  unfold trace.Store. f_equal. f_equal.
  destruct c' as [s g me ma ml]. cbn in Hs, Hg, He, Ha, Hl. by subst.
Defined.

(** The theorem of C9 on the first resource of a new tracer. *)
Lemma WithResources_chains_scope_witness :
  with_service.2 = Done {| sdk.resources := 1 |} ∧
  map observer.Type_ (sdk.emitted with_service.1) = [observer.NEW_SCOPE].
Proof.
  destruct (WithResources_chains_scope sdk.New [Key_String sdk.ServiceKey "svc"] w0)
    as (Hem & Hty & _ & _ & _ & _ & Hz & _).
  split.
  - exact (Hz eq_refl).
  - unfold with_service, sdk.WithService. rewrite Hem. cbn [map sdk.emitted w0 app].
    by rewrite Hty.
Defined.

End Scenario.

(** * The further facts on the scenario *)
Module ScenarioProps.
Import scenario reader reader_terms trace_terms eventtype_string.
Import ReaderFacts ReaderProps SdkProps ConfigProps StringProps.

(** X1 on an event logged on the scope of the scenario. *)
Lemma add_event_record_witness :
  ∃ read,
    orderedObserve fc e_add st2 =
      (with_delivered (λ d, d ++ to_readers st2 read) st2, Done tt) ∧
    Message read = "hit" ∧
    Attributes read = Some [("y", "2"); ("k", "v")].
Proof.
  destruct (add_event_record fc e_add st2 [("y", "2")] (Some 0%nat))
    as (read & Hrun & _ & Hmsg & Hat & _).
  - reflexivity.
  - vm_compute. reflexivity.
  - intros l [= <-]. vm_compute. eauto.
  - exists read. split; [exact Hrun|]. split; [exact Hmsg|exact Hat].
Defined.

(** X2 on an event with one stat in the list and a single stat. *)
Lemma record_stats_measurements_witness :
  ∃ read,
    orderedObserve fc e_stats st2 =
      (with_delivered (λ d, d ++ to_readers st2 read) st2, Done tt) ∧
    Stats read = [measurement_of latency; measurement_of size_stat].
Proof.
  destruct (record_stats_measurements fc e_stats st2 (Some []) (Some 0%nat))
    as (read & Hrun & _ & Hst & _).
  - reflexivity.
  - vm_compute. reflexivity.
  - intros l [= <-]. vm_compute. eauto.
  - exists read. split; [exact Hrun|exact Hst].
Defined.

(** X3 on the span of the scenario. *)
Lemma set_status_in_place_witness :
  (orderedObserve fc e_status st2).2 = Done tt ∧
  status <$> span_objs (orderedObserve fc e_status st2).1 !! 0%nat = Some 2 ∧
  ro (orderedObserve fc e_status st2).1 = ro st2.
Proof.
  edestruct (set_status_in_place fc e_status st2 (Some []) 0%nat)
    as (Hdone & Hsp & _ & _ & Hro & _).
  - reflexivity.
  - vm_compute. reflexivity.
  - vm_compute. reflexivity.
  - split; [exact Hdone|]. split; [|exact Hro]. rewrite Hsp. reflexivity.
Defined.

(** X4 on the FINISH_SPAN record of the scenario. *)
Lemma status_not_reported_witness :
  (1%nat, finish_record) ∈ delivered st2 ∨ Status finish_record = 0.
Proof.
  apply (status_not_reported fc e_finish st2 1%nat finish_record).
  - discriminate.
  - apply (list_elem_of_lookup_2 _ 5). vm_compute. reflexivity.
Defined.

(** X5 on a measure and a metric of it. *)
Lemma metric_of_measure_witness :
  metrics (ro (orderedObserve fc e_metric (orderedObserve fc e_measure st0).1).1) !! 5 =
    Some {| metric_measure := {| measure_name := "latency" |} |}.
Proof.
  destruct (metric_of_measure fc e_measure e_metric st0) as (_ & _ & _ & Hm & _).
  - reflexivity.
  - reflexivity.
  - reflexivity.
  - exact Hm.
Defined.

(** X6 on a FINISH_SPAN event without a scope reference. *)
Lemma finish_without_span_panics_witness :
  orderedObserve fc e_finish_root st2 = (st2, Panic "span not found").
Proof.
  apply (finish_without_span_panics fc e_finish_root st2).
  - reflexivity.
  - left. reflexivity.
Defined.

(** X7 on the FINISH_SPAN event of the scenario, processed twice. *)
Lemma finish_twice_panics_witness :
  orderedObserve fc e_finish st3 = (st3, Panic "scope not found").
Proof.
  destruct (finish_twice_panics fc e_finish e_finish st2) as [_ Hp].
  - reflexivity.
  - reflexivity.
  - reflexivity.
  - vm_compute. reflexivity.
  - exact Hp.
Defined.

(** X10 on a span started with the scope of the scenario as parent. *)
Lemma start_span_local_parent_witness :
  ∃ read,
    delivered (orderedObserve fc e_child st2).1 = delivered st2 ++ to_readers st2 read ∧
    Parent read = observer.SpanContext (observer.Scope e_start) ∧
    ParentAttributes read = Some [("y", "2")].
Proof.
  edestruct (start_span_local_parent fc e_child st2 ctx0 (Some []) None
               (Some [("y", "2")]) 0%nat)
    as (read & _ & Hd & _ & Hp & Hpa & _).
  - reflexivity.
  - reflexivity.
  - discriminate.
  - vm_compute. reflexivity.
  - vm_compute. reflexivity.
  - vm_compute. reflexivity.
  - exists read. split; [exact Hd|]. split; [exact Hp|exact Hpa].
Defined.

(** X11 on the START_SPAN event of the scenario. *)
Lemma start_span_round_trip_witness :
  ∃ l sp,
    readScope {| observer.EventID_ := 1; observer.SpanContext := core.EmptySpanContext |}
      (orderedObserve fc e_start st0).1 =
      ((orderedObserve fc e_start st0).1, Done (Some [], Some l)) ∧
    span_objs (orderedObserve fc e_start st0).1 !! l = Some sp ∧
    name sp = "op".
Proof.
  destruct (start_span_round_trip fc e_start st0 ctx0 (Some []) None)
    as (l & sp & Hr & _ & Hl & Hn & _).
  - reflexivity.
  - reflexivity.
  - discriminate.
  - vm_compute. reflexivity.
  - vm_compute. reflexivity.
  - exists l, sp. split; [exact (Hr core.EmptySpanContext)|]. split; [exact Hl|exact Hn].
Defined.

(** X12 on the MODIFY_ATTR event of the scenario. *)
Lemma scope_round_trip_witness :
  readScope {| observer.EventID_ := 2; observer.SpanContext := core.EmptySpanContext |}
    (orderedObserve fc e_modify st1).1 =
    ((orderedObserve fc e_modify st1).1, Done (Some [("y", "2")], Some 0%nat)).
Proof.
  destruct (scope_round_trip fc e_modify st1 [] (Some 0%nat)) as [_ Hr].
  - right. reflexivity.
  - discriminate.
  - vm_compute. reflexivity.
  - intros l [= <-]. vm_compute. eauto.
  - exact (Hr core.EmptySpanContext).
Defined.

(** X13 on the MODIFY_ATTR event of the scenario, which has no context. *)
Lemma modify_attr_record_witness :
  ∃ read,
    delivered (orderedObserve fc e_modify st1).1 = delivered st1 ++ to_readers st1 read ∧
    Attributes read = Some [("y", "2")] ∧
    Tags read = Some [("t", "1")].
Proof.
  destruct (modify_attr_record fc e_modify st1 [] (Some 0%nat))
    as (read & _ & Hd & _ & Hat & _ & Hsp).
  - reflexivity.
  - vm_compute. reflexivity.
  - intros l [= <-]. vm_compute. eauto.
  - exists read. split; [exact Hd|]. split; [exact Hat|].
    edestruct Hsp as [_ Htg]; [vm_compute; reflexivity|exact Htg].
Defined.

(** X14: the MODIFY_ATTR event of the scenario leaves the span's snapshot. *)
Lemma other_ids_unaffected_witness :
  (readScope (observer.Scope e_modify) (orderedObserve fc e_modify st1).1).2 =
    Done (Some [], Some 0%nat).
Proof.
  apply (other_ids_unaffected fc e_modify st1).
  - discriminate.
  - discriminate.
  - vm_compute. reflexivity.
Defined.

(** X15 on the three events of the scenario and its two sinks. *)
Lemma readers_see_same_records_witness :
  ∃ reads,
    map Sequence reads `sublist_of` [1; 2; 3] ∧
    ∀ r, r ∈ [0%nat; 1%nat] →
         received r (delivered (observe_all fc [e_start; e_modify; e_finish] st0).1) =
         reads.
Proof.
  destruct (readers_see_same_records fc [e_start; e_modify; e_finish] st0)
    as (reads & Hs & Hr).
  - apply (bool_decide_unpack _). vm_compute. exact I.
  - exists reads. split; [exact Hs|exact Hr].
Defined.

(** X16 on a FINISH_SPAN event for an unknown span. *)
Lemma panics_are_explicit_witness :
  "scope not found" ∈ explicit_panics ∨
  observer.Type_ e_finish = observer.START_SPAN ∧ observer.Context_ e_finish = None ∧
  "scope not found" = nil_dereference.
Proof.
  apply (panics_are_explicit fc e_finish st0).
  - exact (reachable_well_formed fc [0%nat; 1%nat] []).
  - vm_compute. reflexivity.
Defined.

(** X17 on a FINISH_SPAN event that names the scope left behind by the
    finished span: its record is delivered, its clean-up panics. *)
Lemma panic_leaves_tables_witness :
  ro (orderedObserve fc e_finish_scope st3).1 = ro st3 ∧
  delivered (orderedObserve fc e_finish_scope st3).1 = delivered st3 ∨
  observer.Type_ e_finish_scope = observer.FINISH_SPAN ∧
  "scope not found" = "scope not found" ∧
  scopes (ro (orderedObserve fc e_finish_scope st3).1) ⊆ scopes (ro st3) ∧
  ∃ read, delivered (orderedObserve fc e_finish_scope st3).1 =
          delivered st3 ++ to_readers st3 read.
Proof.
  apply (panic_leaves_tables fc e_finish_scope st3 "scope not found").
  - exact (reachable_well_formed fc [0%nat; 1%nat] [e_start; e_modify; e_finish]).
  - vm_compute. reflexivity.
Defined.

(** X19 on the values of ADD_EVENT and ADD_EVENTF. *)
Lemma EventType_String_injective_witness :
  EventType_String 3 ≠ EventType_String 4.
Proof. apply (EventType_String_injective 3 4). discriminate. Defined.

(** X20 on two partial updates of the defaults. *)
Lemma ApplyConfig_keeps_usable_witness :
  (ApplyConfigs [config_update; config_update] [config0]).2 = Done tt ∧
  ∃ c', trace.Load _ _ (ApplyConfigs [config_update; config_update] [config0]).1 = Some c' ∧
        usable c'.
Proof.
  destruct (ApplyConfig_keeps_usable [config_update; config_update] [config0] config0)
    as (Hdone & _ & Hc).
  - reflexivity.
  - repeat split; try (by eexists); reflexivity.
  - split; [exact Hdone|exact Hc].
Defined.

(** X21 on the partial update followed by the defaults. *)
Lemma ApplyConfig_compose_witness :
  trace.Load _ _ ((trace.ApplyConfig _ _ config_update;;
                   trace.ApplyConfig _ _ config0) [config0]).1 =
  trace.Load _ _ (trace.ApplyConfig _ _ (overlay config_update config0) [config0]).1.
Proof.
  destruct (ApplyConfig_compose config_update config0 config0 [config0]) as [_ Hl].
  - reflexivity.
  - exact Hl.
Defined.

(** X22 on the partial update. *)
Lemma ApplyConfig_idempotent_witness :
  trace.Load _ _ ((trace.ApplyConfig _ _ config_update;;
                   trace.ApplyConfig _ _ config_update) [config0]).1 =
  trace.Load _ _ (trace.ApplyConfig _ _ config_update [config0]).1.
Proof. apply (ApplyConfig_idempotent config_update config0 [config0]). reflexivity. Defined.

(** X23 on span B of the scenario. *)
Lemma Start_emits_scope_then_span_witness :
  ∃ e1 e2,
    sdk.emitted start_B.1 = sdk.emitted with_service.1 ++ [e1; e2] ∧
    observer.Attributes e1 = [("a", "1")] ∧
    observer.EventID_ (observer.Scope e1) = 1 ∧
    observer.EventID_ (observer.Scope e2) = observer.Sequence e1.
Proof.
  destruct (Start_emits_scope_then_span t1 ctx0 "B" [with_a] with_service.1
              start_B.1 ctx_B span_B)
    as (e1 & e2 & Hem & _ & Hsc1 & Hat & _ & _ & Hsc2 & _).
  - vm_compute. reflexivity.
  - exists e1, e2. split; [exact Hem|]. split; [exact Hat|]. split; [exact Hsc1|exact Hsc2].
Defined.

(** X24 on span B of the scenario. *)
Lemma finished_span_leaves_scope_witness :
  (sdk.Finish span_B start_B.1).2 = Done tt ∧
  ∃ p, scopes (ro (sdk.obs (sdk.Finish span_B start_B.1).1)) !! 2 = Some (IScope p).
Proof.
  destruct (finished_span_leaves_scope t1 ctx0 "B" [with_a] with_service.1
              start_B.1 ctx_B span_B)
    as (Hdone & _ & p & _ & _ & _ & Hp).
  - vm_compute. reflexivity.
  - discriminate.
  - split; [exact Hdone|]. exists p. exact Hp.
Defined.

(** X26 on the first span of a new tracer. *)
Lemma Start_returns_witness :
  ∃ w' sp,
    sdk.Start sdk.New ctx0 "A" [] w0 = (w', Done (sdk.SetCurrentSpan ctx0 sp, sp)).
Proof.
  destruct (Start_returns sdk.New ctx0 "A" [] w0) as (w' & sp & Hrun & _).
  - exact (reachable_well_formed fc [0%nat; 1%nat] []).
  - left. reflexivity.
  - exists w', sp. exact Hrun.
Defined.

(** X27 on span B of the scenario: the service resource, then the
    attribute of the start options. *)
Lemma Start_record_attributes_witness :
  ∃ read,
    delivered (sdk.obs start_B.1) =
      delivered (sdk.obs with_service.1) ++ to_readers (sdk.obs with_service.1) read ∧
    Attributes read = Some [("service", "svc"); ("a", "1")].
Proof.
  destruct (Start_record_attributes t1 ctx0 "B" [with_a] with_service.1
              start_B.1 ctx_B span_B [("service", "svc")] None)
    as (read & Hd & _ & Hat & _).
  - vm_compute. reflexivity.
  - discriminate.
  - vm_compute. reflexivity.
  - exists read. split; [exact Hd|exact Hat].
Defined.

End ScenarioProps.
